(** * LoRa parameter-selection simulations: model and verification

    A shallow embedding of the decision logic of the four ns-3 scratch
    programs

      - [d-lora-simulation.cc]        (module [DLoRa])
      - [lora-ucb1-simulation.cc]     (module [LoRaUCB1])
      - [lorawan_qoca_simulation.cc]  (module [QoC])
      - [tow-lorawan-simulation.cc]   (module [ToW])

    Number model.  A C++ [double] is read as an exact number: a rational
    ([Q], executable) wherever the code only adds, multiplies, divides,
    compares and rounds, and a real ([R]) wherever it calls [sqrt], [log]
    or a real power.  Rounding error of the binary64 format is not
    modelled.  A [uint32_t] is a [Z] in [0, 2^32) with its wrap-around
    written out ([wrap32]); an [int] is a [Z] with two's-complement
    wrap-around ([wrap_int]).  A value the C++ code would compute as an
    infinity or a NaN by dividing by zero is [None] in the functions that
    return [option Q]. *)

From Stdlib Require Import ZArith QArith Qround Qabs Qminmax Qpower.
From Stdlib Require Import Reals Lra Lia Psatz.
From Stdlib Require Lqa.
From Stdlib Require Import Bool String Ascii.
From Stdlib Require Import List Permutation Sorted.
Import ListNotations.

(* ================================================================= *)
(** * Part I: the model *)
(* ================================================================= *)

(** ** Machine integers *)

Definition wrap32 (z : Z) : Z := (z mod 2 ^ 32)%Z.

Definition wrap_int (z : Z) : Z := ((z + 2 ^ 31) mod 2 ^ 32 - 2 ^ 31)%Z.

(** ** Doubles that are rationals *)

(** [a < b]. *)
Definition Qltb (a b : Q) : bool := negb (Qle_bool b a).

(** [static_cast<int>(double)]: truncation toward zero. *)
Definition Qtrunc (q : Q) : Z := if Qle_bool 0 q then Qfloor q else Qceiling q.

(** ** Scores with the two infinities

    The score a selection loop compares: a real, or one of the two
    infinities some of the programs use as sentinels. *)

Inductive score : Type :=
| NegInf
| Fin (r : R)
| PosInf.

(** [a > b]. *)
Definition score_gt (a b : score) : bool :=
  match a, b with
  | NegInf, _ => false
  | _, PosInf => false
  | PosInf, _ => true
  | Fin _, NegInf => true
  | Fin x, Fin y => if Rlt_dec y x then true else false
  end.

(** What a step that may call [NS_FATAL_ERROR] ends in: its value, or the
    process aborted with the message. *)
Inductive result (A : Type) : Type :=
| Done (a : A)
| Fatal (msg : string).

Arguments Done {A} a.
Arguments Fatal {A} msg.

(** [v[i] = x] on a [std::vector]; an index out of range is undefined
    behaviour in the source and leaves the list unchanged here. *)
Fixpoint list_set {A : Type} (l : list A) (i : nat) (x : A) : list A :=
  match l, i with
  | [], _ => []
  | _ :: t, O => x :: t
  | h :: t, S i' => h :: list_set t i' x
  end.

(** Sum of a list of reals, for stating what the accumulating loops of
    the programs add up. *)
Fixpoint Rsum (l : list R) : R :=
  match l with
  | [] => 0%R
  | x :: t => (x + Rsum t)%R
  end.

(** Division of doubles whose result the reports print: [None] stands for
    the infinity or NaN a zero divisor would produce. *)
Definition fdiv (a b : Q) : option Q :=
  if Qeq_bool b 0 then None else Some (a / b)%Q.

(** ** d-lora-simulation.cc *)

Module DLoRa.

Local Open Scope Q_scope.

Definition PAYLOAD_SIZE : Z := 20.

(** The global [SF_SET] as it is initialised. *)
Definition SF_SET : list Z := [7; 8; 9; 10; 11; 12]%Z.

(** The global [SF_SET] as the agent and the baseline algorithms read it:
    [main] replaces it by [{(int) spreadingFactor}] when the command line
    gives a fixed spreading factor (a [uint32_t], 0 by default), before it
    creates the applications. *)
Definition runtime_SF_SET (spreadingFactor : Z) : list Z :=
  if (0 <? spreadingFactor)%Z then [wrap_int spreadingFactor] else SF_SET.

(** [CalculateToA (int sf, double bw, uint32_t payloadSize)], in seconds. *)
Definition CalculateToA (sf : Z) (bw : Q) (payloadSize : Z) : Q :=
  let symbolDuration := Qpower 2 sf / bw in
  let npre := 8 in
  let preambleDuration := (npre + 4.25) * symbolDuration in
  let PS := inject_Z payloadSize in
  let CRC := 1 in
  let H := 0 in
  let DE := 0 in
  let CR := 1 in
  let term1 := 8 * PS - 4 * inject_Z sf + 28 + 16 * CRC - 20 * H in
  let term2 := 4 * (inject_Z sf - 2 * DE) in
  let npay := 8 + Qmax (inject_Z (Qceiling (term1 / term2)) * (CR + 4)) 0 in
  let payloadDuration := npay * symbolDuration in
  preambleDuration + payloadDuration.

(** *** The per-dimension UCB1 bandit of [DLoRaAgent] *)

Local Close Scope Q_scope.
Local Open Scope R_scope.

Definition C_WEIGHT_FACTOR : R := 2.
Definition DBL_MAX : R := IZR (2 ^ 1024 - 2 ^ 971).

(** The score of an arm that has been selected.  When the [uint32_t] sum
    [totalSelections + 1] wraps to 0 the source takes [log (0)] and the
    score is a NaN; [ln 0] is 0 here, and the properties below are stated
    for totals whose successor does not wrap. *)
Definition ucb_score (mean : R) (n : Z) (totalSelections : Z) : R :=
  mean + C_WEIGHT_FACTOR
         * sqrt (ln (IZR (wrap32 (totalSelections + 1))) / (2 * IZR n)).

Section Bandit.

Variable T : Type.
Variable T_eq_dec : forall x y : T, {x = y} + {x <> y}.

Definition smap (V : Type) : Type := list (T * V).

Fixpoint smap_get {V : Type} (dflt : V) (m : smap V) (k : T) : V :=
  match m with
  | [] => dflt
  | (k', v) :: m' => if T_eq_dec k k' then v else smap_get dflt m' k
  end.

Fixpoint smap_set {V : Type} (m : smap V) (k : T) (v : V) : smap V :=
  match m with
  | [] => [(k, v)]
  | (k', v') :: m' =>
      if T_eq_dec k k' then (k, v) :: m' else (k', v') :: smap_set m' k v
  end.

Record ArmStats : Type := {
  expectedRewards : smap R;
  numSelections : smap Z
}.

Definition meanOf (st : ArmStats) (arm : T) : R :=
  smap_get 0 (expectedRewards st) arm.

Definition countOf (st : ArmStats) (arm : T) : Z :=
  smap_get 0%Z (numSelections st) arm.

Definition init_arms (armSet : list T) : ArmStats :=
  fold_left
    (fun st arm =>
       {| expectedRewards := smap_set (expectedRewards st) arm 0;
          numSelections := smap_set (numSelections st) arm 0%Z |})
    armSet {| expectedRewards := []; numSelections := [] |}.

Definition totalSelections (st : ArmStats) : Z :=
  fold_left (fun acc kv => wrap32 (acc + snd kv)) (numSelections st) 0%Z.

Definition ucbValue (st : ArmStats) (total : Z) (arm : T) : R :=
  if Z.eq_dec (countOf st arm) 0 then DBL_MAX
  else ucb_score (meanOf st arm) (countOf st arm) total.

Definition SelectArm_step (st : ArmStats) (total : Z) (acc : R * T) (arm : T)
  : R * T :=
  let (maxUCB, selectedArm) := acc in
  let ucb := ucbValue st total arm in
  if Rlt_dec maxUCB ucb then (ucb, arm) else (maxUCB, selectedArm).

Definition SelectArm (st : ArmStats) (armSet : list T) : option T :=
  match armSet with
  | [] => None
  | a0 :: _ =>
      Some (snd (fold_left (SelectArm_step st (totalSelections st))
                           armSet (-1, a0)))
  end.

Definition UpdateArm (st : ArmStats) (arm : T) (reward : R) : ArmStats :=
  let n := wrap32 (countOf st arm + 1) in
  let e := meanOf st arm in
  {| expectedRewards :=
       smap_set (expectedRewards st) arm (e + (reward - e) / IZR n);
     numSelections := smap_set (numSelections st) arm n |}.

Fixpoint play (armSet : list T) (rewards : list R) (st : ArmStats) : list T :=
  match rewards with
  | [] => []
  | r :: rs =>
      match SelectArm st armSet with
      | None => []
      | Some a => a :: play armSet rs (UpdateArm st a r)
      end
  end.

Inductive reachable (armSet : list T) : ArmStats -> Prop :=
| reach_init : reachable armSet (init_arms armSet)
| reach_update : forall st a r,
    reachable armSet st -> In a armSet -> 0 <= r ->
    (countOf st a + 1 < 2 ^ 32)%Z ->
    reachable armSet (UpdateArm st a r).

(** The statistics after a sequence of [UpdateArm] calls on the maps the
    constructor of [DLoRaAgent] fills, and the rewards the calls gave to
    one arm, in order. *)
Definition after_updates (armSet : list T) (events : list (T * R)) : ArmStats :=
  fold_left (fun st ev => UpdateArm st (fst ev) (snd ev)) events
            (init_arms armSet).

Definition rewards_of (arm : T) (events : list (T * R)) : list R :=
  map snd
      (filter (fun ev => if T_eq_dec (fst ev) arm then true else false) events).

End Bandit.

Arguments smap_get {T} T_eq_dec {V} dflt m k.
Arguments smap_set {T} T_eq_dec {V} m k v.
Arguments expectedRewards {T} _.
Arguments numSelections {T} _.
Arguments Build_ArmStats {T} _ _.
Arguments meanOf {T} T_eq_dec st arm.
Arguments countOf {T} T_eq_dec st arm.
Arguments init_arms {T} T_eq_dec armSet.
Arguments totalSelections {T} st.
Arguments ucbValue {T} T_eq_dec st total arm.
Arguments SelectArm_step {T} T_eq_dec st total acc arm.
Arguments SelectArm {T} T_eq_dec st armSet.
Arguments UpdateArm {T} T_eq_dec st arm reward.
Arguments play {T} T_eq_dec armSet rewards st.
Arguments reachable {T} T_eq_dec armSet _.
Arguments after_updates {T} T_eq_dec armSet events.
Arguments rewards_of {T} T_eq_dec arm events.

(** *** [main]: the choice of the algorithm and the final metrics *)

Local Close Scope R_scope.
Local Open Scope Q_scope.






(** The global accumulators that [SendPacket] updates. *)
Record Accumulators : Type := {
  g_totalPacketsSent : Q;
  g_totalPacketsReceived : Q;
  g_totalEnergyConsumed : Q;
  g_totalDataReceived : Q;
  g_totalTimeOnAir : Q;
  g_totalRSSI : Q;
  g_totalSNR : Q;
  g_rssiMeasurements : Z;
  g_snrMeasurements : Z;
  g_collisions : Z
}.

Definition initial_accumulators : Accumulators :=
  {| g_totalPacketsSent := 0;
     g_totalPacketsReceived := 0;
     g_totalEnergyConsumed := 0;
     g_totalDataReceived := 0;
     g_totalTimeOnAir := 0;
     g_totalRSSI := 0;
     g_totalSNR := 0;
     g_rssiMeasurements := 0;
     g_snrMeasurements := 0;
     g_collisions := 0 |}.

(** What one call of [SendPacket] computes before it updates the
    accumulators. *)
Record Transmission : Type := {
  tx_rssi : Q;
  tx_snr : Q;
  tx_toa : Q;
  tx_energyConsumed : Q;
  tx_collision : bool;
  tx_success : bool;
  tx_packetSize : Z
}.

Definition SendPacket_accumulate (g : Accumulators) (t : Transmission)
  : Accumulators :=
  {| g_totalPacketsSent := g_totalPacketsSent g + 1;
     g_totalPacketsReceived :=
       if tx_success t then g_totalPacketsReceived g + 1
       else g_totalPacketsReceived g;
     g_totalEnergyConsumed := g_totalEnergyConsumed g + tx_energyConsumed t;
     g_totalDataReceived :=
       if tx_success t
       then g_totalDataReceived g + inject_Z (tx_packetSize t)
       else g_totalDataReceived g;
     g_totalTimeOnAir := g_totalTimeOnAir g + tx_toa t;
     g_totalRSSI := g_totalRSSI g + tx_rssi t;
     g_totalSNR := g_totalSNR g + tx_snr t;
     g_rssiMeasurements := wrap32 (g_rssiMeasurements g + 1);
     g_snrMeasurements := wrap32 (g_snrMeasurements g + 1);
     g_collisions :=
       if tx_collision t then wrap32 (g_collisions g + 1)
       else g_collisions g |}.

Definition option_scale (x : option Q) (k : Q) : option Q :=
  match x with
  | Some v => Some (v * k)
  | None => None
  end.

Record Metrics : Type := {
  pdr : option Q;
  ee : option Q;
  th : option Q;
  avgToA : option Q;
  avgRSSI : option Q;
  avgSNR : option Q;
  collisionRate : option Q
}.

(** The metrics [main] computes after [Simulator::Run ()]. *)
Definition final_metrics (g : Accumulators) : Metrics :=
  {| pdr :=
       if Qltb 0 (g_totalPacketsSent g)
       then option_scale
              (fdiv (g_totalPacketsReceived g) (g_totalPacketsSent g)) 100
       else Some 0;
     ee :=
       if Qltb 0 (g_totalEnergyConsumed g)
       then fdiv (g_totalDataReceived g * 8) (g_totalEnergyConsumed g)
       else Some 0;
     th :=
       if Qltb 0 (g_totalTimeOnAir g)
       then fdiv (g_totalDataReceived g * 8) (g_totalTimeOnAir g)
       else Some 0;
     avgToA :=
       if Qltb 0 (g_totalPacketsSent g)
       then option_scale
              (fdiv (g_totalTimeOnAir g) (g_totalPacketsSent g)) 1000
       else Some 0;
     avgRSSI :=
       if (0 <? g_rssiMeasurements g)%Z
       then fdiv (g_totalRSSI g) (inject_Z (g_rssiMeasurements g))
       else Some 0;
     avgSNR :=
       if (0 <? g_snrMeasurements g)%Z
       then fdiv (g_totalSNR g) (inject_Z (g_snrMeasurements g))
       else Some 0;
     collisionRate :=
       if Qltb 0 (g_totalPacketsSent g)
       then option_scale
              (fdiv (inject_Z (g_collisions g)) (g_totalPacketsSent g)) 100
       else Some 0 |}.

(** *** The parameter sets and the reward functions of [DLoRaAgent] *)

Definition BW_SET : list Q := [125000; 250000; 500000].
Definition CF_SET : list Q :=
  [470100000; 470300000; 470500000; 470700000; 470900000; 471100000;
   471300000; 471500000].
Definition TP_SET : list Q := [2; 4; 6; 8; 10; 12; 14].

(** The weights [g_xi], [g_zeta] and [g_eta] of the D-LoRa variants. *)
Record Weights : Type := {
  g_xi : Q;
  g_zeta : Q;
  g_eta : Q
}.

(** [sfSet] is the value of the global [SF_SET] at the time of the call. *)
Definition CalculateRewardSF (w : Weights) (sfSet : list Z) (sf : Z)
    (success : bool) : Q :=
  let r_sf := if success then 1 else 0 in
  if Qltb 0 (g_xi w) then
    let sum_2_sf := fold_left (fun acc s => acc + Qpower 2 s) sfSet 0 in
    r_sf + g_xi w * (Qpower 2 sf / sum_2_sf)
  else r_sf.

Definition CalculateRewardBW (w : Weights) (bw : Q) (success : bool) : Q :=
  let r_bw := if success then 1 else 0 in
  if Qltb 0 (g_zeta w) then
    let sum_bw := fold_left Qplus BW_SET 0 in
    r_bw + g_zeta w * (bw / sum_bw)
  else r_bw.

Definition CalculateRewardCF (cf : Q) (success : bool) : Q :=
  if success then 1 else 0.

Definition CalculateRewardTP (w : Weights) (tp : Q) (success : bool) : Q :=
  let r_tp := if success then 1 else 0 in
  if Qltb 0 (g_eta w) then
    let sum_tp := fold_left Qplus TP_SET 0 in
    r_tp + g_eta w * (1 - tp / sum_tp)
  else r_tp.

(** [CheckCollision]; [u] is the value the uniform variable gives when
    the function draws one. *)
Definition CheckCollision (sf1 : Z) (cf1 : Q) (sf2 : Z) (cf2 : Q) (u : Q)
  : bool :=
  if Z.eqb sf1 sf2 && Qltb (Qabs (cf1 - cf2)) 1000000 then true
  else if Qltb (Qabs (cf1 - cf2)) 1000000 then
    let sf_diff := Z.abs (wrap_int (sf1 - sf2)) in
    if (sf_diff <=? 1)%Z then Qltb u 0.3
    else if (sf_diff <=? 2)%Z then Qltb u 0.1
    else false
  else false.

(** *** The baseline algorithms

    The tuples [(sf, bw, cf, tp)] their [SelectParameters] return; the
    counters of [BaseAlgorithm] are left out.  [sfSet] is the value of the
    global [SF_SET] at the time of the call.  An index argument is the
    value of [GetInteger (0, size - 1)], a [u] argument the value of
    [GetValue ()], and the distance the value of [MyCalculateDistance],
    absent when a mobility model is missing. *)
Definition Parameters : Type := (Z * Q * Q * Q)%type.

Definition RandomAlgorithm_SelectParameters (sfSet : list Z)
    (iSF iBW iCF iTP : nat) : Parameters :=
  (nth iSF sfSet 0%Z, nth iBW BW_SET 0, nth iCF CF_SET 0, nth iTP TP_SET 0).

Definition RoundRobinAlgorithm_SelectParameters (sfSet : list Z) (nodeId : Z)
    (iBW iTP : nat) : Parameters :=
  (nth (Z.to_nat (nodeId mod Z.of_nat (List.length sfSet))) sfSet 0%Z,
   nth iBW BW_SET 0,
   nth (Z.to_nat (nodeId mod Z.of_nat (List.length CF_SET))) CF_SET 0,
   nth iTP TP_SET 0).

Definition ADRAlgorithm_SelectParameters (distance : option Q) (iCF : nat)
  : Parameters :=
  match distance with
  | None => (7%Z, nth 0 BW_SET 0, nth 0 CF_SET 0, nth 0 TP_SET 0)
  | Some distance =>
      let sf :=
        if Qltb distance 500 then 7%Z
        else if Qltb distance 800 then 8%Z
        else if Qltb distance 1100 then 9%Z
        else if Qltb distance 1400 then 10%Z
        else if Qltb distance 1700 then 11%Z
        else 12%Z in
      (sf, nth 0 BW_SET 0, nth iCF CF_SET 0, nth 0 TP_SET 0)
  end.

Definition RSLoRaAlgorithm_SelectParameters (rand randBW : Q) (iCF iTP : nat)
  : Parameters :=
  let sf :=
    if Qltb rand 0.4 then 7%Z
    else if Qltb rand 0.7 then 8%Z
    else if Qltb rand 0.85 then 9%Z
    else if Qltb rand 0.93 then 10%Z
    else if Qltb rand 0.98 then 11%Z
    else 12%Z in
  let bw :=
    if Qltb randBW 0.5 then nth 2 BW_SET 0
    else if Qltb randBW 0.8 then nth 1 BW_SET 0
    else nth 0 BW_SET 0 in
  (sf, bw, nth iCF CF_SET 0, nth iTP TP_SET 0).

Local Close Scope Q_scope.
Local Open Scope R_scope.

(** [CalculateEnergyConsumption (txPowerDbm, toa)], in mJ. *)
Definition CalculateEnergyConsumption (txPowerDbm toa : R) : R :=
  let txPowerMw := Rpower 10 (txPowerDbm / 10) in
  let energyMj := txPowerMw * toa in
  energyMj.

(** The spreading-factor dimension after a success on SF 7 and a failure
    on SF 8, for the two-arm set a scenario pins it to. *)
Definition two_arm_state : ArmStats Z :=
  UpdateArm Z.eq_dec
    (UpdateArm Z.eq_dec (init_arms Z.eq_dec [7; 8]%Z) 7%Z 1) 8%Z 0.

End DLoRa.

(** ** lora-ucb1-simulation.cc *)

Module LoRaUCB1.

Local Open Scope Q_scope.

(** The command-line globals the modelled functions read. *)
Record Globals : Type := {
  g_numDevices : Z;
  g_numTransmissions : Z;
  g_spreadingFactor : Z
}.

Definition default_globals : Globals :=
  {| g_numDevices := 10; g_numTransmissions := 50; g_spreadingFactor := 7 |}.

Definition g_channels : list Q := [920.6; 921.0; 921.4; 921.8; 922.2].
Definition g_transmissionPowers : list Z := [-3; 1; 5; 9; 13]%Z.
Definition g_receivableChannels : list Q := [921.0; 921.4; 921.8].

Definition E_WU : R := (56.1 * 0.001)%R.
Definition E_proc : R := (85.8 * 0.001)%R.
Definition E_R : R := (66 * 0.001)%R.
Definition P_MCU : R := 29.7%R.
Definition N_P : Z := 8.
Definition N_Payload_min : Z := 36.
Definition N_Payload_max : Z := 44.
Definition BW : Q := 125000.

(** One value of [m_rand->GetValue()] per place that draws one during a
    decision cycle. *)
Record Draws : Type := {
  u_explore : Q;
  u_channel : Q;
  u_power : Q;
  u_gateway : Q;
  u_payload_reward : Q;
  u_payload_energy : Q
}.

Definition no_draws : Draws :=
  {| u_explore := 0; u_channel := 0; u_power := 0; u_gateway := 0;
     u_payload_reward := 0; u_payload_energy := 0 |}.

Record UCBStats : Type := {
  rewardsSum : R;
  selectionsCount : Z;
  rewardHistory : list R
}.

Definition UCBStats_new : UCBStats :=
  {| rewardsSum := 0%R; selectionsCount := 0; rewardHistory := [] |}.

Definition getVariance (s : UCBStats) : R :=
  if (List.length (rewardHistory s) <=? 1)%nat then 0%R
  else
    let mean := (rewardsSum s / IZR (selectionsCount s))%R in
    let sumSquared :=
      fold_left (fun acc reward => (acc + (reward - mean) * (reward - mean))%R)
                (rewardHistory s) 0%R in
    (sumSquared / INR (List.length (rewardHistory s) - 1))%R.

(** [std::map<std::pair<double, int>, UCBStats>]. *)
Definition arm : Type := (Q * Z)%type.

Definition arm_eqb (a b : arm) : bool :=
  Qeq_bool (fst a) (fst b) && Z.eqb (snd a) (snd b).

Fixpoint stats_get (m : list (arm * UCBStats)) (k : arm) : UCBStats :=
  match m with
  | [] => UCBStats_new
  | (k', s) :: m' => if arm_eqb k k' then s else stats_get m' k
  end.

Fixpoint stats_set (m : list (arm * UCBStats)) (k : arm) (s : UCBStats)
  : list (arm * UCBStats) :=
  match m with
  | [] => [(k, s)]
  | (k', s') :: m' =>
      if arm_eqb k k' then (k, s) :: m' else (k', s') :: stats_set m' k s
  end.

(** The arms in the order of the nested loops [for ch ... for tp ...]. *)
Definition all_arms : list arm :=
  flat_map (fun ch => map (fun tp => (ch, tp)) g_transmissionPowers) g_channels.

Record LoRaDevice : Type := {
  m_deviceId : Z;
  m_currentTransmissionRound : Z;
  m_totalSelections : Z;
  m_algorithm : string;
  m_ucbStats : list (arm * UCBStats);
  m_epsilon : Q;
  m_adrParameterList : list arm;
  m_adrIndex : Z;
  m_successHistory : list bool;
  m_energyHistory : list R;
  m_tpSelectionHistory : list Z;
  m_channelSelectionHistory : list Q
}.

Record LoRaGateway : Type := {
  m_receivableChannels : list Q
}.

(** [LoRaDevice::LoRaDevice]. *)
Definition LoRaDevice_new (deviceId : Z) (algorithm : string) : LoRaDevice :=
  let channelsOrdered := [920.6; 922.2; 921.0; 921.4; 921.8] in
  let tpsOrdered := [-3; 1; 5; 9; 13]%Z in
  let adr :=
    if String.eqb algorithm "ADR-Lite"
    then flat_map (fun tp => map (fun ch => (ch, tp)) channelsOrdered) tpsOrdered
    else [] in
  {| m_deviceId := deviceId;
     m_currentTransmissionRound := 0;
     m_totalSelections := 0;
     m_algorithm := algorithm;
     m_ucbStats := fold_left (fun m k => stats_set m k UCBStats_new) all_arms [];
     m_epsilon := 0.1;
     m_adrParameterList := adr;
     m_adrIndex :=
       if String.eqb algorithm "ADR-Lite"
       then wrap_int (Z.of_nat (List.length adr) - 1)
       else 0%Z;
     m_successHistory := [];
     m_energyHistory := [];
     m_tpSelectionHistory := [];
     m_channelSelectionHistory := [] |}.

(** [GeneratePayloadSize], on the draw [u]. *)
Definition GeneratePayloadSize (u : Q) : Z :=
  let range := (N_Payload_max - N_Payload_min + 1)%Z in
  (N_Payload_min + Z.rem (Qtrunc (u * inject_Z range)) range)%Z.

(** [CalculateTimeOnAir]; the argument [tp] is unused, as in the source. *)
Definition CalculateTimeOnAir (g : Globals) (tp : Z) (u : Q) : Q :=
  let T_Symbol := Qpower 2 (g_spreadingFactor g) / BW in
  let T_Preamble := (4.25 + inject_Z N_P) * T_Symbol in
  let payloadSize := GeneratePayloadSize u in
  let T_Payload := T_Symbol * inject_Z payloadSize in
  T_Preamble + T_Payload.

Definition CalculateEnergyConsumption (g : Globals) (tp : Z) (u : Q) : R :=
  let T_ToA := Q2R (CalculateTimeOnAir g tp u) in
  let P_ToA := Rpower 10 (IZR tp / 10) in
  let E_ToA := ((P_MCU + P_ToA) * T_ToA / 1000)%R in
  (E_WU + E_proc + E_ToA + E_R)%R.

Definition UpdateStatistics (g : Globals) (d : LoRaDevice)
    (channel : Q) (tp : Z) (success : bool) (dr : Draws) : LoRaDevice :=
  let key := (channel, tp) in
  let stats := stats_get (m_ucbStats d) key in
  let reward :=
    if success then
      let E_ToA_val :=
        ((P_MCU + Rpower 10 (IZR tp / 10))
         * Q2R (CalculateTimeOnAir g tp (u_payload_reward dr)) / 1000)%R in
      (1 / E_ToA_val)%R
    else 0%R in
  let stats' :=
    {| rewardsSum := (rewardsSum stats + reward)%R;
       selectionsCount := wrap_int (selectionsCount stats + 1);
       rewardHistory := rewardHistory stats ++ [reward] |} in
  {| m_deviceId := m_deviceId d;
     m_currentTransmissionRound := m_currentTransmissionRound d;
     m_totalSelections := wrap_int (m_totalSelections d + 1);
     m_algorithm := m_algorithm d;
     m_ucbStats := stats_set (m_ucbStats d) key stats';
     m_epsilon := m_epsilon d;
     m_adrParameterList := m_adrParameterList d;
     m_adrIndex := m_adrIndex d;
     m_successHistory := m_successHistory d ++ [success];
     m_energyHistory :=
       m_energyHistory d
       ++ [CalculateEnergyConsumption g tp (u_payload_energy dr)];
     m_tpSelectionHistory := m_tpSelectionHistory d ++ [tp];
     m_channelSelectionHistory := m_channelSelectionHistory d ++ [channel] |}.

Definition CalculateUCBScore (d : LoRaDevice) (channel : Q) (tp : Z)
    (totalSelections : Z) : score :=
  let stats := stats_get (m_ucbStats d) (channel, tp) in
  if (selectionsCount stats =? 0)%Z then PosInf
  else
    let n := IZR (selectionsCount stats) in
    let meanReward := (rewardsSum stats / n)%R in
    let variance := getVariance stats in
    let V_ui := (variance + sqrt ((2 * ln (IZR totalSelections)) / n))%R in
    let explorationTerm :=
      sqrt ((ln (IZR totalSelections) / n) * Rmin 0.25 V_ui)%R in
    Fin (meanReward + explorationTerm)%R.

(** The body of the two nested loops of [SelectTransmissionParametersUCB1]. *)
Definition UCB1_step (d : LoRaDevice) (acc : score * arm) (a : arm)
  : score * arm :=
  let sc := CalculateUCBScore d (fst a) (snd a) (m_totalSelections d) in
  if score_gt sc (fst acc) then (sc, a) else acc.

Definition SelectTransmissionParametersUCB1 (d : LoRaDevice) : arm :=
  let bestChannel := nth 0 g_channels 0 in
  let bestTp := nth 0 g_transmissionPowers 0%Z in
  snd (fold_left (UCB1_step d) all_arms (NegInf, (bestChannel, bestTp))).

(** The body of the exploitation loops of
    [SelectTransmissionParametersEpsilonGreedy]. *)
Definition EpsilonGreedy_step (d : LoRaDevice) (acc : R * arm) (a : arm)
  : R * arm :=
  let s := stats_get (m_ucbStats d) a in
  if (0 <? selectionsCount s)%Z then
    let avgReward := (rewardsSum s / IZR (selectionsCount s))%R in
    if Rlt_dec (fst acc) avgReward then (avgReward, a) else acc
  else acc.

Definition SelectTransmissionParametersEpsilonGreedy (d : LoRaDevice)
    (dr : Draws) : arm :=
  if Qltb (u_explore dr) (m_epsilon d) then
    let chIdx :=
      Qtrunc (u_channel dr * inject_Z (Z.of_nat (List.length g_channels))) in
    let tpIdx :=
      Qtrunc (u_power dr
              * inject_Z (Z.of_nat (List.length g_transmissionPowers))) in
    (nth (Z.to_nat chIdx) g_channels 0,
     nth (Z.to_nat tpIdx) g_transmissionPowers 0%Z)
  else
    let bestChannel := nth 0 g_channels 0 in
    let bestTp := nth 0 g_transmissionPowers 0%Z in
    snd (fold_left (EpsilonGreedy_step d) all_arms
                   ((-1)%R, (bestChannel, bestTp))).

Definition SelectTransmissionParametersFixed (d : LoRaDevice) : arm :=
  let size := Z.of_nat (List.length g_receivableChannels) in
  let assignedChannel :=
    nth (Z.to_nat ((m_deviceId d mod 2 ^ 64) mod size)) g_receivableChannels 0 in
  let minTp :=
    fold_left Z.min g_transmissionPowers (nth 0 g_transmissionPowers 0%Z) in
  (assignedChannel, minTp).

(** [SelectTransmissionParametersADRLite]: the chosen arm and the device
    with its updated ladder index.  [int] division truncates. *)
Definition SelectTransmissionParametersADRLite (d : LoRaDevice)
  : arm * LoRaDevice :=
  let with_index (i : Z) : LoRaDevice :=
    {| m_deviceId := m_deviceId d;
       m_currentTransmissionRound := m_currentTransmissionRound d;
       m_totalSelections := m_totalSelections d;
       m_algorithm := m_algorithm d;
       m_ucbStats := m_ucbStats d;
       m_epsilon := m_epsilon d;
       m_adrParameterList := m_adrParameterList d;
       m_adrIndex := i;
       m_successHistory := m_successHistory d;
       m_energyHistory := m_energyHistory d;
       m_tpSelectionHistory := m_tpSelectionHistory d;
       m_channelSelectionHistory := m_channelSelectionHistory d |} in
  let at_index (i : Z) : arm := nth (Z.to_nat i) (m_adrParameterList d) (0, 0%Z) in
  match m_successHistory d with
  | [] => (at_index (m_adrIndex d), d)
  | _ :: _ =>
      let lastSuccess := last (m_successHistory d) false in
      let size := wrap_int (Z.of_nat (List.length (m_adrParameterList d))) in
      let i :=
        if lastSuccess then
          let newIndex := Z.quot (m_adrIndex d) 2 in
          Z.max 0 newIndex
        else
          let newIndex := Z.quot (wrap_int (m_adrIndex d + size)) 2 in
          Z.min (wrap_int (size - 1)) newIndex in
      (at_index i, with_index i)
  end.

(** [LoRaGateway::ReceiveTransmission], split at the Bernoulli draw. *)
Definition channelReceivable (rcs : list Q) (channel : Q) : bool :=
  existsb (fun rc => Qltb (Qabs (channel - rc)) 0.001) rcs.

Definition successProbability (g : Globals) (channel : Q) (tp : Z) : Q :=
  let baseProbability := 0.87 + inject_Z (wrap_int (tp + 3)) * 0.02 in
  let densityFactor :=
    Qmax 0.65 (1.0 - inject_Z (wrap_int (g_numDevices g - 10)) * 0.006) in
  let channelBonus :=
    if channelReceivable g_receivableChannels channel then 1.05 else 1.0 in
  let powerBonus := 1.0 + inject_Z (wrap_int (tp - (-3))) * 0.01 in
  let p := baseProbability * densityFactor * channelBonus * powerBonus in
  Qmin 0.98 (Qmax 0.2 p).

Definition ReceiveTransmission (g : Globals) (gw : LoRaGateway)
    (channel : Q) (tp : Z) (deviceId : Z) (u : Q) : bool :=
  if channelReceivable (m_receivableChannels gw) channel
  then Qltb u (successProbability g channel tp)
  else false.

(** [LoRaDevice::StartApplication]: the initial sweep of UCB1-tuned; one
    record of draws per swept arm. *)
Definition StartApplication (g : Globals) (gw : LoRaGateway) (d : LoRaDevice)
    (draws : list Draws) : LoRaDevice :=
  if String.eqb (m_algorithm d) "UCB1-tuned" then
    fst
      (fold_left
         (fun (acc : LoRaDevice * list Draws) (a : arm) =>
            let dr := hd no_draws (snd acc) in
            let success :=
              ReceiveTransmission g gw (fst a) (snd a) (m_deviceId (fst acc))
                                  (u_gateway dr) in
            (UpdateStatistics g (fst acc) (fst a) (snd a) success dr,
             tl (snd acc)))
         all_arms (d, draws))
  else d.

Definition next_round (d : LoRaDevice) : LoRaDevice :=
  {| m_deviceId := m_deviceId d;
     m_currentTransmissionRound := wrap_int (m_currentTransmissionRound d + 1);
     m_totalSelections := m_totalSelections d;
     m_algorithm := m_algorithm d;
     m_ucbStats := m_ucbStats d;
     m_epsilon := m_epsilon d;
     m_adrParameterList := m_adrParameterList d;
     m_adrIndex := m_adrIndex d;
     m_successHistory := m_successHistory d;
     m_energyHistory := m_energyHistory d;
     m_tpSelectionHistory := m_tpSelectionHistory d;
     m_channelSelectionHistory := m_channelSelectionHistory d |}.

(** [LoRaDevice::SelectAndTransmit], without the scheduling of the next
    cycle. *)
Definition SelectAndTransmit (g : Globals) (gw : LoRaGateway) (d : LoRaDevice)
    (dr : Draws) : result LoRaDevice :=
  if (m_currentTransmissionRound d <? g_numTransmissions g)%Z then
    let selected : result (arm * LoRaDevice) :=
      if String.eqb (m_algorithm d) "UCB1-tuned" then
        Done (SelectTransmissionParametersUCB1 d, d)
      else if String.eqb (m_algorithm d) "Epsilon-Greedy" then
        Done (SelectTransmissionParametersEpsilonGreedy d dr, d)
      else if String.eqb (m_algorithm d) "ADR-Lite" then
        Done (SelectTransmissionParametersADRLite d)
      else if String.eqb (m_algorithm d) "Fixed" then
        Done (SelectTransmissionParametersFixed d, d)
      else Fatal ("Algorithme inconnu: " ++ m_algorithm d) in
    match selected with
    | Fatal msg => Fatal msg
    | Done (params, d1) =>
        let channel := fst params in
        let tp := snd params in
        let success :=
          ReceiveTransmission g gw channel tp (m_deviceId d1) (u_gateway dr) in
        Done (next_round (UpdateStatistics g d1 channel tp success dr))
    end
  else Done d.

(** The ladder indices ADR-Lite uses over a run: the index chosen for each
    transmission of [outcomes], then the one chosen for the next. *)
Fixpoint adr_lite_indices (g : Globals) (d : LoRaDevice)
    (outcomes : list (bool * Draws)) : list Z :=
  let sel := SelectTransmissionParametersADRLite d in
  let d1 := snd sel in
  m_adrIndex d1
  :: match outcomes with
     | [] => []
     | (success, dr) :: rest =>
         adr_lite_indices g
           (UpdateStatistics g d1 (fst (fst sel)) (snd (fst sel)) success dr)
           rest
     end.

(** A device running Epsilon-Greedy after its first decision cycle, which
    exploits (draw 0.5 against epsilon 0.1), picks the default arm
    (920.6 MHz, -3 dBm) and fails on that unreceivable channel. *)
Definition exploit_draws : Draws :=
  {| u_explore := 0.5; u_channel := 0; u_power := 0; u_gateway := 0;
     u_payload_reward := 0; u_payload_energy := 0 |}.

Definition program_gateway : LoRaGateway :=
  {| m_receivableChannels := g_receivableChannels |}.

Definition greedy_after_first_cycle : LoRaDevice :=
  next_round
    (UpdateStatistics default_globals (LoRaDevice_new 0 "Epsilon-Greedy")
                      920.6 (-3) false exploit_draws).

(** The decision cycles of one device, one record of draws per call of
    [SelectAndTransmit], up to the first fatal error.  A call that finds
    no transmission left changes nothing (and schedules no further call in
    the source). *)
Fixpoint run_cycles (g : Globals) (gw : LoRaGateway) (d : LoRaDevice)
    (draws : list Draws) : result LoRaDevice :=
  match draws with
  | [] => Done d
  | dr :: rest =>
      match SelectAndTransmit g gw d dr with
      | Fatal msg => Fatal msg
      | Done d1 => run_cycles g gw d1 rest
      end
  end.

End LoRaUCB1.

(** ** lorawan_qoca_simulation.cc *)

Module QoC.

Local Open Scope Q_scope.

(** [LoRaWANQoCSimulation::CalculateToA (uint32_t payloadSize, uint8_t sf,
    double bandwidth)], in milliseconds.  [1 << sf] is an [int] shift. *)
Definition CalculateToA (payloadSize : Z) (sf : Z) (bandwidth : Q) : Q :=
  let de := 0 in
  let ih := 0 in
  let crc := 1 in
  let cr := 1 in
  let pl := inject_Z payloadSize in
  let nPreamble := 8 in
  let argument :=
    (8 * pl - inject_Z (4 * sf) + 28 + 16 * crc - 20 * ih)
    / (4 * (inject_Z sf - 2 * de)) in
  let nPayload := 8 + Qmax 0 (inject_Z (Qceiling argument) * (cr + 4)) in
  let tSymbol := inject_Z (wrap_int (Z.shiftl 1 sf)) / bandwidth in
  let toA := (nPreamble + 4.25 + nPayload) * tSymbol * 1000 in
  toA.

(** *** [class BanditAlgorithm] *)

Local Close Scope Q_scope.
Local Open Scope R_scope.

Inductive AlgorithmType : Type := UNIFORM | UCB | QOC_A | DQOC_A.

(** Channel numbers and [m_K] are [uint32_t] values used as vector
    indices, read as [nat]; the counters [m_n] and [m_T_i] are [uint32_t]
    with wrap-around. *)
Record BanditAlgorithm : Type := {
  m_K : nat;
  m_n : Z;
  m_T_i : list Z;
  m_R_i : list R;
  m_G_i : list R;
  m_rewards : list (list R);
  m_qualities : list (list R);
  m_channelHistory : list nat;
  m_alpha : R;
  m_beta : R;
  m_lambda : R;
  m_lambdaG : R;
  m_type : AlgorithmType;
  m_currentChannel : nat
}.

Definition BanditAlgorithm_new (K : nat) (type : AlgorithmType)
    (alpha beta lambda lambdaG : R) : BanditAlgorithm :=
  {| m_K := K;
     m_n := 0;
     m_T_i := repeat 0%Z K;
     m_R_i := repeat 0 K;
     m_G_i := repeat 0 K;
     m_rewards := repeat [] K;
     m_qualities := repeat [] K;
     m_channelHistory := [];
     m_alpha := alpha;
     m_beta := beta;
     m_lambda := lambda;
     m_lambdaG := lambdaG;
     m_type := type;
     m_currentChannel := 0 |}.

Definition T_at (b : BanditAlgorithm) (i : nat) : Z := nth i (m_T_i b) 0%Z.
Definition R_at (b : BanditAlgorithm) (i : nat) : R := nth i (m_R_i b) 0.
Definition G_at (b : BanditAlgorithm) (i : nat) : R := nth i (m_G_i b) 0.

(** The state with packet index [n] (what [m_n++] and [Reset] write). *)
Definition at_packet (b : BanditAlgorithm) (n : Z) : BanditAlgorithm :=
  {| m_K := m_K b;
     m_n := n;
     m_T_i := m_T_i b;
     m_R_i := m_R_i b;
     m_G_i := m_G_i b;
     m_rewards := m_rewards b;
     m_qualities := m_qualities b;
     m_channelHistory := m_channelHistory b;
     m_alpha := m_alpha b;
     m_beta := m_beta b;
     m_lambda := m_lambda b;
     m_lambdaG := m_lambdaG b;
     m_type := m_type b;
     m_currentChannel := m_currentChannel b |}.

Definition SelectChannelUniform (b : BanditAlgorithm)
  : nat * BanditAlgorithm :=
  (m_currentChannel b,
   {| m_K := m_K b;
      m_n := m_n b;
      m_T_i := m_T_i b;
      m_R_i := m_R_i b;
      m_G_i := m_G_i b;
      m_rewards := m_rewards b;
      m_qualities := m_qualities b;
      m_channelHistory := m_channelHistory b;
      m_alpha := m_alpha b;
      m_beta := m_beta b;
      m_lambda := m_lambda b;
      m_lambdaG := m_lambdaG b;
      m_type := m_type b;
      m_currentChannel :=
        Z.to_nat (wrap32 (Z.of_nat (m_currentChannel b) + 1)
                  mod Z.of_nat (m_K b)) |}).

(** The [for] loop of [SelectChannelUCB] from index [i] on, with its early
    [return i]. *)
Fixpoint UCB_loop (b : BanditAlgorithm) (indices : list nat)
    (maxUCB : score) (bestChannel : nat) : nat :=
  match indices with
  | [] => bestChannel
  | i :: rest =>
      if (T_at b i =? 0)%Z then i
      else
        let B_i :=
          R_at b i + m_alpha b * sqrt (ln (IZR (m_n b)) / IZR (T_at b i)) in
        if score_gt (Fin B_i) maxUCB
        then UCB_loop b rest (Fin B_i) i
        else UCB_loop b rest maxUCB bestChannel
  end.

Definition SelectChannelUCB (b : BanditAlgorithm) : nat :=
  if (m_n b <=? Z.of_nat (m_K b))%Z then Z.to_nat (wrap32 (m_n b - 1))
  else UCB_loop b (seq 0 (m_K b)) NegInf 0.

Definition CalculateGmax (b : BanditAlgorithm) : R :=
  fold_left
    (fun maxQuality i =>
       if Rlt_dec maxQuality (G_at b i) then G_at b i else maxQuality)
    (seq 0 (m_K b)) 0.

Fixpoint QoCA_loop (b : BanditAlgorithm) (G_max : R) (indices : list nat)
    (maxScore : score) (bestChannel : nat) : nat :=
  match indices with
  | [] => bestChannel
  | i :: rest =>
      if (T_at b i =? 0)%Z then i
      else
        let Q_i :=
          if Rlt_dec 0 G_max
          then m_beta b * (G_at b i / G_max - 1) * ln (IZR (m_n b))
               / IZR (T_at b i)
          else 0 in
        let B_i :=
          R_at b i + Q_i
          + m_alpha b * sqrt (ln (IZR (m_n b)) / IZR (T_at b i)) in
        if score_gt (Fin B_i) maxScore
        then QoCA_loop b G_max rest (Fin B_i) i
        else QoCA_loop b G_max rest maxScore bestChannel
  end.

Definition SelectChannelQoCA (b : BanditAlgorithm) : nat :=
  if (m_n b <=? Z.of_nat (m_K b))%Z then Z.to_nat (wrap32 (m_n b - 1))
  else QoCA_loop b (CalculateGmax b) (seq 0 (m_K b)) NegInf 0.

(** The discounted statistics [SelectChannelDQoCA] recomputes from the
    history: the position [j] of an entry weighs [lambda ^ (size - 1 - j)]. *)
Definition history_positions (b : BanditAlgorithm) : list (nat * nat) :=
  combine (seq 0 (List.length (m_channelHistory b))) (m_channelHistory b).

Definition discounted_count (lambda : R) (b : BanditAlgorithm) (i : nat) : R :=
  let size := List.length (m_channelHistory b) in
  fold_left
    (fun acc (jc : nat * nat) =>
       if Nat.eqb (snd jc) i then acc + lambda ^ (size - 1 - fst jc) else acc)
    (history_positions b) 0.

Definition N_i (b : BanditAlgorithm) (i : nat) : R :=
  discounted_count (m_lambda b) b i.

Definition N_g_i (b : BanditAlgorithm) (i : nat) : R :=
  discounted_count (m_lambdaG b) b i.

Definition W_n (b : BanditAlgorithm) : R :=
  fold_left (fun acc i => acc + N_i b i) (seq 0 (m_K b)) 0.

(** The sums [sum_rewards], [sum_qualities] and the cursor [reward_idx] of
    the second pass over the history. *)
Definition discounted_sums (b : BanditAlgorithm) (i : nat) : R * R * nat :=
  let size := List.length (m_channelHistory b) in
  let rewards := nth i (m_rewards b) [] in
  let qualities := nth i (m_qualities b) [] in
  fold_left
    (fun (acc : R * R * nat) (jc : nat * nat) =>
       let '(sum_rewards, sum_qualities, reward_idx) := acc in
       if Nat.eqb (snd jc) i && (reward_idx <? List.length rewards)%nat then
         let discount_r := m_lambda b ^ (size - 1 - fst jc) in
         let discount_g := m_lambdaG b ^ (size - 1 - fst jc) in
         (sum_rewards + discount_r * nth reward_idx rewards 0,
          sum_qualities + discount_g * nth reward_idx qualities 0,
          S reward_idx)
       else acc)
    (history_positions b) (0, 0, O).

Definition has_discounted_mean (b : BanditAlgorithm) (i : nat) : bool :=
  (if Rlt_dec 0 (N_i b i) then true else false)
  && (0 <? List.length (nth i (m_rewards b) []))%nat.

Definition R_i_disc (b : BanditAlgorithm) (i : nat) : R :=
  if has_discounted_mean b i
  then fst (fst (discounted_sums b i)) / N_i b i
  else 0.

Definition G_i_disc (b : BanditAlgorithm) (i : nat) : R :=
  if has_discounted_mean b i
  then if Rlt_dec 0 (N_g_i b i)
       then snd (fst (discounted_sums b i)) / N_g_i b i
       else 0
  else 0.

Definition G_max_disc (b : BanditAlgorithm) : R :=
  fold_left
    (fun G_max i =>
       if Rlt_dec G_max (G_i_disc b i) then G_i_disc b i else G_max)
    (seq 0 (m_K b)) 0.

Fixpoint DQoCA_loop (b : BanditAlgorithm) (indices : list nat)
    (maxScore : score) (bestChannel : nat) : nat :=
  match indices with
  | [] => bestChannel
  | i :: rest =>
      if Req_dec_T (N_i b i) 0 then i
      else
        let Q_i :=
          if Rlt_dec 0 (G_max_disc b)
          then m_beta b * (G_i_disc b i / G_max_disc b - 1) * ln (W_n b)
               / N_i b i
          else 0 in
        let B_i :=
          R_i_disc b i + Q_i + m_alpha b * sqrt (ln (W_n b) / N_i b i) in
        if score_gt (Fin B_i) maxScore
        then DQoCA_loop b rest (Fin B_i) i
        else DQoCA_loop b rest maxScore bestChannel
  end.

Definition SelectChannelDQoCA (b : BanditAlgorithm) : nat :=
  if (m_n b <=? Z.of_nat (m_K b))%Z then Z.to_nat (wrap32 (m_n b - 1))
  else DQoCA_loop b (seq 0 (m_K b)) NegInf 0.

(** [SelectChannel]: the channel and the state after the call. *)
Definition SelectChannel (b : BanditAlgorithm) : nat * BanditAlgorithm :=
  let b1 := at_packet b (wrap32 (m_n b + 1)) in
  match m_type b1 with
  | UNIFORM => SelectChannelUniform b1
  | UCB => (SelectChannelUCB b1, b1)
  | QOC_A => (SelectChannelQoCA b1, b1)
  | DQOC_A => (SelectChannelDQoCA b1, b1)
  end.

(** [UpdateReward], with [UpdateEmpiricalMeans] inlined at its end. *)
Definition UpdateReward (b : BanditAlgorithm) (channel : nat)
    (reward quality : R) : BanditAlgorithm :=
  let T := list_set (m_T_i b) channel (wrap32 (T_at b channel + 1)) in
  let rewards :=
    list_set (m_rewards b) channel (nth channel (m_rewards b) [] ++ [reward]) in
  let qualities :=
    list_set (m_qualities b) channel
             (nth channel (m_qualities b) [] ++ [quality]) in
  let T_c := nth channel T 0%Z in
  let sum_rewards := fold_left Rplus (nth channel rewards []) 0 in
  let sum_qualities := fold_left Rplus (nth channel qualities []) 0 in
  {| m_K := m_K b;
     m_n := m_n b;
     m_T_i := T;
     m_R_i :=
       list_set (m_R_i b) channel
                (if (0 <? T_c)%Z then sum_rewards / IZR T_c else 0);
     m_G_i :=
       list_set (m_G_i b) channel
                (if (0 <? T_c)%Z then sum_qualities / IZR T_c else 0);
     m_rewards := rewards;
     m_qualities := qualities;
     m_channelHistory := m_channelHistory b ++ [channel];
     m_alpha := m_alpha b;
     m_beta := m_beta b;
     m_lambda := m_lambda b;
     m_lambdaG := m_lambdaG b;
     m_type := m_type b;
     m_currentChannel := m_currentChannel b |}.

(** The packet loop of [RunSimulation] for one algorithm: select, observe
    the reward and the quality of the selected channel, update. *)
Fixpoint play (b : BanditAlgorithm) (observations : list (R * R)) : list nat :=
  match observations with
  | [] => []
  | (reward, quality) :: rest =>
      let sel := SelectChannel b in
      fst sel :: play (UpdateReward (snd sel) (fst sel) reward quality) rest
  end.

(** The statistics after a history of [UpdateReward] calls, each a
    channel with the reward and the quality observed on it. *)
Definition after_history (b : BanditAlgorithm)
    (events : list (nat * R * R)) : BanditAlgorithm :=
  fold_left
    (fun st (ev : nat * R * R) =>
       UpdateReward st (fst (fst ev)) (snd (fst ev)) (snd ev))
    events b.

(** The statistics of a [BanditAlgorithm] are consistent with its history:
    what every sequence of fewer than [2^32] calls of [UpdateReward] on
    channels below [m_K] establishes from a fresh object. *)
Definition occurrences (i : nat) (history : list nat) : nat :=
  count_occ Nat.eq_dec history i.

Record consistent (b : BanditAlgorithm) : Prop := {
  cons_T_len : List.length (m_T_i b) = m_K b;
  cons_R_len : List.length (m_R_i b) = m_K b;
  cons_G_len : List.length (m_G_i b) = m_K b;
  cons_rewards_len : List.length (m_rewards b) = m_K b;
  cons_qualities_len : List.length (m_qualities b) = m_K b;
  cons_history : forall c, In c (m_channelHistory b) -> (c < m_K b)%nat;
  cons_history_len :
    (Z.of_nat (List.length (m_channelHistory b)) < 2 ^ 32)%Z;
  cons_T : forall i, (i < m_K b)%nat ->
    T_at b i = Z.of_nat (occurrences i (m_channelHistory b));
  cons_rewards : forall i, (i < m_K b)%nat ->
    List.length (nth i (m_rewards b) [])
    = occurrences i (m_channelHistory b);
  cons_qualities : forall i, (i < m_K b)%nat ->
    List.length (nth i (m_qualities b) [])
    = occurrences i (m_channelHistory b);
  cons_R : forall i, (i < m_K b)%nat ->
    R_at b i = if (0 <? T_at b i)%Z
               then Rsum (nth i (m_rewards b) []) / IZR (T_at b i)
               else 0;
  cons_G : forall i, (i < m_K b)%nat ->
    G_at b i = if (0 <? T_at b i)%Z
               then Rsum (nth i (m_qualities b) []) / IZR (T_at b i)
               else 0
}.

(** The rewards and the qualities a history of [UpdateReward] calls
    observed on channel [i], in order. *)
Definition rewards_on (i : nat) (events : list (nat * R * R)) : list R :=
  map (fun ev => snd (fst ev))
      (filter (fun ev => Nat.eqb (fst (fst ev)) i) events).

Definition qualities_on (i : nat) (events : list (nat * R * R)) : list R :=
  map (fun ev => snd ev)
      (filter (fun ev => Nat.eqb (fst (fst ev)) i) events).

(** A history on the eight channels of the program, one update per
    channel as the forced phase produces them: channel 0 succeeded with a
    weak quality sample, channel 1 failed with a strong one, the others
    failed with weak ones.  Packet 9 is the first one scored. *)
Definition lag_events : list (nat * R * R) :=
  [(0%nat, 1, 89); (1%nat, 0, 189); (2%nat, 0, 89); (3%nat, 0, 89);
   (4%nat, 0, 89); (5%nat, 0, 89); (6%nat, 0, 89); (7%nat, 0, 89)].

Definition lag_state : BanditAlgorithm :=
  at_packet
    (after_history (BanditAlgorithm_new 8 DQOC_A 1.9 0.9 1 1) lag_events) 9.

End QoC.

(** ** tow-lorawan-simulation.cc *)

Module ToW.

Local Open Scope Q_scope.

(** Channels and spreading factors are [uint32_t] values used as vector
    indices, read as [nat]; the counters are [uint32_t]. *)
Record DeviceState : Type := {
  Q_ch : list Q;
  Q_sf : list Q;
  N_ch : list Z;
  N_sf : list Z;
  R_ch : list Z;
  R_sf : list Z;
  totalTransmissions : Z;
  successfulTransmissions : Z;
  totalEnergyConsumed : Q;
  totalBitsTransmitted : Q;
  channelHistory : list nat;
  sfHistory : list nat;
  lastSelection : nat * nat
}.

Record ToWAlgorithm : Type := {
  m_deviceStates : list (Z * DeviceState);
  m_numChannels : nat;
  m_numSF : nat;
  m_alpha : Q;
  m_beta : Q;
  m_A : Q
}.

(** The state that [SelectChannelAndSF] installs for a device it sees for
    the first time. *)
Definition DeviceState_new (numChannels numSF : nat) : DeviceState :=
  {| Q_ch := repeat 0 numChannels;
     Q_sf := repeat 0 numSF;
     N_ch := repeat 0%Z numChannels;
     N_sf := repeat 0%Z numSF;
     R_ch := repeat 0%Z numChannels;
     R_sf := repeat 0%Z numSF;
     totalTransmissions := 0;
     successfulTransmissions := 0;
     totalEnergyConsumed := 0;
     totalBitsTransmitted := 0;
     channelHistory := [];
     sfHistory := [];
     lastSelection := (O, O) |}.

(** [m_deviceStates.find (deviceId)]. *)
Fixpoint find_device (m : list (Z * DeviceState)) (deviceId : Z)
  : option DeviceState :=
  match m with
  | [] => None
  | (k, s) :: m' => if Z.eqb k deviceId then Some s else find_device m' deviceId
  end.

(** The success rates [CalculatePenalty] collects: [R[i] / N[i]], and 0.0
    for an arm whose count is 0. *)
Definition probabilities (N R : list Z) : list Q :=
  map (fun i =>
         if (0 <? nth i N 0)%Z
         then inject_Z (nth i R 0%Z) / inject_Z (nth i N 0%Z)
         else 0)
      (seq 0 (List.length N)).

(** [std::sort (rbegin, rend)]: the values in decreasing order. *)
Fixpoint insert_desc (x : Q) (l : list Q) : list Q :=
  match l with
  | [] => [x]
  | y :: t => if Qle_bool y x then x :: l else y :: insert_desc x t
  end.

Definition sort_desc (l : list Q) : list Q := fold_right insert_desc [] l.

Definition CalculatePenalty (N R : list Z) : Q :=
  let probs := probabilities N R in
  if (List.length probs <? 2)%nat then 0.1
  else
    let sorted := sort_desc probs in
    let p1st := nth 0 sorted 0 in
    let p2nd := nth 1 sorted 0 in
    if Qeq_bool p1st p2nd then 0.1
    else (p1st + p2nd) / 2 - (p1st - p2nd).

(** The counters with the forgetting factor, [N[i] = 1 + beta * N[i]] for
    the selected arm and [N[i] = beta * N[i]] for the others: the double is
    converted back to [uint32_t]. *)
Definition decay_counts (beta : Q) (n : nat) (selected : nat) (N : list Z)
  : list Z :=
  fold_left
    (fun acc i =>
       if Nat.eqb i selected
       then list_set acc i (wrap32 (Qtrunc (1 + beta * inject_Z (nth i acc 0%Z))))
       else list_set acc i (wrap32 (Qtrunc (beta * inject_Z (nth i acc 0%Z)))))
    (seq 0 n) N.

(** [UpdateReward] on the state of the device. *)
Definition UpdateReward_state (a : ToWAlgorithm) (state : DeviceState)
    (channel sf : nat) (success : bool) : DeviceState :=
  let rewarded : list Q * list Q * list Z * list Z :=
    if success then
      (list_set (Q_ch state) channel (m_alpha a * nth channel (Q_ch state) 0 + 1),
       list_set (Q_sf state) sf (m_alpha a * nth sf (Q_sf state) 0 + 1),
       list_set (R_ch state) channel (wrap32 (nth channel (R_ch state) 0%Z + 1)),
       list_set (R_sf state) sf (wrap32 (nth sf (R_sf state) 0%Z + 1)))
    else
      let penalty_ch := CalculatePenalty (N_ch state) (R_ch state) in
      let penalty_sf := CalculatePenalty (N_sf state) (R_sf state) in
      (list_set (Q_ch state) channel
                (m_alpha a * nth channel (Q_ch state) 0 - penalty_ch),
       list_set (Q_sf state) sf (m_alpha a * nth sf (Q_sf state) 0 - penalty_sf),
       R_ch state,
       R_sf state) in
  {| Q_ch := fst (fst (fst rewarded));
     Q_sf := snd (fst (fst rewarded));
     N_ch := decay_counts (m_beta a) (m_numChannels a) channel (N_ch state);
     N_sf := decay_counts (m_beta a) (m_numSF a) sf (N_sf state);
     R_ch := snd (fst rewarded);
     R_sf := snd rewarded;
     totalTransmissions := totalTransmissions state;
     successfulTransmissions := successfulTransmissions state;
     totalEnergyConsumed := totalEnergyConsumed state;
     totalBitsTransmitted := totalBitsTransmitted state;
     channelHistory := channelHistory state;
     sfHistory := sfHistory state;
     lastSelection := lastSelection state |}.

(** [GetPDR]. *)
Definition GetPDR (a : ToWAlgorithm) (deviceId : Z) : option Q :=
  match find_device (m_deviceStates a) deviceId with
  | None => Some 0
  | Some s =>
      if (totalTransmissions s =? 0)%Z then Some 0
      else fdiv (inject_Z (successfulTransmissions s))
                (inject_Z (totalTransmissions s))
  end.

(** [GetEnergyEfficiency]. *)
Definition GetEnergyEfficiency (a : ToWAlgorithm) (deviceId : Z) : option Q :=
  match find_device (m_deviceStates a) deviceId with
  | None => Some 0
  | Some s =>
      if Qle_bool (totalEnergyConsumed s) 0 then Some 0
      else
        match fdiv (totalEnergyConsumed s) 1000 with
        | None => None
        | Some energyJ => fdiv (totalBitsTransmitted s) energyJ
        end
  end.

(** [LoRaEnergyParams::timeOnAir]: the time on air in ms by bandwidth in
    kHz and spreading factor. *)
Definition timeOnAir : list (Z * Z * Q) :=
  [(125%Z, 7%Z, 77); (125%Z, 8%Z, 133); (125%Z, 9%Z, 226);
   (125%Z, 10%Z, 411); (125%Z, 11%Z, 739); (125%Z, 12%Z, 1397)].

Fixpoint timeOnAir_find (m : list (Z * Z * Q)) (bandwidth sf : Z) : option Q :=
  match m with
  | [] => None
  | (bw', sf', v) :: m' =>
      if Z.eqb bw' bandwidth && Z.eqb sf' sf then Some v
      else timeOnAir_find m' bandwidth sf
  end.

Definition TX_CURRENT_MA : Q := 14.0.
Definition VOLTAGE_V : Q := 3.3.
Definition PROCESSING_POWER_MW : Q := 5.0.

(** [CalculateTransmissionEnergy], in mJ; [sf] is the index 0..5 of the
    spreading factor and [payloadBytes] is not used, as in the source. *)
Definition CalculateTransmissionEnergy (sf payloadBytes bandwidth : Z) : Q :=
  let timeOnAirMs :=
    match timeOnAir_find timeOnAir bandwidth (wrap32 (sf + 7)) with
    | Some v => v
    | None => 50.0 * Qpower 2 sf
    end in
  let txPowerMw := TX_CURRENT_MA * VOLTAGE_V in
  let processingPowerMw := PROCESSING_POWER_MW in
  let totalEnergyMj := (txPowerMw + processingPowerMw) * (timeOnAirMs / 1000.0) in
  totalEnergyMj.

(** [RecordTransmission] on the state of the device; the energy is
    computed with the default bandwidth of 125 kHz. *)
Definition RecordTransmission_state (state : DeviceState)
    (channel sf : nat) (success : bool) (payloadBytes : Z) : DeviceState :=
  let energyConsumed :=
    CalculateTransmissionEnergy (Z.of_nat sf) payloadBytes 125 in
  {| Q_ch := Q_ch state;
     Q_sf := Q_sf state;
     N_ch := N_ch state;
     N_sf := N_sf state;
     R_ch := R_ch state;
     R_sf := R_sf state;
     totalTransmissions := wrap32 (totalTransmissions state + 1);
     successfulTransmissions :=
       if success then wrap32 (successfulTransmissions state + 1)
       else successfulTransmissions state;
     totalEnergyConsumed := totalEnergyConsumed state + energyConsumed;
     totalBitsTransmitted :=
       if success
       then totalBitsTransmitted state + inject_Z payloadBytes * 8.0
       else totalBitsTransmitted state;
     channelHistory := channelHistory state ++ [channel];
     sfHistory := sfHistory state ++ [sf];
     lastSelection := lastSelection state |}.

(** The state of a device after a sequence of recorded transmissions
    [(channel, sf, success, payloadBytes)]. *)
Definition after_transmissions (state : DeviceState)
    (txs : list (nat * nat * bool * Z)) : DeviceState :=
  fold_left
    (fun st (tx : nat * nat * bool * Z) =>
       RecordTransmission_state st (fst (fst (fst tx))) (snd (fst (fst tx)))
                                (snd (fst tx)) (snd tx))
    txs state.

(** Whether a recorded transmission succeeded. *)
Definition is_success (tx : nat * nat * bool * Z) : bool := snd (fst tx).

(** *** [UCB1TunedAlgorithm], the comparison algorithm of the program *)

Record ArmStats : Type := {
  mean : Q;
  variance : Q;
  pulls : Z;
  sumRewards : Q;
  sumSquaredRewards : Q
}.

(** The statistics [SelectChannelAndSF] installs for each arm of a new
    device. *)
Definition ArmStats_new : ArmStats :=
  {| mean := 0; variance := 0; pulls := 0; sumRewards := 0;
     sumSquaredRewards := 0 |}.

(** The update of the statistics of one arm in
    [UCB1TunedAlgorithm::UpdateReward]; [None] when the counter has
    wrapped to 0 and the mean is a division by zero. *)
Definition UpdateArmStats (s : ArmStats) (success : bool) : option ArmStats :=
  let reward := if success then 1 else 0 in
  let pulls' := wrap32 (pulls s + 1) in
  let sumRewards' := sumRewards s + reward in
  let sumSquaredRewards' := sumSquaredRewards s + reward * reward in
  match fdiv sumRewards' (inject_Z pulls') with
  | None => None
  | Some mean' =>
      Some {| mean := mean';
              variance :=
                if (1 <? pulls')%Z
                then (sumSquaredRewards' - inject_Z pulls' * mean' * mean')
                     / inject_Z (wrap32 (pulls' - 1))
                else variance s;
              pulls := pulls';
              sumRewards := sumRewards';
              sumSquaredRewards := sumSquaredRewards' |}
  end.

(** The statistics of an arm after a sequence of outcomes. *)
Fixpoint after_rewards (s : ArmStats) (outcomes : list bool)
  : option ArmStats :=
  match outcomes with
  | [] => Some s
  | success :: rest =>
      match UpdateArmStats s success with
      | None => None
      | Some s' => after_rewards s' rest
      end
  end.

(** The algorithm object of the program: five channels, three spreading
    factors, the constructor's parameters. *)
Definition program_algorithm : ToWAlgorithm :=
  {| m_deviceStates := [];
     m_numChannels := 5;
     m_numSF := 3;
     m_alpha := 0.9;
     m_beta := 0.9;
     m_A := 0.5 |}.

(** The state of a device after a first transmission on channel 0 and
    spreading factor 0 that succeeded. *)
Definition after_one_success : DeviceState :=
  UpdateReward_state program_algorithm (DeviceState_new 5 3) 0 0 true.

End ToW.

(** ** lorawan_qoca_simulation.cc: the channel model *)

Module QoCChannel.

Local Open Scope R_scope.

(** [ChannelConditionModel], without its random generator: the value its
    normal distribution gives is the argument [shadowing] and the value
    its uniform distribution gives is the argument [u]. *)
Record ChannelConditionModel : Type := {
  m_channelESP : list R;
  m_K : nat;
  m_spreadingFactor : Z;
  m_isStationary : bool;
  m_mobilityPercentage : R
}.

(** The success probability [IsTransmissionSuccessful] computes for a
    channel below [m_K]. *)
Definition successProbability (m : ChannelConditionModel) (channel : nat)
    (shadowing : R) : R :=
  let mobilityFading := m_mobilityPercentage m * 0.1 in
  let esp_dBm := nth channel (m_channelESP m) 0 + shadowing - mobilityFading in
  let threshold := Ropp 120.0 - (IZR (m_spreadingFactor m) - 7) * 2.5 in
  let successProb := 1.0 / (1.0 + exp (- (esp_dBm - threshold) / 2.5)) in
  let successProb :=
    if m_isStationary m then
      let mobilityPenalty := m_mobilityPercentage m * 0.002 in
      (0.4 + 0.6 * successProb) * (1.0 - mobilityPenalty)
    else
      let mobilityPenalty := m_mobilityPercentage m * 0.003 in
      (0.2 + 0.8 * successProb) * (1.0 - mobilityPenalty) in
  Rmax 0.0 (Rmin 1.0 successProb).

Definition IsTransmissionSuccessful (m : ChannelConditionModel) (channel : nat)
    (shadowing u : R) : bool :=
  if (m_K m <=? channel)%nat then false
  else if Rlt_dec u (successProbability m channel shadowing) then true
       else false.

(** [GetChannelQuality]: the ESP with shadowing, in linear scale. *)
Definition GetChannelQuality (m : ChannelConditionModel) (channel : nat)
    (shadowing : R) : R :=
  if (m_K m <=? channel)%nat then 0.0
  else
    let esp_dBm := nth channel (m_channelESP m) 0 + shadowing in
    let esp_linear := Rpower 10.0 (esp_dBm / 10.0) in
    esp_linear.

End QoCChannel.

(** ** The specification's time-on-air formula (section 4.1), in its words *)

Module Spec.

Local Open Scope Q_scope.

Definition symbolDuration (SF : Z) (BW : Q) : Q := Qpower 2 SF / BW.

Definition preambleDuration (SF : Z) (BW : Q) : Q :=
  (8 + 4.25) * symbolDuration SF BW.

Definition payloadSymbolCount (SF : Z) (PS : Z) : Q :=
  8 + Qmax 0
        (inject_Z
           (Qceiling
              ((8 * inject_Z PS - 4 * inject_Z SF + 28 + 16 * 1 - 20 * 0)
               / (4 * (inject_Z SF - 2 * 0))))
         * (1 + 4)).

Definition timeOnAir (SF : Z) (BW : Q) (PS : Z) : Q :=
  preambleDuration SF BW + payloadSymbolCount SF PS * symbolDuration SF BW.

(** The ladder property of ADR-Lite (section 8): along the indices [idxs]
    used for successive transmissions with the given outcomes, a success is
    followed by an index that is not larger and a failure by one that is
    not smaller. *)
Fixpoint ladder_moves (idxs : list Z) (outcomes : list bool) : Prop :=
  match idxs, outcomes with
  | i :: ((j :: _) as rest), o :: os =>
      (if o : bool then (j <= i)%Z else (i <= j)%Z) /\ ladder_moves rest os
  | _, _ => True
  end.

End Spec.

(* ================================================================= *)
(** * Part II: properties *)
(* ================================================================= *)

Section TimeOnAir.

Local Open Scope Q_scope.

Lemma int_shift_is_power : forall SF : Z,
  (0 <= SF < 31)%Z -> wrap_int (Z.shiftl 1 SF) = (2 ^ SF)%Z.
Proof.
  intros SF HSF. rewrite Z.shiftl_1_l. unfold wrap_int.
  assert (0 < 2 ^ SF < 2 ^ 31)%Z.
  { split; [apply Z.pow_pos_nonneg; lia |]. apply Z.pow_lt_mono_r; lia. }
  rewrite Z.mod_small; lia.
Qed.

(** C1 (amended): for every spreading factor in 7..12, bandwidth [BW > 0]
    and payload size, [CalculateToA] of the D-LoRa program returns, in
    seconds, [preambleDuration + payloadSymbolCount * symbolDuration] with
    [symbolDuration = 2^SF / BW], [preambleDuration = (8 + 4.25) *
    symbolDuration] and the payload symbol count of the specification (CRC
    on, the header term at 0, low-data-rate optimisation off, coding rate
    4/5), and [CalculateToA] of the QoC program returns 1000 times that
    closed form, the time on air in milliseconds; at SF 7, 125 kHz and 20
    bytes the former is the closed form, 0.056576 s, and the latter
    56.576 ms. *)
Theorem CalculateToA_closed_form :
  forall (SF : Z) (BW : Q) (PS : Z),
    (7 <= SF <= 12)%Z -> 0 < BW ->
    DLoRa.CalculateToA SF BW PS
      == Spec.preambleDuration SF BW
         + Spec.payloadSymbolCount SF PS * Spec.symbolDuration SF BW
    /\ DLoRa.CalculateToA 7 125000 DLoRa.PAYLOAD_SIZE == Spec.timeOnAir 7 125000 20
    /\ DLoRa.CalculateToA 7 125000 20 == 0.056576
    /\ QoC.CalculateToA PS SF BW
       == 1000 * (Spec.preambleDuration SF BW
                  + Spec.payloadSymbolCount SF PS * Spec.symbolDuration SF BW)
    /\ QoC.CalculateToA 20 7 125000 == 1000 * Spec.timeOnAir 7 125000 20
    /\ QoC.CalculateToA 20 7 125000 == 56.576.
Proof.
  intros SF BW PS HSF HBW. split; [| split; [| split; [| split; [| split]]]].
  - unfold DLoRa.CalculateToA, Spec.preambleDuration, Spec.payloadSymbolCount,
      Spec.symbolDuration.
    cbv zeta.
    rewrite (Q.max_comm _ 0).
    reflexivity.
  - vm_compute. reflexivity.
  - vm_compute. reflexivity.
  - unfold QoC.CalculateToA, Spec.preambleDuration, Spec.payloadSymbolCount,
      Spec.symbolDuration.
    cbv zeta.
    rewrite int_shift_is_power by lia.
    rewrite (Zpower_Qpower 2 SF) by lia.
    rewrite inject_Z_mult.
    set (c := Qmax 0 _).
    change (inject_Z 2) with 2. change (inject_Z 4) with 4.
    field.
    intro Hz. rewrite Hz in HBW. exact (Qlt_irrefl 0 HBW).
  - vm_compute. reflexivity.
  - vm_compute. reflexivity.
Qed.

Lemma CalculateToA_closed_form_witness :
  (7 <= 7 <= 12)%Z /\ 0 < 125000
  /\ DLoRa.CalculateToA 7 125000 20 == 0.056576.
Proof.
  split; [lia |]. split; [reflexivity |].
  apply (CalculateToA_closed_form 7 125000 20); [lia | reflexivity].
Defined.

(** C1, counterexample: at SF 7, 125 kHz and 20 bytes the closed form of
    the specification is 0.056576 and [CalculateToA] of the QoC program
    returns 56.576. *)
Lemma QoC_CalculateToA_is_not_the_closed_form :
  Spec.timeOnAir 7 125000 20 == 0.056576
  /\ QoC.CalculateToA 20 7 125000 == 56.576
  /\ ~ QoC.CalculateToA 20 7 125000 == Spec.timeOnAir 7 125000 20.
Proof.
  split; [vm_compute; reflexivity |].
  split; [vm_compute; reflexivity |].
  vm_compute. discriminate.
Qed.

(** X12: the two programs agree on the time on air.  For a spreading
    factor from 0 to 30 and a positive bandwidth, [CalculateToA] of the
    QoC program, in milliseconds, is 1000 times [CalculateToA] of the
    D-LoRa program, in seconds, although the former computes the symbol
    duration with an integer shift and the latter with a power. *)
Lemma QoC_CalculateToA_milliseconds :
  forall (SF : Z) (BW : Q) (PS : Z),
    (0 <= SF < 31)%Z -> 0 < BW ->
    QoC.CalculateToA PS SF BW == 1000 * DLoRa.CalculateToA SF BW PS.
Proof.
  intros SF BW PS HSF HBW.
  unfold QoC.CalculateToA, DLoRa.CalculateToA. cbv zeta.
  assert (Hsh : wrap_int (Z.shiftl 1 SF) = (2 ^ SF)%Z).
  { rewrite Z.shiftl_1_l. unfold wrap_int.
    assert (0 < 2 ^ SF < 2 ^ 31)%Z.
    { split; [apply Z.pow_pos_nonneg; lia |].
      apply Z.pow_lt_mono_r; lia. }
    rewrite Z.mod_small; lia. }
  rewrite Hsh.
  rewrite (Zpower_Qpower 2 SF) by lia.
  rewrite inject_Z_mult.
  rewrite (Q.max_comm 0).
  set (c := Qmax _ 0).
  change (inject_Z 2) with 2. change (inject_Z 4) with 4.
  field.
  intro Hz. rewrite Hz in HBW. exact (Qlt_irrefl 0 HBW).
Qed.

End TimeOnAir.
Import DLoRa.
Local Open Scope R_scope.

Section BanditFacts.
Variable T : Type.
Variable T_eq_dec : forall x y : T, {x = y} + {x <> y}.


Lemma smap_get_set_same : forall (V : Type) (d : V) (m : smap T V) k v,
  smap_get T_eq_dec d (smap_set T_eq_dec m k v) k = v.
Proof.
  intros V d m k v. induction m as [| [k' v'] m IH]; simpl.
  - destruct (T_eq_dec k k); congruence.
  - destruct (T_eq_dec k k') as [E | NE]; simpl.
    + destruct (T_eq_dec k k); congruence.
    + destruct (T_eq_dec k k'); congruence.
Qed.

Lemma smap_get_set_other : forall (V : Type) (d : V) (m : smap T V) k k' v,
  k' <> k ->
  smap_get T_eq_dec d (smap_set T_eq_dec m k v) k'
  = smap_get T_eq_dec d m k'.
Proof.
  intros V d m k k' v NE. induction m as [| [k0 v0] m IH]; simpl.
  - destruct (T_eq_dec k' k); congruence.
  - destruct (T_eq_dec k k0) as [E | NE0]; simpl.
    + subst k0. destruct (T_eq_dec k' k); congruence.
    + destruct (T_eq_dec k' k0); congruence.
Qed.

(** The accumulator loop of [SelectArm] is a strict-maximum scan: either no
    arm beat the initial bound, or the result is the first arm of maximal
    score. *)
Lemma SelectArm_scan : forall st total (l : list T) (m : R) (a : T),
  let f := ucbValue T_eq_dec st total in
  let res := fold_left (SelectArm_step T_eq_dec st total) l (m, a) in
  (res = (m, a) /\ forall b, In b l -> f b <= m)
  \/ (exists l1 l2, l = l1 ++ snd res :: l2 /\ fst res = f (snd res)
        /\ m < f (snd res)
        /\ (forall b, In b l1 -> f b < f (snd res))
        /\ (forall b, In b l2 -> f b <= f (snd res))).
Proof.
  intros st total l. induction l as [| x l IH]; intros m a f res.
  - left. split; [reflexivity | intros b []].
  - subst res. cbn [fold_left].
    assert (Hstep : SelectArm_step T_eq_dec st total (m, a) x
                    = if Rlt_dec m (f x) then (f x, x) else (m, a))
      by reflexivity.
    rewrite Hstep. clear Hstep.
    destruct (Rlt_dec m (f x)) as [Hlt | Hge].
    + destruct (IH (f x) x) as [[Heq Hall] | (l1 & l2 & Hl & Hfst & Hm & H1 & H2)].
      * right. rewrite Heq. simpl. exists [], l.
        split; [reflexivity |]. split; [reflexivity |]. split; [exact Hlt |].
        split; [intros b [] | exact Hall].
      * right. fold f in Hfst, Hm, H1, H2.
        exists (x :: l1), l2.
        split; [simpl; congruence |]. split; [exact Hfst |].
        split; [lra |]. split; [| exact H2].
        intros b [<- | Hb]; auto.
    + destruct (IH m a) as [[Heq Hall] | (l1 & l2 & Hl & Hfst & Hm & H1 & H2)].
      * left. split; [exact Heq |]. intros b [<- | Hb]; auto. lra.
      * right. fold f in Hfst, Hm, H1, H2.
        exists (x :: l1), l2.
        split; [simpl; congruence |]. split; [exact Hfst |].
        split; [exact Hm |]. split; [| exact H2].
        intros b [<- | Hb]; auto. lra.
Qed.


Lemma meanOf_UpdateArm_same : forall st a r,
  meanOf T_eq_dec (UpdateArm T_eq_dec st a r) a
  = meanOf T_eq_dec st a
    + (r - meanOf T_eq_dec st a)
      / IZR (wrap32 (countOf T_eq_dec st a + 1)).
Proof. intros. unfold meanOf, UpdateArm. simpl. apply smap_get_set_same. Qed.

Lemma meanOf_UpdateArm_other : forall st a r b,
  b <> a ->
  meanOf T_eq_dec (UpdateArm T_eq_dec st a r) b = meanOf T_eq_dec st b.
Proof.
  intros. unfold meanOf, UpdateArm. simpl. now apply smap_get_set_other.
Qed.

Lemma countOf_UpdateArm_same : forall st a r,
  countOf T_eq_dec (UpdateArm T_eq_dec st a r) a
  = wrap32 (countOf T_eq_dec st a + 1).
Proof. intros. unfold countOf, UpdateArm. simpl. apply smap_get_set_same. Qed.

Lemma countOf_UpdateArm_other : forall st a r b,
  b <> a ->
  countOf T_eq_dec (UpdateArm T_eq_dec st a r) b = countOf T_eq_dec st b.
Proof.
  intros. unfold countOf, UpdateArm. simpl. now apply smap_get_set_other.
Qed.

Lemma init_arms_zero : forall armSet a,
  meanOf T_eq_dec (init_arms T_eq_dec armSet) a = 0
  /\ countOf T_eq_dec (init_arms T_eq_dec armSet) a = 0%Z.
Proof.
  intros armSet a. unfold init_arms.
  set (st0 := {| expectedRewards := []; numSelections := [] |}).
  assert (H0 : meanOf T_eq_dec st0 a = 0 /\ countOf T_eq_dec st0 a = 0%Z)
    by (split; reflexivity).
  revert H0. generalize st0. clear st0.
  induction armSet as [| x l IH]; intros st [Hm Hc]; simpl.
  - split; assumption.
  - apply IH. unfold meanOf, countOf in *. simpl.
    destruct (T_eq_dec a x) as [-> | NE].
    + rewrite !smap_get_set_same. split; reflexivity.
    + rewrite !smap_get_set_other by assumption. split; assumption.
Qed.

Lemma wrap32_range : forall z, (0 <= wrap32 z < 2 ^ 32)%Z.
Proof. intro z. unfold wrap32. apply Z.mod_pos_bound. lia. Qed.

Lemma wrap32_small : forall z, (0 <= z < 2 ^ 32)%Z -> wrap32 z = z.
Proof. intros z H. unfold wrap32. now apply Z.mod_small. Qed.

Lemma wrapped_sum_range : forall (l : list (T * Z)) (z : Z),
  (0 <= z < 2 ^ 32)%Z ->
  (0 <= fold_left (fun acc kv => wrap32 (acc + snd kv)) l z < 2 ^ 32)%Z.
Proof.
  induction l as [| kv l IH]; intros z Hz; simpl.
  - exact Hz.
  - apply IH. apply wrap32_range.
Qed.

Lemma totalSelections_range : forall st : ArmStats T,
  (0 <= totalSelections st < 2 ^ 32)%Z.
Proof. intro st. apply wrapped_sum_range. lia. Qed.

(** In a state reached without counter overflow from non-negative rewards,
    every mean reward is non-negative and every count is a [uint32_t]. *)
Lemma reachable_invariant : forall armSet st,
  reachable T_eq_dec armSet st ->
  forall a, 0 <= meanOf T_eq_dec st a
            /\ (0 <= countOf T_eq_dec st a < 2 ^ 32)%Z.
Proof.
  intros armSet st H. induction H as [| st a r Hreach IH Hin Hr Hov]; intro b.
  - destruct (init_arms_zero armSet b) as [-> ->]. split; [lra | lia].
  - destruct (T_eq_dec b a) as [-> | NE].
    + rewrite meanOf_UpdateArm_same, countOf_UpdateArm_same.
      destruct (IH a) as [Hm Hc].
      split; [| apply wrap32_range].
      rewrite wrap32_small by lia.
      assert (Hn : 1 <= IZR (countOf T_eq_dec st a + 1)).
      { apply IZR_le. lia. }
      set (n := IZR (countOf T_eq_dec st a + 1)) in *.
      set (e := meanOf T_eq_dec st a) in *.
      assert (Hinv : 0 < / n <= 1).
      { split; [apply Rinv_0_lt_compat; lra |].
        rewrite <- Rinv_1. apply Rinv_le_contravar; lra. }
      unfold Rdiv. nra.
    + rewrite meanOf_UpdateArm_other, countOf_UpdateArm_other by assumption.
      apply IH.
Qed.

Lemma ucb_bonus_nonneg : forall n t,
  0 <= C_WEIGHT_FACTOR * sqrt (ln (IZR (wrap32 (t + 1))) / (2 * IZR n)).
Proof.
  intros. unfold C_WEIGHT_FACTOR.
  pose proof (sqrt_pos (ln (IZR (wrap32 (t + 1))) / (2 * IZR n))). lra.
Qed.


Lemma ln_nonpos : forall y, y <= 0 -> ln y = 0.
Proof.
  intros y Hy. unfold ln. destruct (Rlt_dec 0 y); [exfalso; lra | reflexivity].
Qed.

Lemma ln_lt_self : forall y, 0 < y -> ln y < y.
Proof.
  intros y Hy. pose proof (exp_ineq1_le (ln y)) as H.
  rewrite exp_ln in H by assumption. lra.
Qed.

Lemma ln_nonneg_from_1 : forall y, 1 <= y -> 0 <= ln y.
Proof.
  intros y Hy. destruct (Req_dec y 1) as [-> | NE].
  - rewrite ln_1. lra.
  - rewrite <- ln_1. left. apply ln_increasing; lra.
Qed.

Lemma ln_le_mono : forall x y, 0 < x -> x <= y -> ln x <= ln y.
Proof.
  intros x y Hx Hxy. destruct (Req_dec x y) as [-> | NE].
  - lra.
  - left. apply ln_increasing; lra.
Qed.

(** The exploration bonus of a sampled arm is bounded whatever the total:
    the total is a [uint32_t]. *)
Lemma ucb_bonus_bound : forall (n t : Z),
  (1 <= n)%Z ->
  sqrt (ln (IZR (wrap32 (t + 1))) / (2 * IZR n)) <= 65536.
Proof.
  intros n t Hn.
  replace 65536 with (sqrt (65536 * 65536))
    by (apply sqrt_square; lra).
  apply sqrt_le_1_alt.
  pose proof (wrap32_range (t + 1)) as [Hlo Hhi].
  assert (Hy : 0 <= IZR (wrap32 (t + 1)) <= 4294967295).
  { split; [apply (IZR_le 0); exact Hlo | apply IZR_le; lia]. }
  assert (HL : ln (IZR (wrap32 (t + 1))) <= 4294967295).
  { destruct (Rle_lt_dec (IZR (wrap32 (t + 1))) 0) as [H0 | H0].
    - rewrite ln_nonpos by assumption. lra.
    - pose proof (ln_lt_self _ H0). lra. }
  assert (Hn' : 1 <= IZR n) by (apply (IZR_le 1); exact Hn).
  assert (Hi : 0 < / (2 * IZR n) <= 1).
  { split; [apply Rinv_0_lt_compat; lra |].
    rewrite <- Rinv_1. apply Rinv_le_contravar; lra. }
  unfold Rdiv.
  set (L := ln (IZR (wrap32 (t + 1)))) in *.
  set (i := / (2 * IZR n)) in *.
  destruct (Rle_lt_dec 0 L); nra.
Qed.

Lemma DBL_MAX_large : 4294967296 < DBL_MAX.
Proof.
  unfold DBL_MAX. apply IZR_lt. reflexivity.
Qed.

(** C9: for an arm whose count [n >= 1] and mean reward stay fixed, the
    UCB1 score [mean + c * sqrt (ln (t + 1) / (2 * n))] is non-decreasing
    in the decision index [t] (a [uint32_t] total whose successor does not
    wrap). *)
Theorem ucb_score_monotone_in_t : forall (mean : R) (n t1 t2 : Z),
  (1 <= n)%Z -> (0 <= t1 <= t2)%Z -> (t2 + 1 < 2 ^ 32)%Z ->
  ucb_score mean n t1 <= ucb_score mean n t2.
Proof.
  intros mean n t1 t2 Hn Ht Hov. unfold ucb_score, C_WEIGHT_FACTOR.
  rewrite !wrap32_small by lia.
  assert (H1 : 1 <= IZR (t1 + 1)) by (apply (IZR_le 1); lia).
  assert (H12 : IZR (t1 + 1) <= IZR (t2 + 1)) by (apply IZR_le; lia).
  assert (Hln : ln (IZR (t1 + 1)) <= ln (IZR (t2 + 1)))
    by (apply ln_le_mono; lra).
  assert (Hn' : 1 <= IZR n) by (apply (IZR_le 1); exact Hn).
  assert (Hi : 0 < / (2 * IZR n)) by (apply Rinv_0_lt_compat; lra).
  assert (Hs : sqrt (ln (IZR (t1 + 1)) / (2 * IZR n))
               <= sqrt (ln (IZR (t2 + 1)) / (2 * IZR n))).
  { apply sqrt_le_1_alt. unfold Rdiv.
    apply Rmult_le_compat_r; [lra | exact Hln]. }
  lra.
Qed.

(** The scan of [SelectArm] on a state reached from non-negative
    rewards in which every arm has been selected: the result maximises the
    score computed from the stored means and counters and from the total
    the function sums up, and is the first arm of maximal score. *)
Lemma SelectArm_maximises_on_reachable : forall (armSet : list T) (st : ArmStats T),
  reachable T_eq_dec armSet st ->
  armSet <> [] ->
  (forall b, In b armSet -> (1 <= countOf T_eq_dec st b)%Z) ->
  (totalSelections st + 1 < 2 ^ 32)%Z ->
  let t := totalSelections st in
  let score := fun b =>
    meanOf T_eq_dec st b
    + C_WEIGHT_FACTOR
      * sqrt (ln (IZR (t + 1)) / (2 * IZR (countOf T_eq_dec st b))) in
  exists a l1 l2,
    SelectArm T_eq_dec st armSet = Some a
    /\ armSet = l1 ++ a :: l2
    /\ (forall b, In b armSet -> score b <= score a)
    /\ (forall b, In b l1 -> score b < score a).
Proof.
  intros armSet st Hreach Hne Hcnt Hov t score.
  destruct armSet as [| a0 rest]; [contradiction Hne; reflexivity |].
  pose proof (totalSelections_range st) as Ht.
  assert (Hval : forall b, In b (a0 :: rest) ->
                 ucbValue T_eq_dec st t b = score b).
  { intros b Hb. unfold ucbValue.
    destruct (Z.eq_dec (countOf T_eq_dec st b) 0) as [E | _].
    - specialize (Hcnt b Hb). lia.
    - unfold ucb_score, score. fold t. rewrite wrap32_small by (unfold t; lia).
      reflexivity. }
  assert (Hpos : forall b, In b (a0 :: rest) -> 0 <= score b).
  { intros b Hb. unfold score.
    destruct (reachable_invariant _ _ Hreach b) as [Hm _].
    pose proof (sqrt_pos (ln (IZR (t + 1)) / (2 * IZR (countOf T_eq_dec st b)))).
    unfold C_WEIGHT_FACTOR. lra. }
  unfold SelectArm. fold t.
  destruct (SelectArm_scan st t (a0 :: rest) (-1) a0)
    as [[_ Hall] | (l1 & l2 & Hl & _ & _ & H1 & H2)].
  - exfalso. specialize (Hall a0 (or_introl eq_refl)).
    rewrite Hval in Hall by (left; reflexivity).
    specialize (Hpos a0 (or_introl eq_refl)). lra.
  - set (a := snd (fold_left (SelectArm_step T_eq_dec st t) (a0 :: rest)
                             (-1, a0))) in *.
    assert (Ha : In a (a0 :: rest)).
    { rewrite Hl. apply in_or_app. right. left. reflexivity. }
    exists a, l1, l2. split; [reflexivity |]. split; [exact Hl |]. split.
    + intros b Hb. rewrite <- (Hval b Hb), <- (Hval a Ha).
      rewrite Hl in Hb. apply in_app_or in Hb.
      destruct Hb as [Hb | [<- | Hb]]; [left; now apply H1 | lra | now apply H2].
    + intros b Hb.
      assert (Hb' : In b (a0 :: rest)).
      { rewrite Hl. apply in_or_app. now left. }
      rewrite <- (Hval b Hb'), <- (Hval a Ha). now apply H1.
Qed.


(** Forced exploration inside [SelectArm]: the first-listed untried arm
    wins as soon as every sampled arm scores below the [DBL_MAX] sentinel. *)
Lemma SelectArm_first_untried : forall (st : ArmStats T) (armSet : list T),
  (exists b, In b armSet /\ countOf T_eq_dec st b = 0%Z) ->
  (forall b, In b armSet -> countOf T_eq_dec st b <> 0%Z ->
     ucb_score (meanOf T_eq_dec st b) (countOf T_eq_dec st b)
               (totalSelections st) < DBL_MAX) ->
  exists a l1 l2,
    SelectArm T_eq_dec st armSet = Some a
    /\ armSet = l1 ++ a :: l2
    /\ countOf T_eq_dec st a = 0%Z
    /\ (forall b, In b l1 -> countOf T_eq_dec st b <> 0%Z).
Proof.
  intros st armSet (u & Hu & Hu0) Hlow.
  destruct armSet as [| a0 rest]; [contradiction |].
  set (t := totalSelections st) in *.
  assert (Hfu : ucbValue T_eq_dec st t u = DBL_MAX).
  { unfold ucbValue. destruct (Z.eq_dec (countOf T_eq_dec st u) 0); congruence. }
  assert (Hcase : forall b, In b (a0 :: rest) ->
            (countOf T_eq_dec st b = 0%Z /\ ucbValue T_eq_dec st t b = DBL_MAX)
            \/ (countOf T_eq_dec st b <> 0%Z /\ ucbValue T_eq_dec st t b < DBL_MAX)).
  { intros b Hb. unfold ucbValue.
    destruct (Z.eq_dec (countOf T_eq_dec st b) 0) as [E | NE].
    - left. split; [exact E | reflexivity].
    - right. split; [exact NE | now apply Hlow]. }
  pose proof DBL_MAX_large as Hbig.
  unfold SelectArm. fold t.
  destruct (SelectArm_scan st t (a0 :: rest) (-1) a0)
    as [[_ Hall] | (l1 & l2 & Hl & _ & _ & H1 & H2)].
  - exfalso. specialize (Hall u Hu). rewrite Hfu in Hall. lra.
  - set (a := snd (fold_left (SelectArm_step T_eq_dec st t) (a0 :: rest)
                             (-1, a0))) in *.
    assert (Ha : In a (a0 :: rest)).
    { rewrite Hl. apply in_or_app. right. left. reflexivity. }
    assert (Hmax : DBL_MAX <= ucbValue T_eq_dec st t a).
    { rewrite <- Hfu. rewrite Hl in Hu. apply in_app_or in Hu.
      destruct Hu as [Hu | [<- | Hu]]; [left; now apply H1 | lra | now apply H2]. }
    assert (Ha0 : countOf T_eq_dec st a = 0%Z /\ ucbValue T_eq_dec st t a = DBL_MAX).
    { destruct (Hcase a Ha) as [H | [_ H]]; [exact H | exfalso; lra]. }
    exists a, l1, l2. split; [reflexivity |]. split; [exact Hl |].
    split; [apply Ha0 |].
    intros b Hb.
    assert (Hb' : In b (a0 :: rest)).
    { rewrite Hl. apply in_or_app. now left. }
    specialize (H1 b Hb). destruct Ha0 as [_ Ea]. rewrite Ea in H1.
    destruct (Hcase b Hb') as [[_ E] | [NE _]]; [exfalso; lra | exact NE].
Qed.

Lemma split_agree : forall (done todo l1 l2 : list T) (x a : T),
  done ++ x :: todo = l1 ++ a :: l2 ->
  ~ In a done -> ~ In x l1 -> a = x.
Proof.
  induction done as [| d done IH]; intros todo l1 l2 x a Heq Ha Hx.
  - destruct l1 as [| y l1]; simpl in Heq.
    + congruence.
    + exfalso. apply Hx. left. congruence.
  - destruct l1 as [| y l1]; simpl in Heq.
    + exfalso. apply Ha. left. congruence.
    + injection Heq as _ Heq. apply (IH todo l1 l2 x a Heq).
      * intro H. apply Ha. now right.
      * intro H. apply Hx. now right.
Qed.

Lemma play_forced_exploration_from :
  forall (rewards : list R) (done todo : list T) (st : ArmStats T),
    NoDup (done ++ todo) ->
    (forall a, In a done ->
       countOf T_eq_dec st a = 1%Z
       /\ meanOf T_eq_dec st a + C_WEIGHT_FACTOR * 65536 < DBL_MAX) ->
    (forall a, In a todo ->
       countOf T_eq_dec st a = 0%Z /\ meanOf T_eq_dec st a = 0) ->
    (length rewards <= length todo)%nat ->
    (forall r, In r rewards -> r + C_WEIGHT_FACTOR * 65536 < DBL_MAX) ->
    play T_eq_dec (done ++ todo) rewards st = firstn (length rewards) todo.
Proof.
  induction rewards as [| r rs IH]; intros done todo st Hnd Hdone Htodo Hlen Hr.
  - reflexivity.
  - destruct todo as [| x todo]; [simpl in Hlen; lia |].
    cbn [play length firstn].
    destruct (SelectArm_first_untried st (done ++ x :: todo))
      as (a & l1 & l2 & Hsel & Hl & Ha0 & Hl1).
    { exists x. split; [apply in_or_app; right; now left |].
      apply Htodo. now left. }
    { intros b Hb Hb0. apply in_app_or in Hb. destruct Hb as [Hb | Hb].
      - destruct (Hdone b Hb) as [Hc Hm]. rewrite Hc. unfold ucb_score.
        pose proof (ucb_bonus_bound 1 (totalSelections st) ltac:(lia)) as Hbd.
        unfold C_WEIGHT_FACTOR in *. lra.
      - exfalso. apply Hb0. now apply Htodo. }
    assert (Eax : a = x).
    { apply (split_agree done todo l1 l2 x a Hl).
      - intro Hin. destruct (Hdone a Hin) as [Hc _]. lia.
      - intro Hin. apply (Hl1 x Hin). apply Htodo. now left. }
    subst a. rewrite Hsel. f_equal.
    replace (done ++ x :: todo) with ((done ++ [x]) ++ todo)
      by (rewrite <- app_assoc; reflexivity).
    assert (Hnd' : NoDup ((done ++ [x]) ++ todo))
      by (rewrite <- app_assoc; exact Hnd).
    apply IH.
    + exact Hnd'.
    + intros b Hb. apply in_app_or in Hb. destruct Hb as [Hb | [<- | []]].
      * assert (b <> x).
        { intros ->. apply NoDup_remove_2 in Hnd. apply Hnd.
          apply in_or_app. now left. }
        rewrite countOf_UpdateArm_other, meanOf_UpdateArm_other by assumption.
        now apply Hdone.
      * rewrite countOf_UpdateArm_same, meanOf_UpdateArm_same.
        destruct (Htodo x (or_introl eq_refl)) as [-> ->].
        change (wrap32 (0 + 1)) with 1%Z.
        split; [reflexivity |].
        replace (0 + (r - 0) / 1) with r by field.
        apply Hr. now left.
    + intros b Hb.
      assert (b <> x).
      { intros ->. apply NoDup_remove_2 in Hnd. apply Hnd.
        apply in_or_app. now right. }
      rewrite countOf_UpdateArm_other, meanOf_UpdateArm_other by assumption.
      apply Htodo. now right.
    + simpl in Hlen. lia.
    + intros r' Hr'. apply Hr. now right.
Qed.

(** Forced exploration completeness for one D-LoRa dimension. *)
Lemma play_forced_exploration :
  forall (armSet : list T) (rewards : list R),
    NoDup armSet ->
    (length rewards <= length armSet)%nat ->
    (forall r, In r rewards -> r + C_WEIGHT_FACTOR * 65536 < DBL_MAX) ->
    play T_eq_dec armSet rewards (init_arms T_eq_dec armSet)
    = firstn (length rewards) armSet.
Proof.
  intros armSet rewards Hnd Hlen Hr.
  apply (play_forced_exploration_from rewards [] armSet); auto.
  - intros a [].
  - intros a _. destruct (init_arms_zero armSet a) as [Hm Hc]. now split.
Qed.

End BanditFacts.

Lemma ucb_score_monotone_in_t_witness :
  (1 <= 3)%Z /\ (0 <= 10 <= 20)%Z /\ (20 + 1 < 2 ^ 32)%Z
  /\ ucb_score 0.5 3 10 <= ucb_score 0.5 3 20.
Proof.
  split; [lia |]. split; [lia |]. split; [lia |].
  apply (ucb_score_monotone_in_t 0.5 3 10 20); lia.
Defined.

Section AdrLite.

Import LoRaUCB1.
Local Open Scope Z_scope.

Lemma UpdateStatistics_frame : forall g d channel tp success dr,
  m_adrIndex (UpdateStatistics g d channel tp success dr) = m_adrIndex d
  /\ m_adrParameterList (UpdateStatistics g d channel tp success dr)
     = m_adrParameterList d
  /\ m_successHistory (UpdateStatistics g d channel tp success dr)
     = m_successHistory d ++ [success].
Proof. intros. repeat split. Qed.

Lemma wrap_int_small : forall z, - 2 ^ 31 <= z < 2 ^ 31 -> wrap_int z = z.
Proof. intros z H. unfold wrap_int. rewrite Z.mod_small; lia. Qed.

(** One call of [SelectTransmissionParametersADRLite] on a ladder of
    [len] entries whose index is in range. *)
Lemma ADRLite_step : forall d len,
  Z.of_nat (List.length (m_adrParameterList d)) = len ->
  0 < len < 2 ^ 30 ->
  0 <= m_adrIndex d <= len - 1 ->
  let d1 := snd (SelectTransmissionParametersADRLite d) in
  m_adrParameterList d1 = m_adrParameterList d
  /\ m_successHistory d1 = m_successHistory d
  /\ 0 <= m_adrIndex d1 <= len - 1
  /\ match m_successHistory d with
     | [] => m_adrIndex d1 = m_adrIndex d
     | _ :: _ =>
         if last (m_successHistory d) false
         then m_adrIndex d1 = m_adrIndex d ÷ 2 /\ m_adrIndex d1 <= m_adrIndex d
         else m_adrIndex d1 = Z.min (len - 1) ((m_adrIndex d + len) ÷ 2)
              /\ m_adrIndex d <= m_adrIndex d1
     end.
Proof.
  intros d len Hlen Hrange Hidx d1. subst d1.
  unfold SelectTransmissionParametersADRLite.
  destruct (m_successHistory d) as [| h hs] eqn:Hh.
  - simpl. rewrite Hh. repeat split; lia.
  - cbn [snd m_adrParameterList m_successHistory m_adrIndex].
    rewrite Hlen. rewrite (wrap_int_small len) by lia.
    rewrite (wrap_int_small (len - 1)) by lia.
    rewrite (wrap_int_small (m_adrIndex d + len)) by lia.
    split; [reflexivity |]. split; [reflexivity |].
    assert (Hq1 : m_adrIndex d ÷ 2 = m_adrIndex d / 2)
      by (apply Z.quot_div_nonneg; lia).
    assert (Hq2 : (m_adrIndex d + len) ÷ 2 = (m_adrIndex d + len) / 2)
      by (apply Z.quot_div_nonneg; lia).
    destruct (last (h :: hs) false).
    + rewrite Hq1.
      assert (0 <= m_adrIndex d / 2 <= m_adrIndex d).
      { split; [apply Z.div_pos; lia | apply Z.div_le_upper_bound; lia]. }
      rewrite Z.max_r by lia. lia.
    + rewrite Hq2.
      assert (m_adrIndex d <= (m_adrIndex d + len) / 2).
      { apply Z.div_le_lower_bound; lia. }
      lia.
Qed.

Lemma adr_lite_indices_spec : forall g outcomes d len,
  Z.of_nat (List.length (m_adrParameterList d)) = len ->
  0 < len < 2 ^ 30 ->
  0 <= m_adrIndex d <= len - 1 ->
  let idxs := adr_lite_indices g d outcomes in
  List.length idxs = S (List.length outcomes)
  /\ Forall (fun i => 0 <= i <= len - 1) idxs
  /\ Spec.ladder_moves idxs (map fst outcomes)
  /\ match m_successHistory d with
     | [] => hd 0 idxs = m_adrIndex d
     | _ :: _ =>
         if last (m_successHistory d) false
         then hd 0 idxs <= m_adrIndex d
         else m_adrIndex d <= hd 0 idxs
     end.
Proof.
  intros g outcomes. induction outcomes as [| [o dr] rest IH];
    intros d len Hlen Hrange Hidx idxs; subst idxs.
  - destruct (ADRLite_step d len Hlen Hrange Hidx) as (_ & _ & Hin & Hmv).
    cbn [adr_lite_indices List.length map hd].
    split; [reflexivity |]. split; [constructor; [exact Hin | constructor] |].
    split; [exact I |].
    destruct (m_successHistory d); [exact Hmv |].
    destruct (last (b :: l) false); lia.
  - destruct (ADRLite_step d len Hlen Hrange Hidx) as (Hlad & Hhist & Hin & Hmv).
    cbn [adr_lite_indices].
    set (sel := SelectTransmissionParametersADRLite d) in *.
    set (d' := UpdateStatistics g (snd sel) (fst (fst sel)) (snd (fst sel)) o dr).
    destruct (UpdateStatistics_frame g (snd sel) (fst (fst sel)) (snd (fst sel)) o dr)
      as (Fi & Fl & Fh). fold d' in Fi, Fl, Fh.
    destruct (IH d' len) as (IHlen & IHall & IHmv & IHhd).
    { rewrite Fl, Hlad. exact Hlen. }
    { exact Hrange. }
    { rewrite Fi. exact Hin. }
    rewrite Fh, Fi in IHhd.
    assert (Hlast : last (m_successHistory (snd sel) ++ [o]) false = o)
      by apply last_last.
    destruct (adr_lite_indices g d' rest) as [| j tl] eqn:Hrun;
      [simpl in IHlen; discriminate |].
    cbn [List.length map fst hd] in *.
    split; [now rewrite IHlen |].
    split; [constructor; assumption |].
    split.
    + cbn [Spec.ladder_moves]. split; [| exact IHmv].
      destruct (m_successHistory (snd sel) ++ [o]) eqn:E.
      * destruct (m_successHistory (snd sel)); discriminate.
      * rewrite Hlast in IHhd. destruct o; exact IHhd.
    + destruct (m_successHistory d); [exact Hmv |].
      destruct (last (b :: l) false); lia.
Qed.

(** C4: for every sequence of outcomes, the ADR-Lite ladder index after a
    success is at most the index before it, after a failure at least the
    index before it, and every index lies in [0, |ladder| - 1]; the ladder
    is the 25-entry list sorted by increasing power and the run starts at
    its last entry, a highest-power one. *)
Theorem adr_lite_ladder_index :
  forall (g : Globals) (deviceId : Z) (outcomes : list (bool * Draws)),
    let d0 := LoRaDevice_new deviceId "ADR-Lite" in
    let ladder := m_adrParameterList d0 in
    let idxs := adr_lite_indices g d0 outcomes in
    List.length idxs = S (List.length outcomes)
    /\ hd 0 idxs = Z.of_nat (List.length ladder) - 1
    /\ Forall (fun i => 0 <= i <= Z.of_nat (List.length ladder) - 1) idxs
    /\ Spec.ladder_moves idxs (map fst outcomes)
    /\ List.length ladder = 25%nat
    /\ map snd ladder
       = [-3; -3; -3; -3; -3; 1; 1; 1; 1; 1; 5; 5; 5; 5; 5;
          9; 9; 9; 9; 9; 13; 13; 13; 13; 13].
Proof.
  intros g deviceId outcomes d0 ladder idxs.
  destruct (adr_lite_indices_spec g outcomes d0 25) as (H1 & H2 & H3 & H4).
  - reflexivity.
  - lia.
  - cbn. lia.
  - change (Z.of_nat (List.length ladder) - 1) with 24.
    change (m_successHistory d0) with (@nil bool) in H4.
    change (m_adrIndex d0) with 24 in H4.
    repeat split; assumption.
Qed.

End AdrLite.

Section Gateway.

Import LoRaUCB1.
Local Open Scope Q_scope.

Lemma Qltb_true : forall a b, Qltb a b = true <-> a < b.
Proof.
  intros a b. unfold Qltb. rewrite negb_true_iff.
  split.
  - intro H. apply Qnot_le_lt. intro Hle.
    apply Qle_bool_iff in Hle. congruence.
  - intro H. destruct (Qle_bool b a) eqn:E; [| reflexivity].
    apply Qle_bool_iff in E. exfalso. exact (Qlt_not_le _ _ H E).
Qed.

Lemma Qltb_false : forall a b, Qltb a b = false <-> b <= a.
Proof.
  intros a b. unfold Qltb. rewrite negb_false_iff. apply Qle_bool_iff.
Qed.

Lemma channelReceivable_true : forall rcs channel,
  channelReceivable rcs channel = true
  <-> exists rc, In rc rcs /\ Qabs (channel - rc) < 0.001.
Proof.
  intros rcs channel. unfold channelReceivable. rewrite existsb_exists.
  split; intros (rc & Hin & H); exists rc; (split; [exact Hin |]);
    now apply Qltb_true.
Qed.

Lemma channelReceivable_false : forall rcs channel,
  (forall rc, In rc rcs -> 0.001 <= Qabs (channel - rc)) ->
  channelReceivable rcs channel = false.
Proof.
  intros rcs channel H. destruct (channelReceivable rcs channel) eqn:E;
    [| reflexivity].
  apply channelReceivable_true in E. destruct E as (rc & Hin & Hlt).
  exfalso. exact (Qlt_not_le _ _ Hlt (H rc Hin)).
Qed.

Lemma successProbability_clamped : forall g channel tp,
  0.2 <= successProbability g channel tp <= 0.98.
Proof.
  intros g channel tp. unfold successProbability. cbv zeta.
  set (p := _ * _ * _ * _).
  split.
  - apply Q.min_glb; [discriminate | apply Q.le_max_l].
  - apply Q.le_min_l.
Qed.

(** C10: the gateway rejects every channel that is not within 0.001 MHz of
    a receivable one, whatever the transmit power; on a receivable channel
    the Bernoulli success probability lies in [0.2, 0.98], so some draws of
    the uniform variable succeed and some fail. *)
Theorem gateway_reception :
  (forall g gw channel tp deviceId u,
      (forall rc, In rc (m_receivableChannels gw) ->
                  0.001 <= Qabs (channel - rc)) ->
      ReceiveTransmission g gw channel tp deviceId u = false)
  /\ (forall g channel tp, 0.2 <= successProbability g channel tp <= 0.98)
  /\ (forall g gw channel tp deviceId u,
        (exists rc, In rc (m_receivableChannels gw)
                    /\ Qabs (channel - rc) < 0.001) ->
        ReceiveTransmission g gw channel tp deviceId u
        = Qltb u (successProbability g channel tp)
        /\ (u < 0.2 -> ReceiveTransmission g gw channel tp deviceId u = true)
        /\ (0.98 <= u ->
            ReceiveTransmission g gw channel tp deviceId u = false)).
Proof.
  split; [| split].
  - intros g gw channel tp deviceId u H. unfold ReceiveTransmission.
    now rewrite channelReceivable_false.
  - exact successProbability_clamped.
  - intros g gw channel tp deviceId u H. unfold ReceiveTransmission.
    apply channelReceivable_true in H. rewrite H.
    destruct (successProbability_clamped g channel tp) as [Hlo Hhi].
    split; [reflexivity |]. split.
    + intro Hu. apply Qltb_true. eapply Qlt_le_trans; eassumption.
    + intro Hu. apply Qltb_false. eapply Qle_trans; eassumption.
Qed.

(** The receivable channels of the program are accepted and the two outer
    channels rejected, at every power. *)
Example gateway_reception_witness :
  let gw := {| m_receivableChannels := g_receivableChannels |} in
  ReceiveTransmission default_globals gw 920.6 13 0 0 = false
  /\ ReceiveTransmission default_globals gw 921.4 (-3) 0 0.1 = true
  /\ ReceiveTransmission default_globals gw 921.4 13 0 0.99 = false.
Proof.
  intro gw. split; [| split].
  - apply (proj1 gateway_reception).
    intros rc [<- | [<- | [<- | []]]]; discriminate.
  - apply (proj2 (proj2 gateway_reception)); [| reflexivity].
    exists 921.4. split; [right; left; reflexivity | reflexivity].
  - apply (proj2 (proj2 gateway_reception)); [| discriminate].
    exists 921.4. split; [right; left; reflexivity | reflexivity].
Defined.

End Gateway.

Section EpsilonGreedy.

Import LoRaUCB1.

Lemma EpsilonGreedy_skip_untried : forall d l acc,
  (forall a, In a l -> selectionsCount (stats_get (m_ucbStats d) a) = 0%Z) ->
  fold_left (EpsilonGreedy_step d) l acc = acc.
Proof.
  intros d l. induction l as [| a l IH]; intros acc H; [reflexivity |].
  cbn [fold_left]. unfold EpsilonGreedy_step at 2.
  rewrite (H a (or_introl eq_refl)). cbn [Z.ltb Z.compare].
  apply IH. intros b Hb. apply H. now right.
Qed.

(** The first decision cycle of an Epsilon-Greedy device that exploits. *)
Lemma greedy_first_cycle :
  SelectAndTransmit default_globals program_gateway
                    (LoRaDevice_new 0 "Epsilon-Greedy") exploit_draws
  = Done greedy_after_first_cycle.
Proof.
  unfold SelectAndTransmit.
  change (m_currentTransmissionRound (LoRaDevice_new 0 "Epsilon-Greedy")
          <? g_numTransmissions default_globals)%Z with true.
  cbn [m_algorithm LoRaDevice_new String.eqb Ascii.eqb Bool.eqb].
  cbv iota.
  assert (Hsel : SelectTransmissionParametersEpsilonGreedy
                   (LoRaDevice_new 0 "Epsilon-Greedy") exploit_draws
                 = (920.6%Q, (-3)%Z)).
  { unfold SelectTransmissionParametersEpsilonGreedy.
    change (Qltb (u_explore exploit_draws)
                 (m_epsilon (LoRaDevice_new 0 "Epsilon-Greedy"))) with false.
    cbv iota zeta.
    rewrite EpsilonGreedy_skip_untried; [reflexivity |].
    intros a Ha.
    repeat (destruct Ha as [<- | Ha]; [reflexivity |]). destruct Ha. }
  rewrite Hsel. cbn [fst snd].
  reflexivity.
Qed.

(** After that cycle the exploiting policy picks the sampled arm again,
    although 24 arms have never been tried. *)
Lemma greedy_second_selection :
  SelectTransmissionParametersEpsilonGreedy greedy_after_first_cycle
                                            exploit_draws
  = (920.6%Q, (-3)%Z)
  /\ selectionsCount
       (stats_get (m_ucbStats greedy_after_first_cycle) (920.6%Q, (-3)%Z))
     = 1%Z
  /\ In (921.0%Q, (-3)%Z) all_arms
  /\ selectionsCount
       (stats_get (m_ucbStats greedy_after_first_cycle) (921.0%Q, (-3)%Z))
     = 0%Z.
Proof.
  split; [| split; [reflexivity | split; [| reflexivity]]].
  - unfold SelectTransmissionParametersEpsilonGreedy.
    change (Qltb (u_explore exploit_draws)
                 (m_epsilon greedy_after_first_cycle)) with false.
    cbv iota zeta.
    change all_arms with ((920.6%Q, (-3)%Z) :: tl all_arms).
    cbn [fold_left].
    rewrite EpsilonGreedy_skip_untried.
    + unfold EpsilonGreedy_step.
      change (0 <? selectionsCount
                     (stats_get (m_ucbStats greedy_after_first_cycle)
                                (920.6%Q, (-3)%Z)))%Z with true.
      cbv iota zeta. cbn [fst].
      destruct (Rlt_dec _ _) as [_ | Hn]; [reflexivity |].
      exfalso. apply Hn.
      change (rewardsSum (stats_get (m_ucbStats greedy_after_first_cycle)
                                    (920.6%Q, (-3)%Z)))
        with (0 + 0)%R.
      change (selectionsCount (stats_get (m_ucbStats greedy_after_first_cycle)
                                         (920.6%Q, (-3)%Z)))
        with 1%Z.
      lra.
    + intros a Ha.
      repeat (destruct Ha as [<- | Ha]; [reflexivity |]). destruct Ha.
  - right. right. right. right. right. left. reflexivity.
Qed.

End EpsilonGreedy.

Section QoCForcedExploration.

Import QoC.
Local Open Scope R_scope.

Lemma UCB_loop_first_untried : forall b indices maxUCB best,
  (exists i, In i indices /\ T_at b i = 0%Z) ->
  exists l1 l2,
    indices = l1 ++ UCB_loop b indices maxUCB best :: l2
    /\ T_at b (UCB_loop b indices maxUCB best) = 0%Z
    /\ (forall j, In j l1 -> T_at b j <> 0%Z).
Proof.
  intros b indices. induction indices as [| i rest IH];
    intros maxUCB best (u & Hu & Hu0).
  - destruct Hu.
  - cbn [UCB_loop]. destruct (T_at b i =? 0)%Z eqn:E.
    + apply Z.eqb_eq in E. exists [], rest.
      split; [reflexivity |]. split; [exact E |]. intros j [].
    + apply Z.eqb_neq in E.
      assert (Hrest : exists i', In i' rest /\ T_at b i' = 0%Z).
      { destruct Hu as [-> | Hu]; [contradiction | now exists u]. }
      cbv zeta.
      destruct (score_gt _ maxUCB);
        [destruct (IH (Fin (R_at b i + m_alpha b
                            * sqrt (ln (IZR (m_n b)) / IZR (T_at b i)))) i Hrest)
           as (l1 & l2 & Hl & H0 & H1)
        | destruct (IH maxUCB best Hrest) as (l1 & l2 & Hl & H0 & H1)];
        (exists (i :: l1), l2; split; [simpl; congruence |];
         split; [exact H0 |]; intros j [<- | Hj]; auto).
Qed.

Lemma UpdateReward_frame : forall b channel reward quality,
  m_n (UpdateReward b channel reward quality) = m_n b
  /\ m_K (UpdateReward b channel reward quality) = m_K b
  /\ m_type (UpdateReward b channel reward quality) = m_type b.
Proof. intros. repeat split. Qed.

Lemma play_UCB_forced_from : forall observations b k,
  m_type b = UCB ->
  m_n b = Z.of_nat k ->
  (k + List.length observations <= m_K b)%nat ->
  (Z.of_nat (m_K b) < 2 ^ 32)%Z ->
  play b observations = seq k (List.length observations).
Proof.
  induction observations as [| [reward quality] rest IH];
    intros b k Hty Hn Hlen HK.
  - reflexivity.
  - cbn [play List.length seq]. cbn [List.length] in Hlen.
    assert (Hsel : SelectChannel b
                   = (k, at_packet b (Z.of_nat (S k)))).
    { unfold SelectChannel. rewrite Hn.
      assert (Hw : wrap32 (Z.of_nat k + 1) = Z.of_nat (S k)).
      { unfold wrap32. rewrite Z.mod_small; lia. }
      rewrite Hw. cbn [m_type at_packet]. rewrite Hty.
      unfold SelectChannelUCB. cbn [m_n m_K at_packet].
      destruct (Z.leb_spec (Z.of_nat (S k)) (Z.of_nat (m_K b))); [| lia].
      f_equal. unfold wrap32. rewrite Z.mod_small by lia. lia. }
    rewrite Hsel. cbn [fst snd]. f_equal.
    apply IH.
    + exact Hty.
    + reflexivity.
    + cbn [m_K UpdateReward at_packet]. lia.
    + exact HK.
Qed.

End QoCForcedExploration.

Section ListFacts.

Context {A : Type}.

Lemma list_set_length : forall (l : list A) i x,
  List.length (list_set l i x) = List.length l.
Proof.
  induction l as [| h t IH]; intros [| i] x; simpl; auto.
Qed.

Lemma nth_list_set_same : forall (l : list A) i x d,
  (i < List.length l)%nat -> nth i (list_set l i x) d = x.
Proof.
  induction l as [| h t IH]; intros [| i] x d H; simpl in *; try lia; auto.
  apply IH. lia.
Qed.

Lemma nth_list_set_other : forall (l : list A) i j x d,
  i <> j -> nth j (list_set l i x) d = nth j l d.
Proof.
  induction l as [| h t IH]; intros [| i] [| j] x d H; simpl; auto; try lia.
Qed.

Lemma skipn_nth_cons : forall (l : list A) i d,
  (i < List.length l)%nat -> skipn i l = nth i l d :: skipn (S i) l.
Proof.
  induction l as [| h t IH]; intros [| i] d H; simpl in *; try lia; auto.
  apply IH. lia.
Qed.

End ListFacts.

Section RealSums.

Local Open Scope R_scope.

Lemma fold_left_Rplus : forall l a, fold_left Rplus l a = a + Rsum l.
Proof.
  induction l as [| x t IH]; intro a; simpl; [lra |]. rewrite IH. lra.
Qed.

Lemma fold_left_add_map : forall (B : Type) (g : B -> R) (l : list B) a,
  fold_left (fun acc i => acc + g i) l a = a + Rsum (map g l).
Proof.
  induction l as [| x t IH]; intro a; simpl; [lra |]. rewrite IH. lra.
Qed.

Lemma Rsum_app : forall l1 l2, Rsum (l1 ++ l2) = Rsum l1 + Rsum l2.
Proof.
  induction l1 as [| x t IH]; intro l2; simpl; [lra |]. rewrite IH. lra.
Qed.

Lemma Rsum_map_plus : forall (B : Type) (f g : B -> R) (l : list B),
  Rsum (map (fun i => f i + g i) l) = Rsum (map f l) + Rsum (map g l).
Proof.
  induction l as [| x t IH]; simpl; [lra |]. rewrite IH. lra.
Qed.

Lemma Rsum_indicator_before : forall c n s,
  (c < s)%nat ->
  Rsum (map (fun i => if Nat.eqb c i then 1 else 0) (seq s n)) = 0.
Proof.
  intros c. induction n as [| n IH]; intros s H; simpl; [reflexivity |].
  destruct (Nat.eqb_spec c s); [lia |]. rewrite IH by lia. lra.
Qed.

Lemma Rsum_indicator_seq : forall c n s,
  (s <= c < s + n)%nat ->
  Rsum (map (fun i => if Nat.eqb c i then 1 else 0) (seq s n)) = 1.
Proof.
  intros c. induction n as [| n IH]; intros s H; simpl; [lia |].
  destruct (Nat.eqb_spec c s) as [-> | NE].
  - rewrite Rsum_indicator_before by lia. lra.
  - rewrite IH by lia. lra.
Qed.

End RealSums.

Section QoCConsistency.

Import QoC.
Local Open Scope R_scope.

Lemma occurrences_snoc : forall i c history,
  occurrences i (history ++ [c])
  = (occurrences i history + if Nat.eqb c i then 1 else 0)%nat.
Proof.
  intros i c history. unfold occurrences. rewrite count_occ_app. simpl.
  destruct (Nat.eq_dec c i) as [-> | NE].
  - now rewrite Nat.eqb_refl.
  - destruct (Nat.eqb_spec c i); [contradiction | reflexivity].
Qed.

Lemma occurrences_le_length : forall i history,
  (occurrences i history <= List.length history)%nat.
Proof.
  intros i history. unfold occurrences.
  induction history as [| c t IH]; simpl; [lia |].
  destruct (Nat.eq_dec c i); lia.
Qed.

Lemma consistent_new : forall K type alpha beta lambda lambdaG,
  consistent (BanditAlgorithm_new K type alpha beta lambda lambdaG).
Proof.
  intros. constructor; cbn [BanditAlgorithm_new m_T_i m_R_i m_G_i m_rewards
                             m_qualities m_channelHistory m_K];
    try apply repeat_length.
  - intros c [].
  - simpl. lia.
  - intros i Hi. unfold T_at. cbn. now rewrite nth_repeat_lt.
  - intros i Hi. now rewrite nth_repeat_lt.
  - intros i Hi. now rewrite nth_repeat_lt.
  - intros i Hi. unfold R_at, T_at. cbn. now rewrite !nth_repeat_lt.
  - intros i Hi. unfold G_at, T_at. cbn. now rewrite !nth_repeat_lt.
Qed.

Lemma consistent_at_packet : forall b n,
  consistent b -> consistent (at_packet b n).
Proof. intros b n [? ? ? ? ? ? ? ? ? ? ? ?]. constructor; assumption. Qed.

Lemma consistent_UpdateReward : forall b channel reward quality,
  consistent b ->
  (channel < m_K b)%nat ->
  (Z.of_nat (List.length (m_channelHistory b)) + 1 < 2 ^ 32)%Z ->
  consistent (UpdateReward b channel reward quality).
Proof.
  intros b c reward quality [HT HR HG Hrw Hql Hh Hhl HcT Hcr Hcq HcR HcG] Hc Hlen.
  assert (HTc : wrap32 (T_at b c + 1)
                = Z.of_nat (occurrences c (m_channelHistory b ++ [c]))).
  { rewrite (HcT c Hc), occurrences_snoc, Nat.eqb_refl.
    pose proof (occurrences_le_length c (m_channelHistory b)).
    unfold wrap32. rewrite Z.mod_small; lia. }
  constructor;
    cbn [UpdateReward m_T_i m_R_i m_G_i m_rewards m_qualities
         m_channelHistory m_K];
    rewrite ?list_set_length; try assumption.
  - intros x Hx. apply in_app_or in Hx. destruct Hx as [Hx | [<- | []]]; auto.
  - rewrite length_app. simpl. lia.
  - intros i Hi. unfold T_at at 1. cbn [m_T_i UpdateReward].
    destruct (Nat.eq_dec c i) as [<- | NE].
    + rewrite nth_list_set_same by lia. exact HTc.
    + rewrite nth_list_set_other by assumption.
      rewrite occurrences_snoc.
      destruct (Nat.eqb_spec c i); [contradiction |].
      rewrite Nat.add_0_r. now apply HcT.
  - intros i Hi. destruct (Nat.eq_dec c i) as [<- | NE].
    + rewrite nth_list_set_same by lia. rewrite length_app. simpl.
      rewrite occurrences_snoc, Nat.eqb_refl. now rewrite Hcr.
    + rewrite nth_list_set_other by assumption. rewrite occurrences_snoc.
      destruct (Nat.eqb_spec c i); [contradiction |].
      rewrite Nat.add_0_r. now apply Hcr.
  - intros i Hi. destruct (Nat.eq_dec c i) as [<- | NE].
    + rewrite nth_list_set_same by lia. rewrite length_app. simpl.
      rewrite occurrences_snoc, Nat.eqb_refl. now rewrite Hcq.
    + rewrite nth_list_set_other by assumption. rewrite occurrences_snoc.
      destruct (Nat.eqb_spec c i); [contradiction |].
      rewrite Nat.add_0_r. now apply Hcq.
  - intros i Hi. unfold R_at, T_at. cbn [m_R_i m_T_i UpdateReward].
    destruct (Nat.eq_dec c i) as [<- | NE].
    + rewrite !nth_list_set_same by lia.
      rewrite fold_left_Rplus. now rewrite Rplus_0_l.
    + rewrite !nth_list_set_other by assumption. now apply HcR.
  - intros i Hi. unfold G_at, T_at. cbn [m_G_i m_T_i UpdateReward].
    destruct (Nat.eq_dec c i) as [<- | NE].
    + rewrite !nth_list_set_same by lia.
      rewrite fold_left_Rplus. now rewrite Rplus_0_l.
    + rewrite !nth_list_set_other by assumption. now apply HcG.
Qed.

Lemma after_history_history : forall events b,
  m_channelHistory (after_history b events)
  = m_channelHistory b ++ map (fun ev => fst (fst ev)) events.
Proof.
  induction events as [| ev rest IH]; intro b; cbn [after_history fold_left map].
  - now rewrite app_nil_r.
  - fold (after_history
            (UpdateReward b (fst (fst ev)) (snd (fst ev)) (snd ev)) rest).
    rewrite IH. cbn [UpdateReward m_channelHistory].
    now rewrite <- app_assoc.
Qed.

Lemma after_history_frame : forall events b,
  m_K (after_history b events) = m_K b
  /\ m_n (after_history b events) = m_n b
  /\ m_alpha (after_history b events) = m_alpha b
  /\ m_beta (after_history b events) = m_beta b
  /\ m_lambda (after_history b events) = m_lambda b
  /\ m_lambdaG (after_history b events) = m_lambdaG b.
Proof.
  induction events as [| ev rest IH]; intro b; cbn [after_history fold_left].
  - repeat split.
  - apply (IH (UpdateReward b (fst (fst ev)) (snd (fst ev)) (snd ev))).
Qed.

Lemma consistent_after_history : forall events b,
  consistent b ->
  (forall ev, In ev events -> (fst (fst ev) < m_K b)%nat) ->
  (Z.of_nat (List.length (m_channelHistory b) + List.length events) < 2 ^ 32)%Z ->
  consistent (after_history b events).
Proof.
  induction events as [| ev rest IH]; intros b Hb Hch Hlen;
    cbn [after_history fold_left].
  - exact Hb.
  - apply IH.
    + apply consistent_UpdateReward; [exact Hb | apply Hch; now left |].
      cbn [List.length] in Hlen. lia.
    + intros ev' Hev'. cbn [UpdateReward m_K]. apply Hch. now right.
    + cbn [UpdateReward m_channelHistory]. rewrite length_app.
      cbn [List.length] in *. lia.
Qed.

End QoCConsistency.

Section QoCDiscountedStatistics.

Import QoC.
Local Open Scope R_scope.

Lemma map_snd_combine_seq : forall (l : list nat) s,
  map snd (combine (seq s (List.length l)) l) = l.
Proof.
  induction l as [| x t IH]; intro s; simpl; [reflexivity |].
  now rewrite IH.
Qed.

Lemma history_positions_snd : forall b,
  map snd (history_positions b) = m_channelHistory b.
Proof. intro b. apply map_snd_combine_seq. Qed.

Lemma discounted_count_fold_one : forall i size (l : list (nat * nat)) acc,
  fold_left
    (fun acc (jc : nat * nat) =>
       if Nat.eqb (snd jc) i then acc + 1 ^ (size - 1 - fst jc) else acc)
    l acc
  = acc + INR (occurrences i (map snd l)).
Proof.
  intros i size. induction l as [| [j c] t IH]; intro acc;
    cbn [fold_left map snd fst].
  - unfold occurrences. simpl. lra.
  - rewrite IH. unfold occurrences. cbn [count_occ].
    destruct (Nat.eqb_spec c i) as [-> | NE].
    + destruct (Nat.eq_dec i i); [| contradiction].
      rewrite pow1, S_INR. lra.
    + destruct (Nat.eq_dec c i); [contradiction | reflexivity].
Qed.

Lemma discounted_count_one : forall b i,
  discounted_count 1 b i = INR (occurrences i (m_channelHistory b)).
Proof.
  intros b i. unfold discounted_count. cbv zeta.
  rewrite discounted_count_fold_one, history_positions_snd. lra.
Qed.

Lemma discounted_sums_fold_one :
  forall b i (l : list (nat * nat)) sr sq idx,
    m_lambda b = 1 -> m_lambdaG b = 1 ->
    let size := List.length (m_channelHistory b) in
    let rewards := nth i (m_rewards b) [] in
    let qualities := nth i (m_qualities b) [] in
    let c := occurrences i (map snd l) in
    (idx + c <= List.length rewards)%nat ->
    (idx + c <= List.length qualities)%nat ->
    fold_left
      (fun (acc : R * R * nat) (jc : nat * nat) =>
         let '(sum_rewards, sum_qualities, reward_idx) := acc in
         if Nat.eqb (snd jc) i && (reward_idx <? List.length rewards)%nat then
           let discount_r := m_lambda b ^ (size - 1 - fst jc) in
           let discount_g := m_lambdaG b ^ (size - 1 - fst jc) in
           (sum_rewards + discount_r * nth reward_idx rewards 0,
            sum_qualities + discount_g * nth reward_idx qualities 0,
            S reward_idx)
         else acc)
      l (sr, sq, idx)
    = (sr + Rsum (firstn c (skipn idx rewards)),
       sq + Rsum (firstn c (skipn idx qualities)),
       (idx + c)%nat).
Proof.
  intros b i l. induction l as [| [j ch] t IH];
    intros sr sq idx Hl Hg size rewards qualities c Hr Hq;
    subst c size rewards qualities.
  - unfold occurrences. simpl. rewrite !Rplus_0_r, Nat.add_0_r. reflexivity.
  - cbn [fold_left map snd fst] in *.
    unfold occurrences in Hr, Hq |- *. cbn [count_occ] in Hr, Hq |- *.
    destruct (Nat.eqb_spec ch i) as [-> | NE].
    + destruct (Nat.eq_dec i i) as [_ | F]; [| contradiction].
      destruct (Nat.ltb_spec idx (List.length (nth i (m_rewards b) [])))
        as [Hlt | Hge]; [| lia].
      cbn [andb]. cbv zeta.
      rewrite (IH _ _ (S idx) Hl Hg) by (unfold occurrences; lia).
      unfold occurrences.
      rewrite Hl, Hg, !pow1.
      rewrite (skipn_nth_cons (nth i (m_rewards b) []) idx 0) by lia.
      rewrite (skipn_nth_cons (nth i (m_qualities b) []) idx 0) by lia.
      cbn [firstn Rsum].
      f_equal; [f_equal; lra | lia].
    + destruct (Nat.eq_dec ch i) as [F | _]; [contradiction |].
      cbn [andb].
      apply (IH sr sq idx Hl Hg); assumption.
Qed.

Lemma discounted_sums_one : forall b i,
  consistent b -> (i < m_K b)%nat ->
  m_lambda b = 1 -> m_lambdaG b = 1 ->
  discounted_sums b i
  = (Rsum (nth i (m_rewards b) []), Rsum (nth i (m_qualities b) []),
     List.length (nth i (m_rewards b) [])).
Proof.
  intros b i Hb Hi Hl Hg.
  pose proof (cons_rewards b Hb i Hi) as Hr.
  pose proof (cons_qualities b Hb i Hi) as Hq.
  pose proof (discounted_sums_fold_one b i (history_positions b) 0 0 0 Hl Hg)
    as H.
  cbv zeta in H. rewrite history_positions_snd in H.
  specialize (H ltac:(lia) ltac:(lia)).
  unfold discounted_sums. cbv zeta. rewrite H. clear H.
  rewrite <- Hr at 1. rewrite <- Hq at 1.
  cbn [skipn]. rewrite !firstn_all.
  f_equal; [f_equal; lra | lia].
Qed.

Lemma IZR_T_at : forall b i,
  consistent b -> (i < m_K b)%nat ->
  IZR (T_at b i) = INR (occurrences i (m_channelHistory b)).
Proof.
  intros b i Hb Hi. rewrite (cons_T b Hb i Hi). symmetry. apply INR_IZR_INZ.
Qed.

(** With both discount factors at 1 the discounted statistics of
    [SelectChannelDQoCA] are the running statistics of the object. *)
Lemma discounted_statistics_one : forall b i,
  consistent b -> (i < m_K b)%nat ->
  m_lambda b = 1 -> m_lambdaG b = 1 ->
  N_i b i = IZR (T_at b i)
  /\ N_g_i b i = IZR (T_at b i)
  /\ R_i_disc b i = R_at b i
  /\ G_i_disc b i = G_at b i.
Proof.
  intros b i Hb Hi Hl Hg.
  assert (HN : N_i b i = IZR (T_at b i)).
  { unfold N_i. rewrite Hl, discounted_count_one. symmetry.
    now apply IZR_T_at. }
  assert (HNg : N_g_i b i = IZR (T_at b i)).
  { unfold N_g_i. rewrite Hg, discounted_count_one. symmetry.
    now apply IZR_T_at. }
  split; [exact HN |]. split; [exact HNg |].
  pose proof (cons_T b Hb i Hi) as HT.
  pose proof (cons_rewards b Hb i Hi) as Hr.
  assert (Hmean : has_discounted_mean b i = (0 <? T_at b i)%Z).
  { unfold has_discounted_mean. rewrite HN, Hr, HT.
    destruct (occurrences i (m_channelHistory b)) as [| k].
    - simpl. destruct (Rlt_dec 0 0); [exfalso; lra | reflexivity].
    - destruct (Rlt_dec 0 (IZR (Z.of_nat (S k)))) as [_ | F].
      + reflexivity.
      + exfalso. apply F. apply (IZR_lt 0). lia. }
  unfold R_i_disc, G_i_disc. rewrite Hmean.
  rewrite (cons_R b Hb i Hi), (cons_G b Hb i Hi).
  destruct (0 <? T_at b i)%Z eqn:E; [| split; reflexivity].
  rewrite discounted_sums_one by assumption. cbn [fst snd].
  rewrite HN, HNg.
  destruct (Rlt_dec 0 (IZR (T_at b i))) as [_ | F].
  - split; reflexivity.
  - exfalso. apply F. apply (IZR_lt 0). now apply Z.ltb_lt.
Qed.

End QoCDiscountedStatistics.

Section QoCDiscountedSelection.

Import QoC.
Local Open Scope R_scope.

Lemma fold_left_ext_in : forall (A B : Type) (f g : A -> B -> A) (l : list B) a,
  (forall acc x, In x l -> f acc x = g acc x) ->
  fold_left f l a = fold_left g l a.
Proof.
  intros A B f g l. induction l as [| x t IH]; intros a H; simpl.
  - reflexivity.
  - rewrite (H a x) by now left. apply IH. intros acc y Hy. apply H. now right.
Qed.

Lemma G_max_disc_one : forall b,
  consistent b -> m_lambda b = 1 -> m_lambdaG b = 1 ->
  G_max_disc b = CalculateGmax b.
Proof.
  intros b Hb Hl Hg. unfold G_max_disc, CalculateGmax.
  apply fold_left_ext_in. intros acc i Hi. apply in_seq in Hi.
  destruct (discounted_statistics_one b i Hb ltac:(lia) Hl Hg)
    as (_ & _ & _ & ->).
  reflexivity.
Qed.

Lemma Rsum_occurrences : forall K history,
  (forall c, In c history -> (c < K)%nat) ->
  Rsum (map (fun i => INR (occurrences i history)) (seq 0 K))
  = INR (List.length history).
Proof.
  intros K history. induction history as [| c t IH]; intro H.
  - unfold occurrences. simpl. induction (seq 0 K); simpl; [reflexivity | lra].
  - assert (Hc : (c < K)%nat) by (apply H; now left).
    assert (Ht : forall c', In c' t -> (c' < K)%nat)
      by (intros c' Hc'; apply H; now right).
    specialize (IH Ht).
    cbn [List.length]. rewrite S_INR, <- IH.
    rewrite <- (Rsum_indicator_seq c K 0) by lia.
    rewrite <- Rsum_map_plus. f_equal.
    apply map_ext. intro i. unfold occurrences. cbn [count_occ].
    destruct (Nat.eq_dec c i) as [-> | NE].
    + rewrite Nat.eqb_refl, S_INR. reflexivity.
    + destruct (Nat.eqb_spec c i); [contradiction | lra].
Qed.

Lemma W_n_one : forall b,
  consistent b -> m_lambda b = 1 ->
  W_n b = IZR (Z.of_nat (List.length (m_channelHistory b))).
Proof.
  intros b Hb Hl. unfold W_n. rewrite fold_left_add_map, Rplus_0_l.
  rewrite <- INR_IZR_INZ, <- (Rsum_occurrences (m_K b)).
  - f_equal. apply map_ext. intro i. unfold N_i.
    rewrite Hl. apply discounted_count_one.
  - apply (cons_history b Hb).
Qed.

(** At discount 1 the scoring loop of DQoC-A is the scoring loop of QoC-A
    run with the history length in place of the packet index. *)
Lemma DQoCA_loop_one : forall b indices maxScore best,
  consistent b -> m_lambda b = 1 -> m_lambdaG b = 1 ->
  (forall i, In i indices -> (i < m_K b)%nat) ->
  DQoCA_loop b indices maxScore best
  = QoCA_loop
      (at_packet b (Z.of_nat (List.length (m_channelHistory b))))
      (CalculateGmax b) indices maxScore best.
Proof.
  intros b indices. induction indices as [| i rest IH];
    intros maxScore best Hb Hl Hg Hin; [reflexivity |].
  assert (Hi : (i < m_K b)%nat) by (apply Hin; now left).
  assert (Hrest : forall j, In j rest -> (j < m_K b)%nat)
    by (intros j Hj; apply Hin; now right).
  destruct (discounted_statistics_one b i Hb Hi Hl Hg) as (HN & _ & HR & HG).
  cbn [DQoCA_loop QoCA_loop].
  change (T_at (at_packet b (Z.of_nat (List.length (m_channelHistory b)))) i)
    with (T_at b i).
  change (R_at (at_packet b (Z.of_nat (List.length (m_channelHistory b)))) i)
    with (R_at b i).
  change (G_at (at_packet b (Z.of_nat (List.length (m_channelHistory b)))) i)
    with (G_at b i).
  cbn [m_n m_alpha m_beta at_packet].
  rewrite HN, HR, HG, (G_max_disc_one b Hb Hl Hg), (W_n_one b Hb Hl).
  destruct (Req_dec_T (IZR (T_at b i)) 0) as [E | NE].
  - apply eq_IZR in E. rewrite E. reflexivity.
  - destruct (Z.eqb_spec (T_at b i) 0) as [E | _];
      [exfalso; apply NE; now rewrite E |].
    cbv zeta.
    destruct (score_gt _ maxScore); now apply IH.
Qed.

End QoCDiscountedSelection.

Section QoCLag.

Import QoC.
Local Open Scope R_scope.

(** Settle the comparisons of a loop unrolled on concrete statistics,
    innermost first. *)
Ltac decide_Rlt :=
  repeat match goal with
         | |- context [Rlt_dec ?a ?b] =>
             lazymatch a with
             | context [Rlt_dec] => fail
             | _ => idtac
             end;
             lazymatch b with
             | context [Rlt_dec] => fail
             | _ => idtac
             end;
             destruct (Rlt_dec a b); try (exfalso; lra)
         end.

(** Evaluate the statistics of a concrete state, leaving real arithmetic
    as it stands. *)
Ltac eval_stats :=
  lazy -[Rplus Rmult Rminus Ropp Rdiv Rinv IZR Rlt_dec Rmax ln sqrt].

Lemma CalculateGmax_Rmax : forall b,
  CalculateGmax b
  = fold_left (fun m i => Rmax m (G_at b i)) (seq 0 (m_K b)) 0.
Proof.
  intro b. unfold CalculateGmax. apply fold_left_ext_in.
  intros acc i _. unfold Rmax.
  destruct (Rlt_dec acc (G_at b i)), (Rle_dec acc (G_at b i)); lra.
Qed.

Lemma lag_Gmax : forall n, CalculateGmax (at_packet lag_state n) = 189.
Proof.
  intro n. rewrite CalculateGmax_Rmax. eval_stats.
  repeat match goal with
         | |- context [Rmax ?a ?b] =>
             lazymatch a with
             | context [Rmax] => fail
             | _ => idtac
             end;
             first [rewrite (Rmax_right a b) by lra
                   | rewrite (Rmax_left a b) by lra]
         end.
  lra.
Qed.

(** On the statistics of [lag_state] the QoC-A scoring loop prefers
    channel 1 when the logarithm it is run with exceeds 2.1 and channel 0
    when it is below. *)
Lemma lag_loop : forall n,
  (2.1 < ln (IZR n) ->
   QoCA_loop (at_packet lag_state n) 189 (seq 0 8) NegInf 0 = 1%nat)
  /\ (0 <= ln (IZR n) < 2.1 ->
      QoCA_loop (at_packet lag_state n) 189 (seq 0 8) NegInf 0 = 0%nat).
Proof.
  intros n.
  eval_stats.
  set (L := ln (IZR n)).
  set (S := sqrt (L / 1)).
  split; intro HL.
  - decide_Rlt; reflexivity.
  - decide_Rlt; reflexivity.
Qed.

Lemma exp_INR_mult : forall (n : nat) (x : R), exp (INR n * x) = exp x ^ n.
Proof.
  induction n as [| n IH]; intro x.
  - simpl. rewrite Rmult_0_l. apply exp_0.
  - rewrite S_INR, Rmult_plus_distr_r, Rmult_1_l, exp_plus, IH. simpl. ring.
Qed.

Lemma exp_21_gt_8 : 8 < exp 2.1.
Proof.
  assert (E256 : INR 256 = 256) by (rewrite INR_IZR_INZ; reflexivity).
  replace 2.1 with (INR 256 * (21 / 2560)) by (rewrite E256; lra).
  rewrite exp_INR_mult.
  pose proof (exp_ineq1_le (21 / 2560)) as H1.
  assert (H2 : 2581 <= exp (21 / 2560) * 2560) by lra.
  assert (H3 : 2581 ^ 256 <= (exp (21 / 2560) * 2560) ^ 256).
  { apply pow_incr. lra. }
  rewrite Rpow_mult_distr in H3.
  rewrite !pow_IZR in H3.
  assert (H4 : 8 * IZR (2560 ^ Z.of_nat 256) < IZR (2581 ^ Z.of_nat 256)).
  { rewrite <- mult_IZR. apply IZR_lt. vm_compute. reflexivity. }
  assert (H5 : 0 < IZR (2560 ^ Z.of_nat 256)).
  { apply (IZR_lt 0). vm_compute. reflexivity. }
  apply (Rmult_lt_reg_r (IZR (2560 ^ Z.of_nat 256))); [exact H5 |].
  eapply Rlt_le_trans; [exact H4 | exact H3].
Qed.

Lemma exp_21_lt_9 : exp 2.1 < 9.
Proof.
  assert (Hneg : / 9 < exp (Ropp 2.1)).
  { assert (E64 : INR 64 = 64) by (rewrite INR_IZR_INZ; reflexivity).
    replace (Ropp 2.1) with (INR 64 * (- (21 / 640))) by (rewrite E64; lra).
    rewrite exp_INR_mult.
    pose proof (exp_ineq1_le (- (21 / 640))) as H1.
    assert (H2 : 0 <= 619 <= exp (- (21 / 640)) * 640) by lra.
    assert (H3 : 619 ^ 64 <= (exp (- (21 / 640)) * 640) ^ 64).
    { apply pow_incr. exact H2. }
    rewrite Rpow_mult_distr in H3.
    rewrite !pow_IZR in H3.
    assert (H4 : IZR (640 ^ Z.of_nat 64) < 9 * IZR (619 ^ Z.of_nat 64)).
    { rewrite <- mult_IZR. apply IZR_lt. vm_compute. reflexivity. }
    assert (H5 : 0 < IZR (640 ^ Z.of_nat 64)).
    { apply (IZR_lt 0). vm_compute. reflexivity. }
    apply (Rmult_lt_reg_r (IZR (640 ^ Z.of_nat 64))); [exact H5 |].
    apply (Rmult_lt_reg_l 9); [lra |].
    replace (9 * (/ 9 * IZR (640 ^ Z.of_nat 64)))
      with (IZR (640 ^ Z.of_nat 64)) by field.
    eapply Rlt_le_trans; [exact H4 |].
    rewrite <- Rmult_assoc.
    replace (9 * exp (- (21 / 640)) ^ 64 * IZR (640 ^ Z.of_nat 64))
      with (9 * (exp (- (21 / 640)) ^ 64 * IZR (640 ^ Z.of_nat 64))) by ring.
    apply Rmult_le_compat_l; [lra | exact H3]. }
  rewrite exp_Ropp in Hneg.
  pose proof (exp_pos 2.1) as Hp.
  assert (H9 : / 9 * exp 2.1 < / exp 2.1 * exp 2.1).
  { apply Rmult_lt_compat_r; assumption. }
  rewrite Rinv_l in H9 by lra. lra.
Qed.

Lemma ln_8_lt : ln 8 < 2.1.
Proof.
  rewrite <- (ln_exp 2.1). apply ln_increasing; [lra | apply exp_21_gt_8].
Qed.

Lemma ln_9_gt : 2.1 < ln 9.
Proof.
  rewrite <- (ln_exp 2.1) at 1. apply ln_increasing; [apply exp_pos | apply exp_21_lt_9].
Qed.

Lemma lag_state_consistent : consistent lag_state.
Proof.
  apply consistent_at_packet. apply consistent_after_history.
  - apply consistent_new.
  - intros ev Hev. cbn [BanditAlgorithm_new m_K].
    repeat (destruct Hev as [<- | Hev]; [cbn; lia |]). destruct Hev.
  - cbn. lia.
Qed.

Lemma at_packet_idem : forall b m n,
  at_packet (at_packet b m) n = at_packet b n.
Proof. reflexivity. Qed.

Lemma lag_state_at : lag_state = at_packet lag_state 9.
Proof. unfold lag_state. symmetry. apply at_packet_idem. Qed.

Lemma lag_K : forall n, m_K (at_packet lag_state n) = 8%nat.
Proof. intro n. eval_stats. reflexivity. Qed.

Lemma lag_lambda : forall n,
  m_lambda (at_packet lag_state n) = 1 /\ m_lambdaG (at_packet lag_state n) = 1.
Proof. intro n. eval_stats. split; reflexivity. Qed.

Lemma lag_history_length : forall n,
  Z.of_nat (List.length (m_channelHistory (at_packet lag_state n))) = 8%Z.
Proof. intro n. eval_stats. reflexivity. Qed.

(** C5, counterexample: on the history [lag_events] of the eight-channel
    program, with both discount factors at 1 and the same weights, QoC-A
    selects channel 1 for packet 9 and DQoC-A selects channel 0. *)
Lemma DQoCA_selection_differs_from_QoCA :
  m_lambda lag_state = 1 /\ m_lambdaG lag_state = 1
  /\ SelectChannelQoCA lag_state = 1%nat
  /\ SelectChannelDQoCA lag_state = 0%nat
  /\ SelectChannelDQoCA lag_state <> SelectChannelQoCA lag_state.
Proof.
  assert (HQ : SelectChannelQoCA lag_state = 1%nat).
  { rewrite lag_state_at. unfold SelectChannelQoCA.
    rewrite lag_K. cbn [m_n at_packet].
    change (9 <=? Z.of_nat 8)%Z with false. cbv iota.
    rewrite lag_Gmax.
    apply (proj1 (lag_loop 9)). apply ln_9_gt. }
  assert (HD : SelectChannelDQoCA lag_state = 0%nat).
  { rewrite lag_state_at. unfold SelectChannelDQoCA.
    rewrite lag_K. cbn [m_n at_packet].
    change (9 <=? Z.of_nat 8)%Z with false. cbv iota.
    rewrite DQoCA_loop_one;
      [| apply consistent_at_packet, lag_state_consistent
       | apply lag_lambda | apply lag_lambda
       | rewrite lag_K; intros i Hi; apply in_seq in Hi; lia].
    rewrite ?lag_K, lag_history_length, at_packet_idem, lag_Gmax.
    apply (proj2 (lag_loop 8)). split.
    - apply ln_nonneg_from_1. lra.
    - apply ln_8_lt. }
  assert (Hl : m_lambda lag_state = 1 /\ m_lambdaG lag_state = 1).
  { rewrite lag_state_at. apply lag_lambda. }
  destruct Hl as [Hl Hg].
  repeat split; try assumption. rewrite HQ, HD. discriminate.
Qed.

End QoCLag.

Section QoCDiscountOne.

Import QoC.
Local Open Scope R_scope.

(** C5 (amended): with both discount factors at 1, on the state reached by
    any history of fewer than 2^32 updates on channels below [K], the
    discounted counts, mean rewards, mean qualities and maximal quality of
    DQoC-A equal the counts, running means and maximal quality of QoC-A,
    and its discounted total equals the history length [W]; while the
    packet index [n] is at most [K] both policies select channel [n - 1];
    beyond, DQoC-A selects what the scoring loop of QoC-A selects with
    [ln W] in place of [ln n], which is the selection of QoC-A at packet
    index [W] when [W > K]. *)
Theorem DQoCA_at_discount_one :
  forall (K : nat) (type : AlgorithmType) (alpha beta : R)
         (events : list (nat * R * R)) (n : Z),
    (forall ev, In ev events -> (fst (fst ev) < K)%nat) ->
    (Z.of_nat (List.length events) < 2 ^ 32)%Z ->
    let b :=
      at_packet
        (after_history (BanditAlgorithm_new K type alpha beta 1 1) events) n in
    let W := Z.of_nat (List.length events) in
    (forall i, (i < K)%nat ->
       N_i b i = IZR (T_at b i) /\ N_g_i b i = IZR (T_at b i)
       /\ R_i_disc b i = R_at b i /\ G_i_disc b i = G_at b i)
    /\ G_max_disc b = CalculateGmax b
    /\ W_n b = IZR W
    /\ ((n <= Z.of_nat K)%Z -> SelectChannelDQoCA b = SelectChannelQoCA b)
    /\ ((Z.of_nat K < n)%Z ->
        SelectChannelDQoCA b
        = QoCA_loop (at_packet b W) (CalculateGmax b) (seq 0 K) NegInf 0)
    /\ ((Z.of_nat K < n)%Z -> (Z.of_nat K < W)%Z ->
        SelectChannelDQoCA b = SelectChannelQoCA (at_packet b W)).
Proof.
  intros K type alpha beta events n Hch Hlen b W.
  set (b0 := BanditAlgorithm_new K type alpha beta 1 1) in *.
  destruct (after_history_frame events b0) as (HK & _ & _ & _ & Hl & Hg).
  assert (Hcons : consistent b).
  { apply consistent_at_packet, consistent_after_history.
    - apply consistent_new.
    - exact Hch.
    - cbn. exact Hlen. }
  assert (HbK : m_K b = K) by exact HK.
  assert (Hbl : m_lambda b = 1) by exact Hl.
  assert (Hbg : m_lambdaG b = 1) by exact Hg.
  assert (Hhist : Z.of_nat (List.length (m_channelHistory b)) = W).
  { unfold W. change (m_channelHistory b)
      with (m_channelHistory (after_history b0 events)).
    rewrite after_history_history. cbn [b0 BanditAlgorithm_new m_channelHistory].
    cbn [app]. now rewrite length_map. }
  assert (Hloop : SelectChannelDQoCA b
                  = if (n <=? Z.of_nat K)%Z then Z.to_nat (wrap32 (n - 1))
                    else QoCA_loop (at_packet b W) (CalculateGmax b)
                                   (seq 0 K) NegInf 0).
  { unfold SelectChannelDQoCA. rewrite HbK. change (m_n b) with n.
    destruct (n <=? Z.of_nat K)%Z; [reflexivity |].
    rewrite DQoCA_loop_one; try assumption.
    - now rewrite Hhist.
    - intros i Hi. apply in_seq in Hi. lia. }
  split; [| split; [| split; [| split; [| split]]]].
  - intros i Hi. apply discounted_statistics_one; try assumption. lia.
  - now apply G_max_disc_one.
  - rewrite W_n_one by assumption. now rewrite Hhist.
  - intro Hn. rewrite Hloop. unfold SelectChannelQoCA. rewrite HbK.
    change (m_n b) with n.
    destruct (Z.leb_spec n (Z.of_nat K)); [reflexivity | lia].
  - intro Hn. rewrite Hloop.
    destruct (Z.leb_spec n (Z.of_nat K)); [lia | reflexivity].
  - intros Hn HW. rewrite Hloop.
    destruct (Z.leb_spec n (Z.of_nat K)); [lia |].
    unfold SelectChannelQoCA.
    change (m_n (at_packet b W)) with W.
    change (m_K (at_packet b W)) with (m_K b). rewrite HbK.
    destruct (Z.leb_spec W (Z.of_nat K)); [lia | reflexivity].
Qed.

Lemma DQoCA_at_discount_one_witness :
  (forall ev, In ev lag_events -> (fst (fst ev) < 8)%nat)
  /\ (Z.of_nat (List.length lag_events) < 2 ^ 32)%Z
  /\ W_n lag_state = 8
  /\ SelectChannelDQoCA lag_state
     = QoCA_loop (at_packet lag_state 8) (CalculateGmax lag_state)
                 (seq 0 8) NegInf 0.
Proof.
  assert (H1 : forall ev, In ev lag_events -> (fst (fst ev) < 8)%nat).
  { intros ev Hev.
    repeat (destruct Hev as [<- | Hev]; [cbn; lia |]). destruct Hev. }
  assert (H2 : (Z.of_nat (List.length lag_events) < 2 ^ 32)%Z)
    by (cbn; lia).
  split; [exact H1 |]. split; [exact H2 |].
  pose proof (DQoCA_at_discount_one 8 DQOC_A 1.9 0.9 lag_events 9 H1 H2) as H.
  cbv zeta in H. destruct H as (_ & _ & HW & _ & Hsel & _).
  split; [exact HW |]. apply Hsel. cbn. lia.
Defined.

End QoCDiscountOne.

Section ForcedExploration.

Local Open Scope R_scope.

(** C2 (amended): the UCB policies give untried arms priority.  In the
    D-LoRa bandit, whenever an arm of the set has count 0 and every sampled
    arm scores below the [DBL_MAX] sentinel, [SelectArm] returns an arm of
    count 0, and from the initial state the first selections run through
    the arm set in order, each arm once (rewards far below [DBL_MAX]).  In
    the QoC program, [SelectChannelUCB] past the initial phase returns a
    channel of count 0 whenever there is one, and from a fresh object the
    first [K] packets select channels 0, 1, ..., K - 1. *)
Theorem ucb_policies_try_untried_arms_first :
  (forall (T : Type) (T_eq_dec : forall x y : T, {x = y} + {x <> y})
          (st : DLoRa.ArmStats T) (armSet : list T),
      (exists b, In b armSet /\ DLoRa.countOf T_eq_dec st b = 0%Z) ->
      (forall b, In b armSet -> DLoRa.countOf T_eq_dec st b <> 0%Z ->
         DLoRa.ucb_score (DLoRa.meanOf T_eq_dec st b)
                         (DLoRa.countOf T_eq_dec st b)
                         (DLoRa.totalSelections st) < DLoRa.DBL_MAX) ->
      exists a, DLoRa.SelectArm T_eq_dec st armSet = Some a
                /\ In a armSet /\ DLoRa.countOf T_eq_dec st a = 0%Z)
  /\ (forall (T : Type) (T_eq_dec : forall x y : T, {x = y} + {x <> y})
             (armSet : list T) (rewards : list R),
        NoDup armSet ->
        (List.length rewards <= List.length armSet)%nat ->
        (forall r, In r rewards ->
           r + DLoRa.C_WEIGHT_FACTOR * 65536 < DLoRa.DBL_MAX) ->
        DLoRa.play T_eq_dec armSet rewards (DLoRa.init_arms T_eq_dec armSet)
        = firstn (List.length rewards) armSet)
  /\ (forall b : QoC.BanditAlgorithm,
        (Z.of_nat (QoC.m_K b) < QoC.m_n b)%Z ->
        (exists i, (i < QoC.m_K b)%nat /\ QoC.T_at b i = 0%Z) ->
        (QoC.SelectChannelUCB b < QoC.m_K b)%nat
        /\ QoC.T_at b (QoC.SelectChannelUCB b) = 0%Z)
  /\ (forall (K : nat) (alpha beta lambda lambdaG : R)
             (observations : list (R * R)),
        (List.length observations <= K)%nat ->
        (Z.of_nat K < 2 ^ 32)%Z ->
        QoC.play (QoC.BanditAlgorithm_new K QoC.UCB alpha beta lambda lambdaG)
                 observations
        = seq 0 (List.length observations)).
Proof.
  split; [| split; [| split]].
  - intros T T_eq_dec st armSet Hex Hlow.
    destruct (SelectArm_first_untried T T_eq_dec st armSet Hex Hlow)
      as (a & l1 & l2 & Hsel & Hl & Ha & _).
    exists a. split; [exact Hsel |]. split; [| exact Ha].
    rewrite Hl. apply in_or_app. right. now left.
  - intros T T_eq_dec. apply play_forced_exploration.
  - intros b Hn (u & Hu & Hu0). unfold QoC.SelectChannelUCB.
    destruct (Z.leb_spec (QoC.m_n b) (Z.of_nat (QoC.m_K b))); [lia |].
    destruct (UCB_loop_first_untried b (seq 0 (QoC.m_K b)) NegInf 0%nat)
      as (l1 & l2 & Hl & H0 & _).
    { exists u. split; [apply in_seq; lia | exact Hu0]. }
    split; [| exact H0].
    assert (Hin : In (QoC.UCB_loop b (seq 0 (QoC.m_K b)) NegInf 0)
                     (seq 0 (QoC.m_K b))).
    { rewrite Hl at 2. apply in_or_app. right. now left. }
    apply in_seq in Hin. lia.
  - intros K alpha beta lambda lambdaG observations Hlen HK.
    apply play_UCB_forced_from; auto.
Qed.

(** The six spreading factors of D-LoRa are each tried once, in order,
    whatever the first six outcomes. *)
Example ucb_policies_try_untried_arms_first_witness :
  DLoRa.play Z.eq_dec DLoRa.SF_SET [1; 0; 0; 1; 1; 0]
             (DLoRa.init_arms Z.eq_dec DLoRa.SF_SET)
  = [7; 8; 9; 10; 11; 12]%Z.
Proof.
  apply (proj1 (proj2 ucb_policies_try_untried_arms_first) Z Z.eq_dec
               DLoRa.SF_SET [1; 0; 0; 1; 1; 0]).
  - repeat (constructor; [simpl; intuition lia |]). constructor.
  - simpl. lia.
  - intros r Hr. pose proof DBL_MAX_large.
    unfold DLoRa.C_WEIGHT_FACTOR.
    simpl in Hr. intuition (subst; lra).
Defined.

(** C2, counterexample: Epsilon-Greedy is a bandit policy of the repository
    that gives untried arms no priority.  After the first cycle of a fresh
    device (an exploiting draw), the second exploiting selection returns
    the arm sampled once, (920.6 MHz, -3 dBm), while the arm
    (921.0 MHz, -3 dBm) of the arm set has never been selected. *)
Lemma epsilon_greedy_repeats_a_sampled_arm :
  LoRaUCB1.SelectAndTransmit LoRaUCB1.default_globals LoRaUCB1.program_gateway
    (LoRaUCB1.LoRaDevice_new 0 "Epsilon-Greedy") LoRaUCB1.exploit_draws
  = Done LoRaUCB1.greedy_after_first_cycle
  /\ LoRaUCB1.SelectTransmissionParametersEpsilonGreedy
       LoRaUCB1.greedy_after_first_cycle LoRaUCB1.exploit_draws
     = (920.6%Q, (-3)%Z)
  /\ LoRaUCB1.selectionsCount
       (LoRaUCB1.stats_get
          (LoRaUCB1.m_ucbStats LoRaUCB1.greedy_after_first_cycle)
          (920.6%Q, (-3)%Z))
     = 1%Z
  /\ In (921.0%Q, (-3)%Z) LoRaUCB1.all_arms
  /\ LoRaUCB1.selectionsCount
       (LoRaUCB1.stats_get
          (LoRaUCB1.m_ucbStats LoRaUCB1.greedy_after_first_cycle)
          (921.0%Q, (-3)%Z))
     = 0%Z.
Proof.
  split; [exact greedy_first_cycle | exact greedy_second_selection].
Qed.

End ForcedExploration.
Section ToWPenalty.

Import ToW.
Local Open Scope Q_scope.














End ToWPenalty.
Section ZeroDenominators.

Local Open Scope Q_scope.

Lemma fdiv_defined : forall a b, ~ b == 0 -> fdiv a b = Some (a / b).
Proof.
  intros a b Hb. unfold fdiv.
  destruct (Qeq_bool b 0) eqn:E; [| reflexivity].
  apply Qeq_bool_iff in E. contradiction.
Qed.

Lemma Qltb_0_nonzero : forall q, Qltb 0 q = true -> ~ q == 0.
Proof.
  intros q H E. unfold Qltb in H. apply negb_true_iff in H.
  assert (Hle : q <= 0) by (rewrite E; apply Qle_refl).
  apply Qle_bool_iff in Hle. congruence.
Qed.

Lemma inject_Z_pos_nonzero : forall z, (0 <? z)%Z = true -> ~ inject_Z z == 0.
Proof.
  intros z H E. apply Z.ltb_lt in H.
  unfold Qeq, inject_Z in E. simpl in E. lia.
Qed.

Lemma option_scale_defined : forall x k,
  x <> None -> DLoRa.option_scale x k <> None.
Proof. intros [v |] k H; simpl; congruence. Qed.

Lemma packets_sent_counts : forall txs g,
  DLoRa.g_totalPacketsSent (fold_left DLoRa.SendPacket_accumulate txs g)
  == DLoRa.g_totalPacketsSent g + inject_Z (Z.of_nat (List.length txs)).
Proof.
  induction txs as [| t txs IH]; intro g.
  - simpl. unfold inject_Z. ring.
  - cbn [fold_left List.length]. rewrite IH.
    cbn [DLoRa.SendPacket_accumulate DLoRa.g_totalPacketsSent].
    rewrite Nat2Z.inj_succ. unfold Z.succ. rewrite inject_Z_plus. ring.
Qed.

Lemma no_packet_sent : forall txs,
  DLoRa.g_totalPacketsSent
    (fold_left DLoRa.SendPacket_accumulate txs DLoRa.initial_accumulators)
  == 0 ->
  txs = [].
Proof.
  intros txs H. rewrite packets_sent_counts in H.
  cbn [DLoRa.initial_accumulators DLoRa.g_totalPacketsSent] in H.
  rewrite Qplus_0_l in H.
  destruct txs as [| t txs]; [reflexivity |].
  exfalso. unfold Qeq, inject_Z in H. cbn [Qnum Qden List.length] in H. lia.
Qed.

End ZeroDenominators.

Section UntriedArmMean.

Import DLoRa.
Local Open Scope R_scope.

Variable T : Type.
Variable T_eq_dec : forall a b : T, {a = b} + {a <> b}.

Lemma untried_arm_mean : forall armSet (st : ArmStats T),
  reachable T_eq_dec armSet st ->
  forall a, countOf T_eq_dec st a = 0%Z -> meanOf T_eq_dec st a = 0.
Proof.
  intros armSet st H. induction H as [| st a r Hreach IH Hin Hr Hov]; intros b Hb.
  - now destruct (init_arms_zero T T_eq_dec armSet b) as [-> _].
  - destruct (T_eq_dec b a) as [-> | NE].
    + exfalso. rewrite countOf_UpdateArm_same in Hb.
      destruct (reachable_invariant T T_eq_dec armSet st Hreach a) as [_ Hc].
      rewrite wrap32_small in Hb by lia. lia.
    + rewrite meanOf_UpdateArm_other by assumption.
      rewrite countOf_UpdateArm_other in Hb by assumption.
      now apply IH.
Qed.

End UntriedArmMean.

Section AveragesAtZero.

Local Open Scope Q_scope.

(** C8: the averages a run derives are 0 when nothing was counted, and no
    division by zero occurs.  In the D-LoRa program every metric computed
    after the run is defined for every value of the accumulators, and all
    of them are 0 when no packet was sent; the PDR and the energy
    efficiency of the ToW algorithm are defined for every device, and 0
    for an unknown device, for a device without transmission and for a
    device without consumed energy; the mean reward of an arm that was
    never selected is 0 in the D-LoRa agent, and so are the mean reward and
    the mean quality of a channel that was never selected in the QoC
    algorithms. *)
Theorem averages_are_zero_without_data :
  (forall txs : list DLoRa.Transmission,
     let g := fold_left DLoRa.SendPacket_accumulate txs
                        DLoRa.initial_accumulators in
     DLoRa.g_totalPacketsSent g == 0 ->
     DLoRa.final_metrics g
     = DLoRa.Build_Metrics (Some 0) (Some 0) (Some 0) (Some 0)
                           (Some 0) (Some 0) (Some 0))
  /\ (forall g : DLoRa.Accumulators,
        DLoRa.pdr (DLoRa.final_metrics g) <> None
        /\ DLoRa.ee (DLoRa.final_metrics g) <> None
        /\ DLoRa.th (DLoRa.final_metrics g) <> None
        /\ DLoRa.avgToA (DLoRa.final_metrics g) <> None
        /\ DLoRa.avgRSSI (DLoRa.final_metrics g) <> None
        /\ DLoRa.avgSNR (DLoRa.final_metrics g) <> None
        /\ DLoRa.collisionRate (DLoRa.final_metrics g) <> None)
  /\ (forall (a : ToW.ToWAlgorithm) (deviceId : Z),
        (ToW.find_device (ToW.m_deviceStates a) deviceId = None ->
         ToW.GetPDR a deviceId = Some 0
         /\ ToW.GetEnergyEfficiency a deviceId = Some 0)
        /\ (forall s,
              ToW.find_device (ToW.m_deviceStates a) deviceId = Some s ->
              (ToW.totalTransmissions s = 0%Z ->
               ToW.GetPDR a deviceId = Some 0)
              /\ (ToW.totalEnergyConsumed s <= 0 ->
                  ToW.GetEnergyEfficiency a deviceId = Some 0))
        /\ ToW.GetPDR a deviceId <> None
        /\ ToW.GetEnergyEfficiency a deviceId <> None)
  /\ (forall (T : Type) (T_eq_dec : forall a b : T, {a = b} + {a <> b})
             (armSet : list T) (st : DLoRa.ArmStats T) (arm : T),
        DLoRa.reachable T_eq_dec armSet st ->
        DLoRa.countOf T_eq_dec st arm = 0%Z ->
        DLoRa.meanOf T_eq_dec st arm = 0%R)
  /\ (forall (b : QoC.BanditAlgorithm) (i : nat),
        QoC.consistent b -> (i < QoC.m_K b)%nat -> QoC.T_at b i = 0%Z ->
        QoC.R_at b i = 0%R /\ QoC.G_at b i = 0%R).
Proof.
  split; [| split; [| split; [| split]]].
  - intros txs g H. subst g. apply no_packet_sent in H. subst txs.
    reflexivity.
  - intro g. unfold DLoRa.final_metrics.
    cbn [DLoRa.pdr DLoRa.ee DLoRa.th DLoRa.avgToA DLoRa.avgRSSI DLoRa.avgSNR
         DLoRa.collisionRate].
    repeat split;
      match goal with
      | |- (if ?c then _ else _) <> None =>
          let E := fresh "E" in
          destruct c eqn:E; [| discriminate]
      end;
      try apply option_scale_defined;
      rewrite fdiv_defined;
      try discriminate;
      first [apply Qltb_0_nonzero; exact E
            | apply inject_Z_pos_nonzero; exact E].
  - intros a deviceId. unfold ToW.GetPDR, ToW.GetEnergyEfficiency.
    destruct (ToW.find_device (ToW.m_deviceStates a) deviceId) as [s |].
    + split; [discriminate |]. split; [| split].
      * intros s' Hs. injection Hs as <-. split.
        -- intro H0. now rewrite H0.
        -- intro H0. apply Qle_bool_iff in H0. now rewrite H0.
      * destruct (Z.eqb_spec (ToW.totalTransmissions s) 0); [discriminate |].
        rewrite fdiv_defined; [discriminate |].
        intro E. unfold Qeq, inject_Z in E. simpl in E. lia.
      * destruct (Qle_bool (ToW.totalEnergyConsumed s) 0) eqn:E;
          [discriminate |].
        assert (Hpos : ~ ToW.totalEnergyConsumed s == 0).
        { intro E0. assert (Hle : ToW.totalEnergyConsumed s <= 0)
            by (rewrite E0; apply Qle_refl).
          apply Qle_bool_iff in Hle. congruence. }
        rewrite fdiv_defined by (intro E1; vm_compute in E1; discriminate).
        rewrite fdiv_defined; [discriminate |].
        intro E1. apply Hpos.
        apply Qmult_integral in E1. destruct E1 as [E1 | E1]; [exact E1 |].
        vm_compute in E1. discriminate.
    + split; [now split |]. split; [| split]; discriminate.
  - intros T T_eq_dec armSet st arm Hreach.
    exact (untried_arm_mean T T_eq_dec armSet st Hreach arm).
  - intros b i Hb Hi HT.
    rewrite (QoC.cons_R b Hb i Hi), (QoC.cons_G b Hb i Hi), HT.
    now split.
Qed.

End AveragesAtZero.
Section UnknownAlgorithm.

Local Open Scope string_scope.







End UnknownAlgorithm.
(** ** The bandit of [DLoRaAgent] over the history of its updates *)

Section BanditHistory.

Import DLoRa.

Variable T : Type.
Variable T_eq_dec : forall x y : T, {x = y} + {x <> y}.

Section Means.
Local Open Scope R_scope.

Lemma rewards_of_cons_same : forall a r events,
  rewards_of T_eq_dec a ((a, r) :: events)
  = r :: rewards_of T_eq_dec a events.
Proof.
  intros a r events. unfold rewards_of. cbn [filter fst].
  destruct (T_eq_dec a a) as [_ | NE]; [reflexivity | contradiction].
Qed.

Lemma rewards_of_cons_other : forall a b r events,
  b <> a ->
  rewards_of T_eq_dec a ((b, r) :: events) = rewards_of T_eq_dec a events.
Proof.
  intros a b r events NE. unfold rewards_of. cbn [filter fst].
  destruct (T_eq_dec b a) as [E | _]; [contradiction | reflexivity].
Qed.

(** The invariant of the incremental mean: [mean * count] is the sum of
    the rewards given so far. *)
Lemma fold_UpdateArm_mean : forall events (st : ArmStats T) a (k : nat) total,
  countOf T_eq_dec st a = Z.of_nat k ->
  meanOf T_eq_dec st a * INR k = total ->
  (Z.of_nat (k + List.length events) < 2 ^ 32)%Z ->
  let st' :=
    fold_left (fun st ev => UpdateArm T_eq_dec st (fst ev) (snd ev))
              events st in
  let rs := rewards_of T_eq_dec a events in
  countOf T_eq_dec st' a = Z.of_nat (k + List.length rs)
  /\ meanOf T_eq_dec st' a * INR (k + List.length rs) = total + Rsum rs
  /\ (rs = [] -> meanOf T_eq_dec st' a = meanOf T_eq_dec st a).
Proof.
  induction events as [| [b r] events IH];
    intros st a k total Hc Hm Hlen st' rs.
  - subst st' rs. cbn. rewrite Nat.add_0_r.
    split; [exact Hc |]. split; [lra | reflexivity].
  - subst st' rs. cbn [fold_left fst snd].
    cbn [List.length] in Hlen.
    destruct (T_eq_dec b a) as [-> | NE].
    + rewrite rewards_of_cons_same. cbn [List.length Rsum].
      replace (k + S (List.length (rewards_of T_eq_dec a events)))%nat
        with (S k + List.length (rewards_of T_eq_dec a events))%nat by lia.
      replace (total + (r + Rsum (rewards_of T_eq_dec a events)))
        with ((total + r) + Rsum (rewards_of T_eq_dec a events)) by lra.
      destruct (IH (UpdateArm T_eq_dec st a r) a (S k) (total + r))
        as (H1 & H2 & _).
      * rewrite countOf_UpdateArm_same, Hc, wrap32_small by lia. lia.
      * rewrite meanOf_UpdateArm_same, Hc, wrap32_small by lia.
        replace (Z.of_nat k + 1)%Z with (Z.of_nat (S k)) by lia.
        rewrite <- INR_IZR_INZ.
        assert (Hk : 0 < INR (S k)) by (apply lt_0_INR; lia).
        rewrite S_INR in *. rewrite <- Hm. field. lra.
      * lia.
      * split; [exact H1 |]. split; [exact H2 | discriminate].
    + rewrite rewards_of_cons_other by assumption.
      destruct (IH (UpdateArm T_eq_dec st b r) a k total) as (H1 & H2 & H3).
      * now rewrite countOf_UpdateArm_other.
      * now rewrite meanOf_UpdateArm_other.
      * lia.
      * split; [exact H1 |]. split; [exact H2 |].
        intro Hnil. rewrite (H3 Hnil). now apply meanOf_UpdateArm_other.
Qed.

End Means.

Section Totals.
Local Open Scope Z_scope.

Lemma wrapped_sum_is_sum : forall (m : smap T Z) (a : Z),
  0 <= a < 2 ^ 32 ->
  fold_left (fun acc kv => wrap32 (acc + snd kv)) m a
  = wrap32 (a + fold_right Z.add 0 (map snd m)).
Proof.
  induction m as [| [k v] m IH]; intros a Ha.
  - cbn. rewrite Z.add_0_r. symmetry. now apply wrap32_small.
  - cbn [fold_left map fold_right snd].
    rewrite IH by apply wrap32_range.
    unfold wrap32. rewrite Zplus_mod_idemp_l. f_equal. lia.
Qed.

Lemma sum_smap_set : forall (m : smap T Z) k v,
  fold_right Z.add 0 (map snd (smap_set T_eq_dec m k v))
  = fold_right Z.add 0 (map snd m) - smap_get T_eq_dec 0 m k + v.
Proof.
  induction m as [| [k' v'] m IH]; intros k v.
  - cbn. lia.
  - cbn [smap_set smap_get]. destruct (T_eq_dec k k') as [E | NE].
    + cbn. lia.
    + cbn [map fold_right snd]. rewrite IH. lia.
Qed.

Lemma sum_init_arms : forall armSet,
  fold_right Z.add 0 (map snd (numSelections (init_arms T_eq_dec armSet))) = 0.
Proof.
  intro armSet. unfold init_arms.
  set (st0 := {| expectedRewards := []; numSelections := [] |}).
  assert (H0 : fold_right Z.add 0 (map snd (numSelections st0)) = 0
               /\ forall a, smap_get T_eq_dec 0 (numSelections st0) a = 0)
    by (split; reflexivity).
  revert H0. generalize st0. clear st0.
  induction armSet as [| x l IH]; intros st [Hs Hg]; [exact Hs |].
  cbn [fold_left]. apply IH. cbn [numSelections]. split.
  - rewrite sum_smap_set, Hs, Hg. reflexivity.
  - intro a. destruct (T_eq_dec a x) as [-> | NE].
    + apply smap_get_set_same.
    + rewrite smap_get_set_other by assumption. apply Hg.
Qed.

Lemma sum_after_updates : forall events (st : ArmStats T) (t : nat),
  fold_right Z.add 0 (map snd (numSelections st)) = Z.of_nat t ->
  (forall a, 0 <= countOf T_eq_dec st a <= Z.of_nat t) ->
  Z.of_nat (t + List.length events) < 2 ^ 32 ->
  fold_right Z.add 0
    (map snd (numSelections
                (fold_left (fun st ev => UpdateArm T_eq_dec st (fst ev) (snd ev))
                           events st)))
  = Z.of_nat (t + List.length events).
Proof.
  induction events as [| [a r] events IH]; intros st t Hs Hc Hlen.
  - cbn. now rewrite Nat.add_0_r.
  - cbn [fold_left fst snd List.length] in *.
    replace (t + S (List.length events))%nat
      with (S t + List.length events)%nat by lia.
    assert (Hnew : wrap32 (countOf T_eq_dec st a + 1)
                   = countOf T_eq_dec st a + 1).
    { apply wrap32_small. specialize (Hc a). lia. }
    apply IH.
    + cbn [UpdateArm numSelections]. rewrite sum_smap_set, Hs, Hnew.
      unfold countOf. lia.
    + intro b. destruct (T_eq_dec b a) as [-> | NE].
      * rewrite countOf_UpdateArm_same, Hnew. specialize (Hc a). lia.
      * rewrite countOf_UpdateArm_other by assumption. specialize (Hc b). lia.
    + lia.
Qed.

Lemma totalSelections_after_updates :
  forall (armSet : list T) (events : list (T * R)),
    Z.of_nat (List.length events) < 2 ^ 32 ->
    totalSelections (after_updates T_eq_dec armSet events)
    = Z.of_nat (List.length events).
Proof.
  intros armSet events Hlen. unfold totalSelections.
  rewrite wrapped_sum_is_sum by lia. unfold after_updates.
  rewrite (sum_after_updates events (init_arms T_eq_dec armSet) 0).
  - cbn [Nat.add]. rewrite Z.add_0_l. apply wrap32_small. lia.
  - apply sum_init_arms.
  - intro a. destruct (init_arms_zero T T_eq_dec armSet a) as [_ ->].
    cbn. lia.
  - exact Hlen.
Qed.

(** Updates with arms of the set and non-negative rewards keep the state
    reachable, as long as no counter can wrap. *)
Lemma reachable_fold : forall armSet events (st : ArmStats T) (k : nat),
  reachable T_eq_dec armSet st ->
  (forall b, countOf T_eq_dec st b <= Z.of_nat k) ->
  Z.of_nat (k + List.length events) + 1 < 2 ^ 32 ->
  (forall ev, In ev events -> In (fst ev) armSet /\ (0 <= snd ev)%R) ->
  reachable T_eq_dec armSet
    (fold_left (fun st ev => UpdateArm T_eq_dec st (fst ev) (snd ev))
               events st).
Proof.
  intros armSet events.
  induction events as [| [a r] events IH]; intros st k Hreach Hc Hlen Hev.
  - exact Hreach.
  - cbn [fold_left fst snd]. cbn [List.length] in Hlen.
    destruct (Hev (a, r) (or_introl eq_refl)) as [Ha Hr]. cbn [fst snd] in *.
    pose proof (reachable_invariant T T_eq_dec armSet st Hreach) as Hinv.
    apply (IH _ (S k)).
    + apply reach_update; try assumption. specialize (Hc a). lia.
    + intro b. destruct (T_eq_dec b a) as [-> | NE].
      * rewrite countOf_UpdateArm_same, wrap32_small.
        -- specialize (Hc a). lia.
        -- specialize (Hc a). destruct (Hinv a) as [_ Hrange]. lia.
      * rewrite countOf_UpdateArm_other by assumption.
        specialize (Hc b). lia.
    + lia.
    + intros ev Hin. apply Hev. now right.
Qed.

End Totals.

Local Open Scope R_scope.

(** C3: [SelectArm] of the D-LoRa agent, on the state reached by any
    history of updates (with arms of the set, non-negative rewards and
    fewer than 2^32 - 1 updates) in which every arm of the dimension has
    been selected.  The state is reachable; the total the function
    computes is [t], the number of selections recorded for the dimension,
    the counter of an arm the number of its selections and its mean reward
    the mean of its rewards; and the function returns the arm maximising
    [meanReward + c * sqrt (ln (t + 1) / (2 * selectionCount))], with [c]
    the fixed exploration weight; among arms of maximal score it returns
    the first listed. *)
Theorem SelectArm_maximises_ucb :
  forall (armSet : list T) (events : list (T * R)),
    armSet <> [] ->
    (forall ev, In ev events -> In (fst ev) armSet /\ 0 <= snd ev) ->
    (forall b, In b armSet -> rewards_of T_eq_dec b events <> []) ->
    (Z.of_nat (List.length events) + 1 < 2 ^ 32)%Z ->
    let st := after_updates T_eq_dec armSet events in
    let t := Z.of_nat (List.length events) in
    let selectionCount := fun b =>
      Z.of_nat (List.length (rewards_of T_eq_dec b events)) in
    let meanReward := fun b =>
      Rsum (rewards_of T_eq_dec b events) / IZR (selectionCount b) in
    let score := fun b =>
      meanReward b
      + C_WEIGHT_FACTOR
        * sqrt (ln (IZR (t + 1)) / (2 * IZR (selectionCount b))) in
    reachable T_eq_dec armSet st
    /\ totalSelections st = t
    /\ (forall b, In b armSet ->
                  (1 <= selectionCount b)%Z
                  /\ countOf T_eq_dec st b = selectionCount b
                  /\ meanOf T_eq_dec st b = meanReward b)
    /\ exists a l1 l2,
         SelectArm T_eq_dec st armSet = Some a
         /\ armSet = l1 ++ a :: l2
         /\ (forall b, In b armSet -> score b <= score a)
         /\ (forall b, In b l1 -> score b < score a).
Proof.
  intros armSet events Hne Hev Hall Hlen st t selectionCount meanReward score.
  assert (Hreach : reachable T_eq_dec armSet st).
  { unfold st, after_updates. apply (reachable_fold armSet events _ 0%nat).
    - apply reach_init.
    - intro b. destruct (init_arms_zero T T_eq_dec armSet b) as [_ ->].
      cbn. lia.
    - cbn [Nat.add]. exact Hlen.
    - exact Hev. }
  assert (Htot : totalSelections st = t).
  { unfold st, t. apply totalSelections_after_updates. lia. }
  assert (Hstat : forall b, In b armSet ->
                    (1 <= selectionCount b)%Z
                    /\ countOf T_eq_dec st b = selectionCount b
                    /\ meanOf T_eq_dec st b = meanReward b).
  { intros b Hb.
    destruct (init_arms_zero T T_eq_dec armSet b) as [Hm0 Hc0].
    destruct (fold_UpdateArm_mean events (init_arms T_eq_dec armSet) b 0 0)
      as (Hc & Hm & _).
    - exact Hc0.
    - rewrite Hm0. simpl. lra.
    - cbn [Nat.add]. lia.
    - fold (after_updates T_eq_dec armSet events) in Hc, Hm.
      fold st in Hc, Hm. cbn [Nat.add] in Hc, Hm.
      assert (Hpos : (1 <= selectionCount b)%Z).
      { unfold selectionCount. specialize (Hall b Hb).
        destruct (rewards_of T_eq_dec b events);
          [contradiction | cbn [List.length]; lia]. }
      split; [exact Hpos |]. split; [exact Hc |].
      unfold meanReward.
      assert (Hn : 1 <= IZR (selectionCount b)) by (apply (IZR_le 1), Hpos).
      apply (Rmult_eq_reg_r (IZR (selectionCount b))); [| lra].
      unfold selectionCount at 1. rewrite <- INR_IZR_INZ, Hm. field. lra. }
  split; [exact Hreach |]. split; [exact Htot |]. split; [exact Hstat |].
  destruct (SelectArm_maximises_on_reachable T T_eq_dec armSet st Hreach Hne)
    as (a & l1 & l2 & Hsel & Hl & Hmax & Hfirst).
  - intros b Hb. destruct (Hstat b Hb) as (H1 & -> & _). exact H1.
  - rewrite Htot. exact Hlen.
  - cbv zeta in Hmax, Hfirst. rewrite Htot in Hmax, Hfirst.
    assert (Hscore : forall b, In b armSet ->
              meanOf T_eq_dec st b
              + C_WEIGHT_FACTOR
                * sqrt (ln (IZR (t + 1)) / (2 * IZR (countOf T_eq_dec st b)))
              = score b).
    { intros b Hb. destruct (Hstat b Hb) as (_ & -> & ->). reflexivity. }
    assert (Ha : In a armSet) by (rewrite Hl; apply in_elt).
    exists a, l1, l2. split; [exact Hsel |]. split; [exact Hl |]. split.
    + intros b Hb. rewrite <- (Hscore b Hb), <- (Hscore a Ha).
      now apply Hmax.
    + intros b Hb.
      assert (Hb' : In b armSet)
        by (rewrite Hl; apply in_or_app; now left).
      rewrite <- (Hscore b Hb'), <- (Hscore a Ha). now apply Hfirst.
Qed.

End BanditHistory.

Lemma SelectArm_maximises_ucb_witness :
  [7; 8]%Z <> []
  /\ (forall ev, In ev [(7%Z, 1%R); (8%Z, 0%R)] ->
                 In (fst ev) [7; 8]%Z /\ (0 <= snd ev)%R)
  /\ (forall b, In b [7; 8]%Z ->
                DLoRa.rewards_of Z.eq_dec b [(7%Z, 1%R); (8%Z, 0%R)] <> [])
  /\ (Z.of_nat (List.length [(7%Z, 1%R); (8%Z, 0%R)]) + 1 < 2 ^ 32)%Z
  /\ DLoRa.totalSelections DLoRa.two_arm_state = 2%Z
  /\ exists a, DLoRa.SelectArm Z.eq_dec DLoRa.two_arm_state [7; 8]%Z = Some a.
Proof.
  assert (H1 : [7; 8]%Z <> []) by discriminate.
  assert (H2 : forall ev, In ev [(7%Z, 1%R); (8%Z, 0%R)] ->
                          In (fst ev) [7; 8]%Z /\ (0 <= snd ev)%R).
  { intros ev [<- | [<- | []]]; cbn [fst snd In]; split; auto; lra. }
  assert (H3 : forall b, In b [7; 8]%Z ->
                 DLoRa.rewards_of Z.eq_dec b [(7%Z, 1%R); (8%Z, 0%R)] <> []).
  { intros b [<- | [<- | []]]; discriminate. }
  assert (H4 : (Z.of_nat (List.length [(7%Z, 1%R); (8%Z, 0%R)]) + 1
                < 2 ^ 32)%Z) by (simpl; lia).
  split; [exact H1 |]. split; [exact H2 |]. split; [exact H3 |].
  split; [exact H4 |].
  destruct (SelectArm_maximises_ucb Z Z.eq_dec [7; 8]%Z
              [(7%Z, 1%R); (8%Z, 0%R)] H1 H2 H3 H4)
    as (_ & Htot & _ & a & _ & _ & Hsel & _).
  split; [exact Htot |].
  exists a. exact Hsel.
Defined.
(* ================================================================= *)
(** * Part III: further properties of the programs *)
(* ================================================================= *)

Section RunningMean.

Import DLoRa.
Local Open Scope R_scope.

Variable T : Type.
Variable T_eq_dec : forall x y : T, {x = y} + {x <> y}.

(** X1: [UpdateArm] keeps the running mean.  After any sequence of fewer
    than 2^32 updates on a fresh agent, the count of an arm is the number
    of updates it received and its expected reward is the arithmetic mean
    of the rewards of those updates (0 when it received none). *)
Theorem UpdateArm_running_mean :
  forall (armSet : list T) (events : list (T * R)) (a : T),
    (Z.of_nat (List.length events) < 2 ^ 32)%Z ->
    let st := after_updates T_eq_dec armSet events in
    let rs := rewards_of T_eq_dec a events in
    countOf T_eq_dec st a = Z.of_nat (List.length rs)
    /\ (rs <> [] -> meanOf T_eq_dec st a = Rsum rs / INR (List.length rs))
    /\ (rs = [] -> meanOf T_eq_dec st a = 0).
Proof.
  intros armSet events a Hlen st rs.
  destruct (init_arms_zero T T_eq_dec armSet a) as [Hm0 Hc0].
  destruct (fold_UpdateArm_mean T T_eq_dec events (init_arms T_eq_dec armSet) a 0 0)
    as (Hc & Hm & Hnil).
  - exact Hc0.
  - rewrite Hm0. simpl. lra.
  - exact Hlen.
  - fold (after_updates T_eq_dec armSet events) in Hc, Hm, Hnil.
    fold st in Hc, Hm, Hnil. fold rs in Hc, Hm, Hnil.
    cbn [Nat.add] in Hc, Hm.
    split; [exact Hc |]. split.
    + intro Hne.
      assert (Hpos : 0 < INR (List.length rs)).
      { apply lt_0_INR. destruct rs; [contradiction | simpl; lia]. }
      apply (Rmult_eq_reg_r (INR (List.length rs))); [| lra].
      rewrite Hm. field. lra.
    + intro E. rewrite (Hnil E). exact Hm0.
Qed.

End RunningMean.

Lemma UpdateArm_running_mean_witness :
  (Z.of_nat (List.length [(7%Z, 1%R); (8%Z, 0%R); (7%Z, 0%R)]) < 2 ^ 32)%Z
  /\ DLoRa.countOf Z.eq_dec
       (DLoRa.after_updates Z.eq_dec [7%Z; 8%Z]
          [(7%Z, 1%R); (8%Z, 0%R); (7%Z, 0%R)]) 7%Z
     = 2%Z.
Proof.
  assert (H : (Z.of_nat (List.length [(7%Z, 1%R); (8%Z, 0%R); (7%Z, 0%R)])
               < 2 ^ 32)%Z) by (simpl; lia).
  split; [exact H |].
  exact (proj1 (UpdateArm_running_mean Z Z.eq_dec [7%Z; 8%Z]
                  [(7%Z, 1%R); (8%Z, 0%R); (7%Z, 0%R)] 7%Z H)).
Defined.
Section DLoRaRewards.

Import DLoRa.
Local Open Scope Q_scope.

Lemma weighted_bonus : forall b x c,
  0 <= c <= 1 ->
  b <= (if Qltb 0 x then b + x * c else b) <= b + Qmax 0 x.
Proof.
  intros b x c [Hc0 Hc1].
  pose proof (Q.le_max_l 0 x) as Hl. pose proof (Q.le_max_r 0 x) as Hr.
  destruct (Qltb 0 x) eqn:E.
  - apply Qltb_true in E. split; Lqa.nra.
  - split; Lqa.lra.
Qed.

Lemma Qpower_2_pos : forall z, 0 < Qpower 2 z.
Proof. intro z. apply Qpower_0_lt. reflexivity. Qed.

Lemma sum_powers_ge : forall (l : list Z) (a : Q),
  a <= fold_left (fun acc s => acc + Qpower 2 s) l a.
Proof.
  induction l as [| x l IH]; intro a; cbn [fold_left].
  - apply Qle_refl.
  - apply Qle_trans with (a + Qpower 2 x); [| apply IH].
    pose proof (Qpower_2_pos x). Lqa.lra.
Qed.

Lemma sum_powers_ge_member : forall (l : list Z) (a : Q) (sf : Z),
  In sf l ->
  a + Qpower 2 sf <= fold_left (fun acc s => acc + Qpower 2 s) l a.
Proof.
  induction l as [| x l IH]; intros a sf Hin; [destruct Hin |].
  cbn [fold_left]. destruct Hin as [-> | Hin].
  - apply sum_powers_ge.
  - apply Qle_trans with (a + Qpower 2 x + Qpower 2 sf); [| now apply IH].
    pose proof (Qpower_2_pos x). Lqa.lra.
Qed.

(** The share of an arm in the sum of the powers of two of its set. *)
Lemma power_share_unit : forall (sfSet : list Z) (sf : Z),
  In sf sfSet ->
  0 <= Qpower 2 sf / fold_left (fun acc s => acc + Qpower 2 s) sfSet 0 <= 1.
Proof.
  intros sfSet sf Hin.
  pose proof (sum_powers_ge_member sfSet 0 sf Hin) as Hge.
  pose proof (Qpower_2_pos sf) as Hpos.
  set (total := fold_left (fun acc s => acc + Qpower 2 s) sfSet 0) in *.
  assert (Ht : 0 < total) by Lqa.lra.
  split.
  - apply Qle_shift_div_l; [exact Ht | Lqa.lra].
  - apply Qle_shift_div_r; [exact Ht | Lqa.lra].
Qed.

Lemma runtime_SF_SET_cases : forall spreadingFactor : Z,
  (spreadingFactor <= 0 -> runtime_SF_SET spreadingFactor = SF_SET)%Z
  /\ (0 < spreadingFactor < 2 ^ 31 ->
      runtime_SF_SET spreadingFactor = [spreadingFactor])%Z.
Proof.
  intro sp. unfold runtime_SF_SET. split; intro H.
  - destruct (Z.ltb_spec 0 sp); [lia | reflexivity].
  - destruct (Z.ltb_spec 0 sp); [| lia].
    unfold wrap_int. rewrite Z.mod_small by lia. f_equal. lia.
Qed.

(** X2: the rewards of the D-LoRa agent, for the set of spreading factors
    of the run ([SF_SET], or the one factor the command line fixes, here
    up to 1023 so that its power of two is a double) and parameters of the
    sets.  The reward of each dimension is the success indicator plus a
    bonus between 0 and the (positive part of the) weight of the variant;
    with a fixed spreading factor the bonus of the spreading factor is the
    whole weight; the reward of the carrier frequency is the indicator
    itself.  Rewards are never negative. *)
Theorem rewards_within_weights :
  forall (w : Weights) (spreadingFactor sf : Z) (bw cf tp : Q)
         (success : bool),
    (0 <= spreadingFactor <= 1023)%Z ->
    In sf (runtime_SF_SET spreadingFactor) -> In bw BW_SET -> In tp TP_SET ->
    let sfSet := runtime_SF_SET spreadingFactor in
    let b := if success then 1 else 0 in
    0 <= b
    /\ b <= CalculateRewardSF w sfSet sf success <= b + Qmax 0 (g_xi w)
    /\ ((0 < spreadingFactor)%Z ->
        sf = spreadingFactor
        /\ CalculateRewardSF w sfSet sf success == b + Qmax 0 (g_xi w))
    /\ b <= CalculateRewardBW w bw success <= b + Qmax 0 (g_zeta w)
    /\ CalculateRewardCF cf success = b
    /\ b <= CalculateRewardTP w tp success <= b + Qmax 0 (g_eta w).
Proof.
  intros w sp sf bw cf tp success Hsp Hsf Hbw Htp sfSet b.
  split; [subst b; destruct success; discriminate |].
  split; [| split; [| split; [| split; [reflexivity |]]]].
  - unfold CalculateRewardSF. cbv zeta. apply weighted_bonus.
    apply power_share_unit. exact Hsf.
  - intro Hfix.
    assert (E : sfSet = [sp])
      by (apply (proj2 (runtime_SF_SET_cases sp)); lia).
    assert (Esf : sf = sp).
    { fold sfSet in Hsf. rewrite E in Hsf.
      destruct Hsf as [H | []]. now symmetry. }
    split; [exact Esf |]. rewrite E, Esf.
    unfold CalculateRewardSF. cbv zeta. cbn [fold_left].
    pose proof (Qpower_2_pos sp) as Hpos.
    set (p := Qpower 2 sp) in *. subst b.
    set (r := if success then 1 else 0).
    destruct (Qltb 0 (g_xi w)) eqn:Exi.
    + apply Qltb_true in Exi.
      rewrite (Q.max_r 0 (g_xi w)) by (apply Qlt_le_weak; exact Exi).
      field. intro Hz. rewrite Hz in Hpos. exact (Qlt_irrefl 0 Hpos).
    + apply Qltb_false in Exi.
      rewrite (Q.max_l 0 (g_xi w)) by exact Exi. ring.
  - unfold CalculateRewardBW. cbv zeta. apply weighted_bonus.
    unfold BW_SET in Hbw. cbn [In] in Hbw.
    repeat (destruct Hbw as [<- | Hbw];
            [vm_compute; split; discriminate |]).
    destruct Hbw.
  - unfold CalculateRewardTP. cbv zeta. apply weighted_bonus.
    unfold TP_SET in Htp. cbn [In] in Htp.
    repeat (destruct Htp as [<- | Htp];
            [vm_compute; split; discriminate |]).
    destruct Htp.
Qed.

Lemma rewards_within_weights_witness :
  (0 <= 9 <= 1023)%Z
  /\ In 9%Z (runtime_SF_SET 9) /\ In 125000 BW_SET /\ In 2 TP_SET
  /\ CalculateRewardSF (Build_Weights 10 10 0) (runtime_SF_SET 9) 9 true
     == 1 + Qmax 0 10.
Proof.
  assert (H0 : (0 <= 9 <= 1023)%Z) by lia.
  assert (H1 : In 9%Z (runtime_SF_SET 9)) by (simpl; tauto).
  assert (H2 : In 125000 BW_SET) by (simpl; tauto).
  assert (H3 : In 2 TP_SET) by (simpl; tauto).
  split; [exact H0 |]. split; [exact H1 |]. split; [exact H2 |].
  split; [exact H3 |].
  exact (proj2 (proj1 (proj2 (proj2
           (rewards_within_weights (Build_Weights 10 10 0) 9 9 125000
                                   470100000 2 true H0 H1 H2 H3)))
           ltac:(reflexivity))).
Defined.

End DLoRaRewards.

Section DLoRaCollision.

Import DLoRa.
Local Open Scope Q_scope.

Lemma Qltb_Qabs_sym : forall a b c,
  Qltb (Qabs (a - b)) c = Qltb (Qabs (b - a)) c.
Proof.
  intros a b c.
  assert (E : Qabs (a - b) == Qabs (b - a)).
  { rewrite <- Qabs_opp. apply Qabs_wd. ring. }
  destruct (Qltb (Qabs (a - b)) c) eqn:E1; symmetry.
  - apply Qltb_true. apply Qltb_true in E1. now rewrite <- E.
  - apply Qltb_false. apply Qltb_false in E1. now rewrite <- E.
Qed.

(** X3: [CheckCollision].  Two transmissions whose frequencies are 1 MHz
    or more apart never collide; two transmissions with the same spreading
    factor less than 1 MHz apart always collide; spreading factors that
    differ by more than 2 never collide; the draw decides otherwise, with
    probability 0.3 for a difference of at most 1 and 0.1 for a difference
    of 2; and the function is symmetric in the two transmissions. *)
Theorem CheckCollision_cases :
  (forall sf1 cf1 sf2 cf2 u,
      1000000 <= Qabs (cf1 - cf2) ->
      CheckCollision sf1 cf1 sf2 cf2 u = false)
  /\ (forall sf cf1 cf2 u,
        Qabs (cf1 - cf2) < 1000000 ->
        CheckCollision sf cf1 sf cf2 u = true)
  /\ (forall sf1 cf1 sf2 cf2 u,
        In sf1 SF_SET -> In sf2 SF_SET ->
        Qabs (cf1 - cf2) < 1000000 ->
        CheckCollision sf1 cf1 sf2 cf2 u
        = if (sf1 =? sf2)%Z then true
          else if (Z.abs (sf1 - sf2) <=? 1)%Z then Qltb u 0.3
          else if (Z.abs (sf1 - sf2) <=? 2)%Z then Qltb u 0.1
          else false)
  /\ (forall sf1 cf1 sf2 cf2 u,
        In sf1 SF_SET -> In sf2 SF_SET ->
        CheckCollision sf1 cf1 sf2 cf2 u = CheckCollision sf2 cf2 sf1 cf1 u).
Proof.
  assert (Hsmall : forall sf1 sf2, In sf1 SF_SET -> In sf2 SF_SET ->
            Z.abs (wrap_int (sf1 - sf2)) = Z.abs (sf1 - sf2)).
  { intros sf1 sf2 H1 H2. unfold SF_SET in H1, H2. cbn [In] in H1, H2.
    repeat (destruct H1 as [<- | H1]; [| try contradiction]);
      repeat (destruct H2 as [<- | H2]; [| try contradiction]);
      reflexivity. }
  split; [| split; [| split]].
  - intros sf1 cf1 sf2 cf2 u H. unfold CheckCollision.
    apply Qltb_false in H. rewrite H, andb_false_r. reflexivity.
  - intros sf cf1 cf2 u H. unfold CheckCollision.
    apply Qltb_true in H. now rewrite H, Z.eqb_refl.
  - intros sf1 cf1 sf2 cf2 u H1 H2 H. unfold CheckCollision. cbv zeta.
    apply Qltb_true in H. rewrite H, andb_true_r.
    rewrite (Hsmall sf1 sf2 H1 H2). reflexivity.
  - intros sf1 cf1 sf2 cf2 u H1 H2. unfold CheckCollision. cbv zeta.
    rewrite (Qltb_Qabs_sym cf2 cf1), (Z.eqb_sym sf2 sf1).
    rewrite (Hsmall sf1 sf2 H1 H2), (Hsmall sf2 sf1 H2 H1).
    replace (sf2 - sf1)%Z with (- (sf1 - sf2))%Z by lia.
    now rewrite Z.abs_opp.
Qed.

End DLoRaCollision.

Section DLoRaBaselines.

Import DLoRa.
Local Open Scope Q_scope.

Ltac split_Qltb :=
  repeat match goal with
         | |- context [Qltb ?a ?b] =>
             let E := fresh "E" in
             destruct (Qltb a b) eqn:E;
             [apply Qltb_true in E | apply Qltb_false in E]
         end.

(** X4: the ADR baseline chooses the spreading factor by distance: a node
    that is farther from the gateway never gets a smaller spreading
    factor, the factor is between 7 and 12 whatever set of spreading
    factors the run uses (7 below 500 m, 12 from 1700 m on), and bandwidth
    and power are the first entries of their sets, 125 kHz and 2 dBm, the
    minimum power. *)
Theorem ADR_spreading_factor_by_distance :
  forall (d1 d2 : Q) (i1 i2 : nat),
    d1 <= d2 ->
    let sf d i := fst (fst (fst (ADRAlgorithm_SelectParameters (Some d) i))) in
    let bw d i := snd (fst (fst (ADRAlgorithm_SelectParameters (Some d) i))) in
    let tp d i := snd (ADRAlgorithm_SelectParameters (Some d) i) in
    (sf d1 i1 <= sf d2 i2)%Z
    /\ (7 <= sf d1 i1 <= 12)%Z
    /\ (d1 < 500 -> sf d1 i1 = 7%Z)
    /\ (1700 <= d1 -> sf d1 i1 = 12%Z)
    /\ bw d1 i1 = 125000
    /\ tp d1 i1 = 2
    /\ Forall (fun p => tp d1 i1 <= p) TP_SET.
Proof.
  intros d1 d2 i1 i2 Hd sf bw tp. subst sf bw tp.
  unfold ADRAlgorithm_SelectParameters. cbn [fst snd].
  split; [| split; [| split; [| split;
    [| split; [reflexivity | split; [reflexivity |]]]]]].
  - split_Qltb; try (exfalso; Lqa.lra); lia.
  - split_Qltb; lia.
  - intro H. apply Qltb_true in H. rewrite H. reflexivity.
  - intro H. split_Qltb; try reflexivity; exfalso; Lqa.lra.
  - unfold TP_SET. cbn [nth]. repeat constructor; discriminate.
Qed.

Lemma ADR_spreading_factor_by_distance_witness :
  300 <= 1500
  /\ Z.le (fst (fst (fst (ADRAlgorithm_SelectParameters (Some 300) 0))))
          (fst (fst (fst (ADRAlgorithm_SelectParameters (Some 1500) 0)))).
Proof.
  assert (H : 300 <= 1500) by discriminate.
  split; [exact H |].
  exact (proj1 (ADR_spreading_factor_by_distance 300 1500 0 0 H)).
Defined.

End DLoRaBaselines.
Section DLoRaParameterSets.

Import DLoRa.
Local Open Scope Q_scope.

(** X5: the parameters the baseline algorithms return, for every draw of
    their random variables and every set of spreading factors the run
    uses.  The random and the round-robin choice take the spreading factor
    from the set of the run (for every in-range index and every node id);
    the ADR choice (for every distance, also a missing one) and the
    RS-LoRa choice (for every pair of uniform draws) take it between 7 and
    12 whatever that set is, so that with a fixed spreading factor of 9
    the ADR choice at 300 m, 7, is not in the set of the run.  Bandwidth,
    frequency and power are always of their sets. *)
Theorem baseline_parameters_in_sets :
  let sfOf (p : Parameters) := fst (fst (fst p)) in
  let valid (p : Parameters) :=
    In (snd (fst (fst p))) BW_SET /\ In (snd (fst p)) CF_SET
    /\ In (snd p) TP_SET in
  (forall sfSet iSF iBW iCF iTP,
      (iSF < List.length sfSet)%nat -> (iBW < List.length BW_SET)%nat ->
      (iCF < List.length CF_SET)%nat -> (iTP < List.length TP_SET)%nat ->
      In (sfOf (RandomAlgorithm_SelectParameters sfSet iSF iBW iCF iTP)) sfSet
      /\ valid (RandomAlgorithm_SelectParameters sfSet iSF iBW iCF iTP))
  /\ (forall sfSet nodeId iBW iTP,
        sfSet <> [] ->
        (iBW < List.length BW_SET)%nat -> (iTP < List.length TP_SET)%nat ->
        In (sfOf (RoundRobinAlgorithm_SelectParameters sfSet nodeId iBW iTP))
           sfSet
        /\ valid (RoundRobinAlgorithm_SelectParameters sfSet nodeId iBW iTP))
  /\ (forall distance iCF,
        (iCF < List.length CF_SET)%nat ->
        (7 <= sfOf (ADRAlgorithm_SelectParameters distance iCF) <= 12)%Z
        /\ valid (ADRAlgorithm_SelectParameters distance iCF))
  /\ (forall rand randBW iCF iTP,
        (iCF < List.length CF_SET)%nat -> (iTP < List.length TP_SET)%nat ->
        (7 <= sfOf (RSLoRaAlgorithm_SelectParameters rand randBW iCF iTP)
         <= 12)%Z
        /\ valid (RSLoRaAlgorithm_SelectParameters rand randBW iCF iTP))
  /\ (forall spreadingFactor,
        runtime_SF_SET spreadingFactor <> []
        /\ ((spreadingFactor <= 0)%Z ->
            runtime_SF_SET spreadingFactor = SF_SET)
        /\ ((0 < spreadingFactor < 2 ^ 31)%Z ->
            runtime_SF_SET spreadingFactor = [spreadingFactor]))
  /\ ~ In (sfOf (ADRAlgorithm_SelectParameters (Some 300) 0))
          (runtime_SF_SET 9).
Proof.
  cbv zeta. split; [| split; [| split; [| split; [| split]]]].
  - intros sfSet iSF iBW iCF iTP H1 H2 H3 H4.
    unfold RandomAlgorithm_SelectParameters. cbn [fst snd].
    repeat split; now apply nth_In.
  - intros sfSet nodeId iBW iTP Hne H2 H4.
    unfold RoundRobinAlgorithm_SelectParameters. cbn [fst snd].
    repeat split; try now apply nth_In.
    + apply nth_In.
      assert (Hlen : (0 < Z.of_nat (List.length sfSet))%Z).
      { destruct sfSet; [contradiction | cbn [List.length]; lia]. }
      pose proof (Z.mod_pos_bound nodeId (Z.of_nat (List.length sfSet)) Hlen).
      lia.
    + apply nth_In.
      pose proof (Z.mod_pos_bound nodeId (Z.of_nat (List.length CF_SET))) as H.
      cbn in *. lia.
  - intros [distance |] iCF H3; unfold ADRAlgorithm_SelectParameters;
      cbn [fst snd].
    + repeat split;
        try (apply nth_In; assumption || (cbn; lia));
        repeat match goal with
               | |- context [Qltb ?a ?b] => destruct (Qltb a b)
               end; lia.
    + repeat split; try (apply nth_In; cbn; lia); lia.
  - intros rand randBW iCF iTP H3 H4.
    unfold RSLoRaAlgorithm_SelectParameters. cbn [fst snd].
    repeat split; try now apply nth_In.
    + repeat match goal with
             | |- context [Qltb ?a ?b] => destruct (Qltb a b)
             end; lia.
    + repeat match goal with
             | |- context [Qltb ?a ?b] => destruct (Qltb a b)
             end; lia.
    + repeat match goal with
             | |- context [Qltb ?a ?b] => destruct (Qltb a b)
             end; apply nth_In; cbn; lia.
  - intro sp. split; [| exact (runtime_SF_SET_cases sp)].
    unfold runtime_SF_SET. destruct (0 <? sp)%Z; discriminate.
  - cbn. intros [H | []]. discriminate H.
Qed.

End DLoRaParameterSets.

Section DLoRaDeliveryRatio.

Import DLoRa.
Local Open Scope Q_scope.

Lemma received_le_sent : forall txs g,
  0 <= g_totalPacketsReceived g <= g_totalPacketsSent g ->
  0 <= g_totalPacketsReceived (fold_left SendPacket_accumulate txs g)
    <= g_totalPacketsSent (fold_left SendPacket_accumulate txs g).
Proof.
  induction txs as [| t txs IH]; intros g H; [exact H |].
  cbn [fold_left]. apply IH.
  unfold SendPacket_accumulate.
  cbn [g_totalPacketsReceived g_totalPacketsSent].
  destruct (tx_success t); Lqa.lra.
Qed.

(** X6: the packet delivery ratio the D-LoRa program reports is a
    percentage.  Whatever the transmissions of the run were, the PDR is
    defined, lies between 0 and 100, and is 100 times the ratio of the
    received to the sent packets when a packet was sent. *)
Theorem pdr_is_a_percentage :
  forall txs : list Transmission,
    let g := fold_left SendPacket_accumulate txs initial_accumulators in
    exists p,
      pdr (final_metrics g) = Some p
      /\ 0 <= p <= 100
      /\ g_totalPacketsSent g == inject_Z (Z.of_nat (List.length txs))
      /\ (txs <> [] ->
          p == g_totalPacketsReceived g / g_totalPacketsSent g * 100).
Proof.
  intros txs g.
  assert (Hrs : 0 <= g_totalPacketsReceived g <= g_totalPacketsSent g).
  { apply received_le_sent. cbn. split; discriminate. }
  assert (Hsent : g_totalPacketsSent g == inject_Z (Z.of_nat (List.length txs))).
  { subst g. rewrite packets_sent_counts. cbn. ring. }
  unfold final_metrics. cbn [pdr].
  destruct (Qltb 0 (g_totalPacketsSent g)) eqn:E.
  - apply Qltb_true in E.
    rewrite fdiv_defined by (intro E0; rewrite E0 in E; discriminate).
    cbn [option_scale]. eexists. split; [reflexivity |].
    assert (H1 : 0 <= g_totalPacketsReceived g / g_totalPacketsSent g).
    { apply Qle_shift_div_l; [exact E | Lqa.lra]. }
    assert (H2 : g_totalPacketsReceived g / g_totalPacketsSent g <= 1).
    { apply Qle_shift_div_r; [exact E | Lqa.lra]. }
    split; [split; Lqa.lra |]. split; [exact Hsent |].
    intros _. reflexivity.
  - exists 0. split; [reflexivity |]. split; [split; discriminate |].
    split; [exact Hsent |].
    intro Hne. exfalso. apply Qltb_false in E. rewrite Hsent in E.
    destruct txs as [| t txs]; [contradiction |].
    unfold Qle, inject_Z in E. cbn [Qnum Qden List.length] in E. lia.
Qed.

End DLoRaDeliveryRatio.

Section DLoRaEnergy.

Import DLoRa.
Local Open Scope R_scope.

(** X7: the transmission energy of the D-LoRa program.  It is positive
    for a positive time on air, grows strictly with the transmit power and
    with the time on air, equals the time on air at 0 dBm, and is
    multiplied by 10 by 10 dB more power. *)
Theorem energy_grows_with_power :
  (forall tp toa, 0 < toa -> 0 < CalculateEnergyConsumption tp toa)
  /\ (forall tp1 tp2 toa,
        0 < toa -> tp1 < tp2 ->
        CalculateEnergyConsumption tp1 toa < CalculateEnergyConsumption tp2 toa)
  /\ (forall tp toa1 toa2,
        toa1 < toa2 ->
        CalculateEnergyConsumption tp toa1 < CalculateEnergyConsumption tp toa2)
  /\ (forall toa, CalculateEnergyConsumption 0 toa = toa)
  /\ (forall tp toa,
        CalculateEnergyConsumption (tp + 10) toa
        = 10 * CalculateEnergyConsumption tp toa).
Proof.
  assert (Hpos : forall x, 0 < Rpower 10 x)
    by (intro x; unfold Rpower; apply exp_pos).
  unfold CalculateEnergyConsumption. cbv zeta.
  split; [| split; [| split; [| split]]].
  - intros tp toa H. apply Rmult_lt_0_compat; [apply Hpos | exact H].
  - intros tp1 tp2 toa H Htp. apply Rmult_lt_compat_r; [exact H |].
    apply Rpower_lt; lra.
  - intros tp toa1 toa2 H. apply Rmult_lt_compat_l; [apply Hpos | exact H].
  - intro toa. replace (0 / 10) with 0 by lra.
    rewrite Rpower_O by lra. lra.
  - intros tp toa. replace ((tp + 10) / 10) with (tp / 10 + 1) by lra.
    rewrite Rpower_plus, Rpower_1 by lra. ring.
Qed.

End DLoRaEnergy.

Section DLoRaTimeOnAir.

Import DLoRa.
Local Open Scope Q_scope.

(** X8: the time on air of the D-LoRa program, for a positive bandwidth.
    It is positive, at least the 20.25 symbols of the preamble and the
    fixed part of the payload; for a positive spreading factor it does not
    decrease when the payload grows; and doubling the bandwidth halves
    it. *)
Theorem time_on_air_properties :
  (forall sf bw ps,
      0 < bw ->
      0 < CalculateToA sf bw ps
      /\ 20.25 * (Qpower 2 sf / bw) <= CalculateToA sf bw ps)
  /\ (forall sf bw ps1 ps2,
        0 < bw -> (0 < sf)%Z -> (ps1 <= ps2)%Z ->
        CalculateToA sf bw ps1 <= CalculateToA sf bw ps2)
  /\ (forall sf bw ps,
        0 < bw ->
        CalculateToA sf (2 * bw) ps == CalculateToA sf bw ps / 2).
Proof.
  split; [| split].
  - intros sf bw ps Hbw. unfold CalculateToA. cbv zeta.
    set (n := Qmax _ 0).
    assert (Hn : 0 <= n) by apply Q.le_max_r.
    assert (Hs : 0 < Qpower 2 sf / bw).
    { apply Qlt_shift_div_l; [exact Hbw |]. rewrite Qmult_0_l.
      apply Qpower_2_pos. }
    split; Lqa.nra.
  - intros sf bw ps1 ps2 Hbw Hsf Hps. unfold CalculateToA. cbv zeta.
    assert (Hs : 0 < Qpower 2 sf / bw).
    { apply Qlt_shift_div_l; [exact Hbw |]. rewrite Qmult_0_l.
      apply Qpower_2_pos. }
    assert (Ht2 : 0 < 4 * (inject_Z sf - 2 * 0)).
    { assert (inject_Z 0 < inject_Z sf) by (rewrite <- Zlt_Qlt; exact Hsf).
      change (inject_Z 0) with 0 in *. Lqa.lra. }
    set (t2 := 4 * (inject_Z sf - 2 * 0)) in *.
    set (a1 := 8 * inject_Z ps1 - 4 * inject_Z sf + 28 + 16 * 1 - 20 * 0).
    set (a2 := 8 * inject_Z ps2 - 4 * inject_Z sf + 28 + 16 * 1 - 20 * 0).
    assert (Ha : a1 <= a2).
    { subst a1 a2. assert (inject_Z ps1 <= inject_Z ps2)
        by (rewrite <- Zle_Qle; exact Hps). Lqa.lra. }
    assert (Hd : a1 / t2 <= a2 / t2).
    { unfold Qdiv. apply Qmult_le_compat_r; [exact Ha |].
      apply Qlt_le_weak, Qinv_lt_0_compat, Ht2. }
    assert (Hc : inject_Z (Qceiling (a1 / t2)) <= inject_Z (Qceiling (a2 / t2))).
    { rewrite <- Zle_Qle. apply Qceiling_resp_le, Hd. }
    assert (Hm : Qmax (inject_Z (Qceiling (a1 / t2)) * (1 + 4)) 0
                 <= Qmax (inject_Z (Qceiling (a2 / t2)) * (1 + 4)) 0).
    { apply Q.max_le_compat_r. Lqa.lra. }
    Lqa.nra.
  - intros sf bw ps Hbw. unfold CalculateToA. cbv zeta.
    field. intro E. rewrite E in Hbw. discriminate.
Qed.

End DLoRaTimeOnAir.
Section QoCRunningMeans.

Import QoC.
Local Open Scope R_scope.

Lemma after_history_samples : forall events b i,
  List.length (m_rewards b) = m_K b ->
  List.length (m_qualities b) = m_K b ->
  (forall ev, In ev events -> (fst (fst ev) < m_K b)%nat) ->
  nth i (m_rewards (after_history b events)) []
  = nth i (m_rewards b) [] ++ rewards_on i events
  /\ nth i (m_qualities (after_history b events)) []
     = nth i (m_qualities b) [] ++ qualities_on i events.
Proof.
  induction events as [| [[c r] q] events IH]; intros b i Hr Hq Hch.
  - cbn. now rewrite !app_nil_r.
  - assert (Hc : (c < m_K b)%nat) by (apply (Hch (c, r, q)); now left).
    unfold after_history. cbn [fold_left fst snd].
    fold (after_history (UpdateReward b c r q) events).
    destruct (IH (UpdateReward b c r q) i) as [IHr IHq].
    + cbn [UpdateReward m_rewards m_K]. now rewrite list_set_length.
    + cbn [UpdateReward m_qualities m_K]. now rewrite list_set_length.
    + intros ev Hev. cbn [UpdateReward m_K]. apply Hch. now right.
    + rewrite IHr, IHq. unfold rewards_on, qualities_on.
      cbn [filter fst snd UpdateReward m_rewards m_qualities].
      destruct (Nat.eqb_spec c i) as [-> | NE].
      * rewrite !nth_list_set_same by lia. cbn [map fst snd].
        now rewrite <- !app_assoc.
      * now rewrite !nth_list_set_other by assumption.
Qed.

Lemma occurrences_length_filter : forall i (events : list (nat * R * R)),
  occurrences i (map (fun ev => fst (fst ev)) events)
  = List.length (rewards_on i events).
Proof.
  intros i events. unfold occurrences, rewards_on. rewrite length_map.
  induction events as [| [[c r] q] events IH]; [reflexivity |].
  cbn [map count_occ filter fst snd].
  destruct (Nat.eq_dec c i) as [-> | NE].
  - rewrite Nat.eqb_refl. cbn [List.length]. now rewrite IH.
  - destruct (Nat.eqb_spec c i); [contradiction | exact IH].
Qed.

(** X9: [UpdateReward] keeps counts and empirical means.  After any
    history of fewer than 2^32 updates on channels below [K] of a fresh
    algorithm, the count of a channel is the number of its updates, its
    stored samples are the observed rewards and qualities in order, and
    its mean reward and mean quality are the arithmetic means of those
    samples (0 for a channel without update). *)
Theorem UpdateReward_running_means :
  forall (K : nat) (type : AlgorithmType) (alpha beta lambda lambdaG : R)
         (events : list (nat * R * R)) (i : nat),
    (forall ev, In ev events -> (fst (fst ev) < K)%nat) ->
    (Z.of_nat (List.length events) < 2 ^ 32)%Z ->
    (i < K)%nat ->
    let b :=
      after_history (BanditAlgorithm_new K type alpha beta lambda lambdaG)
                    events in
    let n := List.length (rewards_on i events) in
    T_at b i = Z.of_nat n
    /\ nth i (m_rewards b) [] = rewards_on i events
    /\ nth i (m_qualities b) [] = qualities_on i events
    /\ R_at b i = (if (0 <? n)%nat then Rsum (rewards_on i events) / INR n
                   else 0)
    /\ G_at b i = (if (0 <? n)%nat then Rsum (qualities_on i events) / INR n
                   else 0).
Proof.
  intros K type alpha beta lambda lambdaG events i Hch Hlen Hi b n.
  set (b0 := BanditAlgorithm_new K type alpha beta lambda lambdaG) in *.
  assert (Hcons : consistent b).
  { apply consistent_after_history.
    - apply consistent_new.
    - exact Hch.
    - cbn. exact Hlen. }
  assert (HK : m_K b = K) by exact (proj1 (after_history_frame events b0)).
  assert (Hhist : m_channelHistory b = map (fun ev => fst (fst ev)) events).
  { subst b. rewrite after_history_history. reflexivity. }
  destruct (after_history_samples events b0 i) as [Hr Hq].
  { apply repeat_length. }
  { apply repeat_length. }
  { exact Hch. }
  assert (Hnil : forall A, nth i (repeat (@nil A) K) [] = []).
  { intro A. destruct (nth_in_or_default i (repeat (@nil A) K) []) as [H | H];
      [now apply repeat_spec in H | exact H]. }
  cbn [b0 BanditAlgorithm_new m_rewards m_qualities] in Hr, Hq.
  rewrite Hnil in Hr, Hq. cbn [app] in Hr, Hq. fold b in Hr, Hq.
  assert (HT : T_at b i = Z.of_nat n).
  { rewrite (cons_T b Hcons i) by lia.
    now rewrite Hhist, occurrences_length_filter. }
  assert (Hn : (0 <? T_at b i)%Z = (0 <? n)%nat).
  { rewrite HT. destruct (Nat.ltb_spec 0 n).
    - apply Z.ltb_lt. lia.
    - apply Z.ltb_ge. lia. }
  split; [exact HT |]. split; [exact Hr |]. split; [exact Hq |].
  rewrite (cons_R b Hcons i), (cons_G b Hcons i) by lia.
  rewrite Hn, Hr, Hq, HT, <- INR_IZR_INZ.
  split; reflexivity.
Qed.

End QoCRunningMeans.

Lemma UpdateReward_running_means_witness :
  (forall ev, In ev QoC.lag_events -> (fst (fst ev) < 8)%nat)
  /\ (Z.of_nat (List.length QoC.lag_events) < 2 ^ 32)%Z
  /\ (1 < 8)%nat
  /\ QoC.T_at (QoC.after_history
                 (QoC.BanditAlgorithm_new 8 QoC.DQOC_A 1.9 0.9 1 1)
                 QoC.lag_events) 1
     = 1%Z.
Proof.
  assert (H1 : forall ev, In ev QoC.lag_events -> (fst (fst ev) < 8)%nat).
  { intros ev Hev.
    repeat (destruct Hev as [<- | Hev]; [cbn; lia |]). destruct Hev. }
  assert (H2 : (Z.of_nat (List.length QoC.lag_events) < 2 ^ 32)%Z)
    by (cbn; lia).
  assert (H3 : (1 < 8)%nat) by lia.
  split; [exact H1 |]. split; [exact H2 |]. split; [exact H3 |].
  exact (proj1 (UpdateReward_running_means 8 QoC.DQOC_A 1.9 0.9 1 1
                  QoC.lag_events 1 H1 H2 H3)).
Defined.
Section QoCSelectionRange.

Import QoC.
Local Open Scope R_scope.

Lemma UCB_loop_in : forall b indices maxUCB best,
  In (UCB_loop b indices maxUCB best) indices
  \/ UCB_loop b indices maxUCB best = best.
Proof.
  intros b indices. induction indices as [| i rest IH]; intros maxUCB best.
  - now right.
  - cbn [UCB_loop]. destruct (T_at b i =? 0)%Z; [left; now left |].
    cbv zeta. destruct (score_gt _ maxUCB).
    + destruct (IH (Fin (R_at b i
                         + m_alpha b * sqrt (ln (IZR (m_n b)) / IZR (T_at b i))))
                   i) as [H | H].
      * left. now right.
      * left. left. now rewrite H.
    + destruct (IH maxUCB best) as [H | H]; [left; now right | now right].
Qed.

Lemma QoCA_loop_in : forall b G_max indices maxScore best,
  In (QoCA_loop b G_max indices maxScore best) indices
  \/ QoCA_loop b G_max indices maxScore best = best.
Proof.
  intros b G_max indices.
  induction indices as [| i rest IH]; intros maxScore best.
  - now right.
  - cbn [QoCA_loop]. destruct (T_at b i =? 0)%Z; [left; now left |].
    cbv zeta. destruct (score_gt _ maxScore).
    + match goal with
      | |- In (QoCA_loop _ _ _ ?s _) _ \/ _ =>
          destruct (IH s i) as [H | H]
      end.
      * left. now right.
      * left. left. now rewrite H.
    + destruct (IH maxScore best) as [H | H]; [left; now right | now right].
Qed.

Lemma DQoCA_loop_in : forall b indices maxScore best,
  In (DQoCA_loop b indices maxScore best) indices
  \/ DQoCA_loop b indices maxScore best = best.
Proof.
  intros b indices.
  induction indices as [| i rest IH]; intros maxScore best.
  - now right.
  - cbn [DQoCA_loop]. destruct (Req_dec_T (N_i b i) 0); [left; now left |].
    cbv zeta. destruct (score_gt _ maxScore).
    + match goal with
      | |- In (DQoCA_loop _ _ ?s _) _ \/ _ =>
          destruct (IH s i) as [H | H]
      end.
      * left. now right.
      * left. left. now rewrite H.
    + destruct (IH maxScore best) as [H | H]; [left; now right | now right].
Qed.

(** X10: [SelectChannel] returns a channel of the algorithm.  For every
    policy and every state with at least one channel, a packet index that
    does not wrap and a round-robin cursor below [K], the selected channel
    is below [K], and the packet index is incremented. *)
Theorem SelectChannel_in_range :
  forall b : BanditAlgorithm,
    (0 < m_K b)%nat ->
    (0 <= m_n b)%Z -> (m_n b + 1 < 2 ^ 32)%Z ->
    (m_currentChannel b < m_K b)%nat ->
    (fst (SelectChannel b) < m_K b)%nat
    /\ m_n (snd (SelectChannel b)) = (m_n b + 1)%Z
    /\ m_K (snd (SelectChannel b)) = m_K b.
Proof.
  intros b HK Hn0 Hn Hc.
  unfold SelectChannel. cbv zeta.
  rewrite (wrap32_small (m_n b + 1)) by lia.
  set (b1 := at_packet b (m_n b + 1)).
  assert (Hinit : (Z.to_nat (wrap32 (m_n b1 - 1)) < m_K b1)%nat
                  \/ (m_n b1 <=? Z.of_nat (m_K b1))%Z = false).
  { destruct (Z.leb_spec (m_n b1) (Z.of_nat (m_K b1))) as [Hle | Hgt];
      [left | now right].
    cbn [b1 at_packet m_n m_K] in *. rewrite wrap32_small by lia. lia. }
  assert (Hseq : forall j, In j (seq 0 (m_K b1)) \/ j = 0%nat ->
                           (j < m_K b)%nat).
  { intros j [Hj | ->]; [| exact HK]. apply in_seq in Hj.
    cbn [b1 at_packet m_K] in Hj. lia. }
  change (m_type b1) with (m_type b).
  destruct (m_type b).
  - unfold SelectChannelUniform. cbn [fst snd b1 at_packet m_n m_K m_currentChannel].
    repeat split; assumption || reflexivity.
  - cbn [fst snd]. split; [| split; reflexivity].
    unfold SelectChannelUCB.
    destruct Hinit as [H | ->]; [| apply Hseq, UCB_loop_in].
    destruct (m_n b1 <=? Z.of_nat (m_K b1))%Z; [exact H |].
    apply Hseq, UCB_loop_in.
  - cbn [fst snd]. split; [| split; reflexivity].
    unfold SelectChannelQoCA.
    destruct Hinit as [H | ->]; [| apply Hseq, QoCA_loop_in].
    destruct (m_n b1 <=? Z.of_nat (m_K b1))%Z; [exact H |].
    apply Hseq, QoCA_loop_in.
  - cbn [fst snd]. split; [| split; reflexivity].
    unfold SelectChannelDQoCA.
    destruct Hinit as [H | ->]; [| apply Hseq, DQoCA_loop_in].
    destruct (m_n b1 <=? Z.of_nat (m_K b1))%Z; [exact H |].
    apply Hseq, DQoCA_loop_in.
Qed.

End QoCSelectionRange.

Lemma SelectChannel_in_range_witness :
  (0 < QoC.m_K (QoC.BanditAlgorithm_new 8 QoC.UCB 1.28 0.2 0.98 0.9))%nat
  /\ (fst (QoC.SelectChannel (QoC.BanditAlgorithm_new 8 QoC.UCB 1.28 0.2 0.98 0.9))
      < QoC.m_K (QoC.BanditAlgorithm_new 8 QoC.UCB 1.28 0.2 0.98 0.9))%nat.
Proof.
  split; [cbn; lia |].
  apply (SelectChannel_in_range
           (QoC.BanditAlgorithm_new 8 QoC.UCB 1.28 0.2 0.98 0.9)); cbn; lia.
Defined.

Section QoCMaximalQuality.

Import QoC.
Local Open Scope R_scope.

Lemma fold_Rmax_spec : forall (g : nat -> R) (l : list nat) (a : R),
  let m := fold_left (fun m i => Rmax m (g i)) l a in
  a <= m
  /\ (forall i, In i l -> g i <= m)
  /\ (m = a \/ exists i, In i l /\ m = g i).
Proof.
  intros g l. induction l as [| x t IH]; intros a m.
  - subst m. cbn. split; [lra |]. split; [intros i [] | now left].
  - subst m. cbn [fold_left].
    destruct (IH (Rmax a (g x))) as (H1 & H2 & H3).
    pose proof (Rmax_l a (g x)) as Hl. pose proof (Rmax_r a (g x)) as Hr.
    split; [lra |]. split.
    + intros i [<- | Hi]; [lra | now apply H2].
    + destruct H3 as [H3 | (i & Hi & H3)].
      * rewrite H3. unfold Rmax. destruct (Rle_dec a (g x)).
        -- right. exists x. split; [now left | reflexivity].
        -- now left.
      * right. exists i. split; [now right | exact H3].
Qed.

(** X11: [CalculateGmax] is the largest mean quality, floored at 0: it is
    not negative, no channel has a larger mean quality, and it is 0 or the
    mean quality of one of the channels. *)
Theorem CalculateGmax_is_maximum :
  forall b : BanditAlgorithm,
    0 <= CalculateGmax b
    /\ (forall i, (i < m_K b)%nat -> G_at b i <= CalculateGmax b)
    /\ (CalculateGmax b = 0
        \/ exists i, (i < m_K b)%nat /\ CalculateGmax b = G_at b i).
Proof.
  intro b. rewrite CalculateGmax_Rmax.
  destruct (fold_Rmax_spec (G_at b) (seq 0 (m_K b)) 0) as (H1 & H2 & H3).
  split; [exact H1 |]. split.
  - intros i Hi. apply H2, in_seq. lia.
  - destruct H3 as [H3 | (i & Hi & H3)]; [now left |].
    right. exists i. apply in_seq in Hi. split; [lia | exact H3].
Qed.

End QoCMaximalQuality.

Section QoCRoundRobin.

Import QoC.
Local Open Scope R_scope.

Lemma play_uniform_from : forall observations b,
  m_type b = UNIFORM ->
  (0 < m_K b)%nat -> (Z.of_nat (m_K b) < 2 ^ 32)%Z ->
  (m_currentChannel b < m_K b)%nat ->
  play b observations
  = map (fun j => ((m_currentChannel b + j) mod m_K b)%nat)
        (seq 0 (List.length observations)).
Proof.
  induction observations as [| [r q] obs IH]; intros b Ht HK HK32 Hc.
  - reflexivity.
  - cbn [play List.length seq map].
    unfold SelectChannel. cbv zeta.
    change (m_type (at_packet b (wrap32 (m_n b + 1)))) with (m_type b).
    rewrite Ht. unfold SelectChannelUniform. cbn [fst snd].
    cbn [at_packet m_currentChannel m_K].
    rewrite Nat.add_0_r, Nat.mod_small by exact Hc.
    f_equal.
    rewrite IH; cbn [UpdateReward m_type m_K m_currentChannel at_packet];
      try assumption.
    + rewrite <- seq_shift, map_map. apply map_ext. intro j.
      rewrite wrap32_small by lia.
      rewrite <- (Nat2Z.inj_add _ 1), <- Nat2Z.inj_mod, Nat2Z.id.
      rewrite Nat.Div0.add_mod_idemp_l. f_equal. lia.
    + rewrite wrap32_small by lia.
      pose proof (Z.mod_pos_bound (Z.of_nat (m_currentChannel b) + 1)
                                  (Z.of_nat (m_K b))) as H. lia.
Qed.

(** X13: the uniform policy is a round robin.  On a fresh algorithm with
    [K] channels ([0 < K < 2^32]), whatever is observed, packet [j]
    (counted from 0) is sent on channel [j mod K]. *)
Theorem uniform_policy_is_round_robin :
  forall (K : nat) (alpha beta lambda lambdaG : R)
         (observations : list (R * R)),
    (0 < K)%nat -> (Z.of_nat K < 2 ^ 32)%Z ->
    play (BanditAlgorithm_new K UNIFORM alpha beta lambda lambdaG) observations
    = map (fun j => (j mod K)%nat) (seq 0 (List.length observations)).
Proof.
  intros K alpha beta lambda lambdaG observations HK HK32.
  rewrite play_uniform_from; try assumption; try reflexivity.
Qed.

End QoCRoundRobin.

Lemma uniform_policy_is_round_robin_witness :
  (0 < 3)%nat /\ (Z.of_nat 3 < 2 ^ 32)%Z
  /\ QoC.play (QoC.BanditAlgorithm_new 3 QoC.UNIFORM 0.6 0.2 0.98 0.9)
              [(1, 5); (0, 5); (1, 5); (1, 5)]%R
     = [0; 1; 2; 0]%nat.
Proof.
  assert (H1 : (0 < 3)%nat) by lia.
  assert (H2 : (Z.of_nat 3 < 2 ^ 32)%Z) by (cbn; lia).
  split; [exact H1 |]. split; [exact H2 |].
  exact (uniform_policy_is_round_robin 3 0.6 0.2 0.98 0.9
           [(1, 5); (0, 5); (1, 5); (1, 5)]%R H1 H2).
Defined.

Lemma QoC_CalculateToA_milliseconds_witness :
  (0 <= 7 < 31)%Z /\ (0 < 125000)%Q
  /\ (QoC.CalculateToA 20 7 125000 == 1000 * DLoRa.CalculateToA 7 125000 20)%Q.
Proof.
  assert (H1 : (0 <= 7 < 31)%Z) by lia.
  assert (H2 : (0 < 125000)%Q) by reflexivity.
  split; [exact H1 |]. split; [exact H2 |].
  exact (QoC_CalculateToA_milliseconds 7 125000 20 H1 H2).
Defined.
Section UCB1Payload.

Import LoRaUCB1.
Local Open Scope Q_scope.

Lemma Qtrunc_nonneg : forall q, 0 <= q -> Qtrunc q = Qfloor q.
Proof.
  intros q H. unfold Qtrunc. apply Qle_bool_iff in H. now rewrite H.
Qed.

Lemma GeneratePayloadSize_floor : forall u,
  0 <= u -> u < 1 ->
  GeneratePayloadSize u = (36 + Qfloor (u * 9))%Z
  /\ (0 <= Qfloor (u * 9) <= 8)%Z.
Proof.
  intros u H0 H1. unfold GeneratePayloadSize, N_Payload_min, N_Payload_max.
  cbv zeta. change (inject_Z (44 - 36 + 1)) with 9.
  change (44 - 36 + 1)%Z with 9%Z.
  assert (Hq : 0 <= u * 9) by Lqa.lra.
  rewrite Qtrunc_nonneg by exact Hq.
  assert (Hlo : (0 <= Qfloor (u * 9))%Z).
  { change 0%Z with (Qfloor 0). now apply Qfloor_resp_le. }
  assert (Hhi : (Qfloor (u * 9) < 9)%Z).
  { rewrite Zlt_Qlt. eapply Qle_lt_trans; [apply Qfloor_le |].
    change (inject_Z 9) with 9. Lqa.lra. }
  split; [| lia]. rewrite Z.rem_small by lia. reflexivity.
Qed.

(** X14: the payload and the time on air of the LoRa UCB1 program.  For
    every draw [u] in [0, 1), the payload size is [36 + floor (9 u)], a
    value from 36 to 44 bytes, and the time on air is the preamble of
    12.25 symbols plus one symbol per payload byte: between 48.25 and
    56.25 symbol durations [2^SF / BW], whatever the transmit power. *)
Theorem payload_and_time_on_air_bounds :
  forall (g : Globals) (tp : Z) (u : Q),
    0 <= u -> u < 1 ->
    let T_Symbol := Qpower 2 (g_spreadingFactor g) / BW in
    (36 <= GeneratePayloadSize u <= 44)%Z
    /\ GeneratePayloadSize u = (36 + Qfloor (u * 9))%Z
    /\ CalculateTimeOnAir g tp u
       == (12.25 + inject_Z (GeneratePayloadSize u)) * T_Symbol
    /\ 48.25 * T_Symbol <= CalculateTimeOnAir g tp u <= 56.25 * T_Symbol.
Proof.
  intros g tp u H0 H1 T_Symbol.
  destruct (GeneratePayloadSize_floor u H0 H1) as [Hp Hf].
  assert (Hrange : (36 <= GeneratePayloadSize u <= 44)%Z) by lia.
  split; [exact Hrange |]. split; [exact Hp |].
  assert (Hs : 0 < T_Symbol).
  { subst T_Symbol. apply Qlt_shift_div_l; [reflexivity |].
    rewrite Qmult_0_l. apply Qpower_0_lt. reflexivity. }
  assert (Heq : CalculateTimeOnAir g tp u
                == (12.25 + inject_Z (GeneratePayloadSize u)) * T_Symbol).
  { unfold CalculateTimeOnAir. cbv zeta. fold T_Symbol.
    change (inject_Z N_P) with 8. ring. }
  split; [exact Heq |]. rewrite Heq.
  assert (H36 : inject_Z 36 <= inject_Z (GeneratePayloadSize u))
    by (rewrite <- Zle_Qle; lia).
  assert (H44 : inject_Z (GeneratePayloadSize u) <= inject_Z 44)
    by (rewrite <- Zle_Qle; lia).
  change (inject_Z 36) with 36 in H36. change (inject_Z 44) with 44 in H44.
  split; Lqa.nra.
Qed.

Lemma payload_and_time_on_air_bounds_witness :
  0 <= 0.5 /\ 0.5 < 1 /\ (36 <= GeneratePayloadSize 0.5 <= 44)%Z.
Proof.
  assert (H0 : 0 <= 0.5) by discriminate.
  assert (H1 : 0.5 < 1) by reflexivity.
  split; [exact H0 |]. split; [exact H1 |].
  exact (proj1 (payload_and_time_on_air_bounds default_globals 1 0.5 H0 H1)).
Defined.

End UCB1Payload.

Section UCB1Fixed.

Import LoRaUCB1.
Local Open Scope Q_scope.

(** X15: the fixed policy.  For every device id it transmits at -3 dBm,
    the minimum of the power levels, on one of the three channels the
    gateway receives, so the gateway never rejects its channel; device
    ids that differ by 3 share a channel and the ids 0, 1, 2 get the three
    receivable channels in order. *)
Theorem fixed_policy_is_receivable :
  forall d : LoRaDevice,
    In (fst (SelectTransmissionParametersFixed d)) g_receivableChannels
    /\ channelReceivable g_receivableChannels
                         (fst (SelectTransmissionParametersFixed d)) = true
    /\ snd (SelectTransmissionParametersFixed d) = (-3)%Z
    /\ Forall (fun tp => (-3 <= tp)%Z) g_transmissionPowers
    /\ ((0 <= m_deviceId d < 2 ^ 31)%Z ->
        fst (SelectTransmissionParametersFixed d)
        = nth (Z.to_nat (m_deviceId d mod 3)) g_receivableChannels 0).
Proof.
  intro d. unfold SelectTransmissionParametersFixed. cbv zeta. cbn [fst snd].
  change (Z.of_nat (List.length g_receivableChannels)) with 3%Z.
  set (k := ((m_deviceId d mod 2 ^ 64) mod 3)%Z).
  assert (Hk : (k = 0 \/ k = 1 \/ k = 2)%Z).
  { pose proof (Z.mod_pos_bound (m_deviceId d mod 2 ^ 64) 3). lia. }
  split; [| split; [| split; [| split]]].
  - destruct Hk as [-> | [-> | ->]]; simpl; tauto.
  - destruct Hk as [-> | [-> | ->]]; reflexivity.
  - reflexivity.
  - unfold g_transmissionPowers. repeat constructor; discriminate.
  - intro Hid. subst k. rewrite (Z.mod_small (m_deviceId d)) by lia.
    reflexivity.
Qed.

End UCB1Fixed.

Section UCB1Untried.

Import LoRaUCB1.

Lemma score_gt_PosInf_r : forall s, score_gt s PosInf = false.
Proof. now intros [| r |]. Qed.

Lemma UCB1_fold_stuck : forall d l a,
  fold_left (UCB1_step d) l (PosInf, a) = (PosInf, a).
Proof.
  intros d l a. induction l as [| x l IH]; [reflexivity |].
  cbn [fold_left]. unfold UCB1_step at 2. cbv zeta. cbn [fst].
  now rewrite score_gt_PosInf_r.
Qed.

Lemma UCB1_fold_first_untried : forall d l acc,
  fst acc <> PosInf ->
  (exists a, In a l /\ selectionsCount (stats_get (m_ucbStats d) a) = 0%Z) ->
  exists l1 a l2,
    l = l1 ++ a :: l2
    /\ snd (fold_left (UCB1_step d) l acc) = a
    /\ selectionsCount (stats_get (m_ucbStats d) a) = 0%Z
    /\ (forall b, In b l1 ->
          selectionsCount (stats_get (m_ucbStats d) b) <> 0%Z).
Proof.
  intros d l. induction l as [| x l IH]; intros acc Hacc (a & Ha & Hz).
  - destruct Ha.
  - cbn [fold_left].
    destruct (Z.eq_dec (selectionsCount (stats_get (m_ucbStats d) x)) 0)
      as [Hx | Hx].
    + exists [], x, l. split; [reflexivity |].
      assert (Hstep : UCB1_step d acc x = (PosInf, x)).
      { unfold UCB1_step, CalculateUCBScore. cbv zeta.
        destruct x as [ch tp]. cbn [fst snd] in *.
        rewrite Hx. cbn [Z.eqb].
        destruct acc as [[| r |] b]; cbn [fst score_gt];
          try reflexivity. now contradiction Hacc. }
      rewrite Hstep, UCB1_fold_stuck. cbn [snd].
      split; [reflexivity |]. split; [exact Hx | intros b []].
    + destruct Ha as [-> | Ha]; [contradiction |].
      assert (Hfin : fst (UCB1_step d acc x) <> PosInf).
      { unfold UCB1_step, CalculateUCBScore. cbv zeta.
        destruct x as [ch tp]. cbn [fst snd] in *.
        apply Z.eqb_neq in Hx. rewrite Hx.
        destruct (score_gt _ (fst acc)); cbn [fst];
          [discriminate | exact Hacc]. }
      destruct (IH (UCB1_step d acc x) Hfin) as (l1 & b & l2 & E & Hb & Hbz & Hl1).
      { exists a. now split. }
      exists (x :: l1), b, l2. split; [now rewrite E |].
      split; [exact Hb |]. split; [exact Hbz |].
      intros c [<- | Hc]; [exact Hx | now apply Hl1].
Qed.

(** X16: UCB1-tuned of the LoRa UCB1 program explores first.  Whenever
    one of the 25 arms has never been selected, the selection is the
    first such arm in the order of the loops (channels outside, powers
    inside). *)
Theorem UCB1_tuned_selects_first_untried_arm :
  forall d : LoRaDevice,
    (exists a, In a all_arms
               /\ selectionsCount (stats_get (m_ucbStats d) a) = 0%Z) ->
    exists l1 l2,
      all_arms = l1 ++ SelectTransmissionParametersUCB1 d :: l2
      /\ selectionsCount
           (stats_get (m_ucbStats d) (SelectTransmissionParametersUCB1 d))
         = 0%Z
      /\ (forall b, In b l1 ->
            selectionsCount (stats_get (m_ucbStats d) b) <> 0%Z).
Proof.
  intros d H. unfold SelectTransmissionParametersUCB1. cbv zeta.
  destruct (UCB1_fold_first_untried d all_arms
              (NegInf, (nth 0 g_channels 0%Q, nth 0 g_transmissionPowers 0%Z)))
    as (l1 & a & l2 & E & Ha & Hz & Hl1).
  - discriminate.
  - exact H.
  - exists l1, l2. rewrite Ha. repeat split; assumption.
Qed.

End UCB1Untried.

Lemma UCB1_tuned_selects_first_untried_arm_witness :
  (exists a, In a LoRaUCB1.all_arms
             /\ LoRaUCB1.selectionsCount
                  (LoRaUCB1.stats_get
                     (LoRaUCB1.m_ucbStats LoRaUCB1.greedy_after_first_cycle) a)
                = 0%Z)
  /\ exists l1 l2,
       LoRaUCB1.all_arms
       = l1 ++ LoRaUCB1.SelectTransmissionParametersUCB1
                 LoRaUCB1.greedy_after_first_cycle :: l2.
Proof.
  assert (H : exists a, In a LoRaUCB1.all_arms
             /\ LoRaUCB1.selectionsCount
                  (LoRaUCB1.stats_get
                     (LoRaUCB1.m_ucbStats LoRaUCB1.greedy_after_first_cycle) a)
                = 0%Z).
  { exists (921.0%Q, (-3)%Z). split; [simpl; tauto | reflexivity]. }
  split; [exact H |].
  destruct (UCB1_tuned_selects_first_untried_arm
              LoRaUCB1.greedy_after_first_cycle H) as (l1 & l2 & E & _).
  exists l1, l2. exact E.
Defined.
Section UCB1Sweep.

Import LoRaUCB1.

(** X17: the initial sweep of UCB1-tuned.  When a fresh UCB1-tuned device
    starts, it transmits once on each of the 25 (channel, power)
    combinations, in the order of the loops, whatever the gateway
    answers: afterwards every arm has been selected exactly once, the
    total is 25, and no decision cycle has been counted yet. *)
Theorem initial_sweep_tries_every_arm :
  forall (g : Globals) (gw : LoRaGateway) (deviceId : Z) (draws : list Draws),
    let d := StartApplication g gw (LoRaDevice_new deviceId "UCB1-tuned")
                              draws in
    Forall (fun a => selectionsCount (stats_get (m_ucbStats d) a) = 1%Z)
           all_arms
    /\ m_totalSelections d = 25%Z
    /\ m_channelSelectionHistory d = map fst all_arms
    /\ m_tpSelectionHistory d = map snd all_arms
    /\ List.length (m_successHistory d) = 25%nat
    /\ m_currentTransmissionRound d = 0%Z.
Proof.
  intros g gw deviceId draws d. subst d.
  split; [| split; [| split; [| split; [| split]]]].
  - repeat constructor; lazy; reflexivity.
  - lazy. reflexivity.
  - lazy. reflexivity.
  - lazy. reflexivity.
  - lazy. reflexivity.
  - lazy. reflexivity.
Qed.

End UCB1Sweep.

Section UCB1Cycles.

Import LoRaUCB1.
Local Open Scope string_scope.

(** What [SelectTransmissionParametersADRLite] leaves untouched. *)
Lemma ADRLite_frame : forall d,
  let d1 := snd (SelectTransmissionParametersADRLite d) in
  m_algorithm d1 = m_algorithm d
  /\ m_currentTransmissionRound d1 = m_currentTransmissionRound d
  /\ m_successHistory d1 = m_successHistory d
  /\ m_energyHistory d1 = m_energyHistory d
  /\ m_tpSelectionHistory d1 = m_tpSelectionHistory d
  /\ m_channelSelectionHistory d1 = m_channelSelectionHistory d.
Proof.
  intro d. unfold SelectTransmissionParametersADRLite. cbv zeta.
  destruct (m_successHistory d) eqn:E; cbn [snd]; repeat split;
    try reflexivity; try exact E.
Qed.

(** A decision cycle of a supported algorithm with a transmission left:
    one transmission is recorded and the round counted. *)
Lemma SelectAndTransmit_supported : forall g gw d dr,
  In (m_algorithm d) ["UCB1-tuned"; "Epsilon-Greedy"; "ADR-Lite"; "Fixed"] ->
  (m_currentTransmissionRound d < g_numTransmissions g)%Z ->
  exists d',
    SelectAndTransmit g gw d dr = Done d'
    /\ m_algorithm d' = m_algorithm d
    /\ m_currentTransmissionRound d'
       = wrap_int (m_currentTransmissionRound d + 1)
    /\ List.length (m_successHistory d')
       = S (List.length (m_successHistory d))
    /\ List.length (m_energyHistory d') = S (List.length (m_energyHistory d))
    /\ List.length (m_tpSelectionHistory d')
       = S (List.length (m_tpSelectionHistory d))
    /\ List.length (m_channelSelectionHistory d')
       = S (List.length (m_channelSelectionHistory d)).
Proof.
  intros g gw d dr Hin Hlt. unfold SelectAndTransmit.
  apply Z.ltb_lt in Hlt. rewrite Hlt. cbv zeta.
  remember (m_algorithm d) as name eqn:Hname.
  assert (Hgen : forall params d1,
            m_algorithm d1 = name ->
            m_currentTransmissionRound d1 = m_currentTransmissionRound d ->
            m_successHistory d1 = m_successHistory d ->
            m_energyHistory d1 = m_energyHistory d ->
            m_tpSelectionHistory d1 = m_tpSelectionHistory d ->
            m_channelSelectionHistory d1 = m_channelSelectionHistory d ->
            exists d',
              Done (next_round
                      (UpdateStatistics g d1 (fst params) (snd params)
                         (ReceiveTransmission g gw (fst params) (snd params)
                            (m_deviceId d1) (u_gateway dr)) dr))
              = Done d'
              /\ m_algorithm d' = name
              /\ m_currentTransmissionRound d'
                 = wrap_int (m_currentTransmissionRound d + 1)
              /\ List.length (m_successHistory d')
                 = S (List.length (m_successHistory d))
              /\ List.length (m_energyHistory d')
                 = S (List.length (m_energyHistory d))
              /\ List.length (m_tpSelectionHistory d')
                 = S (List.length (m_tpSelectionHistory d))
              /\ List.length (m_channelSelectionHistory d')
                 = S (List.length (m_channelSelectionHistory d))).
  { intros params d1 H1 H2 H3 H4 H5 H6. eexists. split; [reflexivity |].
    cbn [next_round UpdateStatistics m_algorithm m_currentTransmissionRound
         m_successHistory m_energyHistory m_tpSelectionHistory
         m_channelSelectionHistory].
    rewrite H1, H2, H3, H4, H5, H6, !length_app. cbn [List.length].
    repeat split; lia. }
  cbn [In] in Hin. symmetry in Hname.
  destruct Hin as [E | [E | [E | [E | []]]]]; rewrite <- E in *;
    cbn [String.eqb Ascii.eqb Bool.eqb andb].
  - apply (Hgen (SelectTransmissionParametersUCB1 d) d);
      reflexivity || exact Hname.
  - apply (Hgen (SelectTransmissionParametersEpsilonGreedy d dr) d);
      reflexivity || exact Hname.
  - destruct (ADRLite_frame d) as (H1 & H2 & H3 & H4 & H5 & H6).
    destruct (SelectTransmissionParametersADRLite d) as [params d1].
    cbn [snd] in *. apply (Hgen params d1); try assumption.
    now rewrite H1.
  - apply (Hgen (SelectTransmissionParametersFixed d) d);
      reflexivity || exact Hname.
Qed.

Lemma run_cycles_bounded : forall g gw draws d,
  In (m_algorithm d) ["UCB1-tuned"; "Epsilon-Greedy"; "ADR-Lite"; "Fixed"] ->
  (0 <= m_currentTransmissionRound d <= g_numTransmissions g)%Z ->
  (g_numTransmissions g < 2 ^ 31)%Z ->
  exists d',
    run_cycles g gw d draws = Done d'
    /\ m_currentTransmissionRound d'
       = Z.min (m_currentTransmissionRound d + Z.of_nat (List.length draws))
               (g_numTransmissions g)
    /\ Z.of_nat (List.length (m_successHistory d'))
       = (Z.of_nat (List.length (m_successHistory d))
          + (m_currentTransmissionRound d' - m_currentTransmissionRound d))%Z
    /\ Z.of_nat (List.length (m_energyHistory d'))
       = (Z.of_nat (List.length (m_energyHistory d))
          + (m_currentTransmissionRound d' - m_currentTransmissionRound d))%Z
    /\ Z.of_nat (List.length (m_tpSelectionHistory d'))
       = (Z.of_nat (List.length (m_tpSelectionHistory d))
          + (m_currentTransmissionRound d' - m_currentTransmissionRound d))%Z
    /\ Z.of_nat (List.length (m_channelSelectionHistory d'))
       = (Z.of_nat (List.length (m_channelSelectionHistory d))
          + (m_currentTransmissionRound d' - m_currentTransmissionRound d))%Z.
Proof.
  intros g gw draws. induction draws as [| dr draws IH]; intros d Hin Hr Hn.
  - exists d. cbn [run_cycles List.length]. split; [reflexivity |].
    repeat split; lia.
  - cbn [run_cycles List.length].
    destruct (Z.lt_ge_cases (m_currentTransmissionRound d)
                            (g_numTransmissions g)) as [Hlt | Hge].
    + destruct (SelectAndTransmit_supported g gw d dr Hin Hlt)
        as (d1 & -> & Ha & Hround & H1 & H2 & H3 & H4).
      rewrite wrap_int_small in Hround by lia.
      destruct (IH d1) as (d' & Hrun & Hr' & K1 & K2 & K3 & K4).
      * now rewrite Ha.
      * lia.
      * exact Hn.
      * exists d'. split; [exact Hrun |]. repeat split; lia.
    + assert (Hstay : SelectAndTransmit g gw d dr = Done d).
      { unfold SelectAndTransmit.
        destruct (Z.ltb_spec (m_currentTransmissionRound d)
                             (g_numTransmissions g)); [lia | reflexivity]. }
      rewrite Hstay.
      destruct (IH d Hin Hr Hn) as (d' & Hrun & Hr' & K1 & K2 & K3 & K4).
      exists d'. split; [exact Hrun |]. repeat split; lia.
Qed.

(** The device [SelectAndTransmit] first runs on: a fresh device after
    [StartApplication]. *)
Lemma StartApplication_fresh : forall g gw deviceId algorithm sweep,
  In algorithm ["Epsilon-Greedy"; "ADR-Lite"; "Fixed"; "UCB1-tuned"] ->
  let d := StartApplication g gw (LoRaDevice_new deviceId algorithm) sweep in
  let n := if String.eqb algorithm "UCB1-tuned" then 25%nat else 0%nat in
  m_algorithm d = algorithm
  /\ m_currentTransmissionRound d = 0%Z
  /\ List.length (m_successHistory d) = n
  /\ List.length (m_energyHistory d) = n
  /\ List.length (m_tpSelectionHistory d) = n
  /\ List.length (m_channelSelectionHistory d) = n.
Proof.
  intros g gw deviceId algorithm sweep Hin. cbn [In] in Hin.
  destruct Hin as [<- | [<- | [<- | [<- | []]]]]; cbv zeta;
    repeat split; lazy; reflexivity.
Qed.

(** X18: a device makes exactly the configured number of transmissions
    after it has started.  For a supported algorithm and a number of
    transmissions from 0 to 2^31 - 1, any number of decision cycles of a
    device that [StartApplication] has started ends without error with
    [min (cycles, g_numTransmissions)] rounds counted, and the four
    histories of the device have one entry per round, after the 25 entries
    of the initial sweep when the algorithm is UCB1-tuned. *)
Theorem device_stops_after_configured_transmissions :
  forall (g : Globals) (gw : LoRaGateway) (deviceId : Z) (algorithm : string)
         (sweep draws : list Draws),
    In algorithm ["Epsilon-Greedy"; "ADR-Lite"; "Fixed"; "UCB1-tuned"] ->
    (0 <= g_numTransmissions g < 2 ^ 31)%Z ->
    let started :=
      StartApplication g gw (LoRaDevice_new deviceId algorithm) sweep in
    let swept := if String.eqb algorithm "UCB1-tuned" then 25%Z else 0%Z in
    exists d',
      run_cycles g gw started draws = Done d'
      /\ m_currentTransmissionRound d'
         = Z.min (Z.of_nat (List.length draws)) (g_numTransmissions g)
      /\ Z.of_nat (List.length (m_successHistory d'))
         = (swept + m_currentTransmissionRound d')%Z
      /\ Z.of_nat (List.length (m_energyHistory d'))
         = (swept + m_currentTransmissionRound d')%Z
      /\ Z.of_nat (List.length (m_tpSelectionHistory d'))
         = (swept + m_currentTransmissionRound d')%Z
      /\ Z.of_nat (List.length (m_channelSelectionHistory d'))
         = (swept + m_currentTransmissionRound d')%Z.
Proof.
  intros g gw deviceId algorithm sweep draws Hin Hn started swept.
  destruct (StartApplication_fresh g gw deviceId algorithm sweep Hin)
    as (Ha & Hr0 & L1 & L2 & L3 & L4).
  fold started in Ha, Hr0, L1, L2, L3, L4.
  assert (Hswept : swept
                   = Z.of_nat (if String.eqb algorithm "UCB1-tuned"
                               then 25%nat else 0%nat)).
  { subst swept. destruct (String.eqb algorithm "UCB1-tuned"); reflexivity. }
  destruct (run_cycles_bounded g gw draws started)
    as (d' & Hrun & Hr & K1 & K2 & K3 & K4).
  - rewrite Ha. cbn [In] in *. tauto.
  - rewrite Hr0. lia.
  - lia.
  - rewrite Hr0 in *. rewrite L1 in K1. rewrite L2 in K2. rewrite L3 in K3.
    rewrite L4 in K4. rewrite <- Hswept in K1, K2, K3, K4.
    exists d'. split; [exact Hrun |]. repeat split; lia.
Qed.

End UCB1Cycles.

Lemma device_stops_after_configured_transmissions_witness :
  In "UCB1-tuned"%string
     ["Epsilon-Greedy"; "ADR-Lite"; "Fixed"; "UCB1-tuned"]%string
  /\ (0 <= LoRaUCB1.g_numTransmissions LoRaUCB1.default_globals < 2 ^ 31)%Z
  /\ exists d',
       LoRaUCB1.run_cycles LoRaUCB1.default_globals LoRaUCB1.program_gateway
         (LoRaUCB1.StartApplication LoRaUCB1.default_globals
            LoRaUCB1.program_gateway (LoRaUCB1.LoRaDevice_new 3 "UCB1-tuned")
            [])
         [LoRaUCB1.no_draws; LoRaUCB1.no_draws]
       = Done d'
       /\ LoRaUCB1.m_currentTransmissionRound d' = 2%Z
       /\ Z.of_nat (List.length (LoRaUCB1.m_successHistory d'))
          = (25 + LoRaUCB1.m_currentTransmissionRound d')%Z.
Proof.
  assert (H1 : In "UCB1-tuned"%string
                 ["Epsilon-Greedy"; "ADR-Lite"; "Fixed"; "UCB1-tuned"]%string)
    by (simpl; tauto).
  assert (H2 : (0 <= LoRaUCB1.g_numTransmissions LoRaUCB1.default_globals
                < 2 ^ 31)%Z) by (cbn; lia).
  split; [exact H1 |]. split; [exact H2 |].
  destruct (device_stops_after_configured_transmissions
              LoRaUCB1.default_globals LoRaUCB1.program_gateway 3
              "UCB1-tuned" [] [LoRaUCB1.no_draws; LoRaUCB1.no_draws] H1 H2)
    as (d' & Hrun & Hr & Hs & _).
  exists d'. split; [exact Hrun |]. split; [exact Hr | exact Hs].
Defined.
Section UCB1Arms.

Import LoRaUCB1.
Local Open Scope Q_scope.

Lemma in_all_arms : forall ch tp,
  In ch g_channels -> In tp g_transmissionPowers -> In (ch, tp) all_arms.
Proof.
  intros ch tp Hc Ht. unfold all_arms. apply in_flat_map.
  exists ch. split; [exact Hc |]. apply in_map_iff. now exists tp.
Qed.

Lemma UCB1_fold_in : forall d l acc,
  In (snd (fold_left (UCB1_step d) l acc)) l
  \/ snd (fold_left (UCB1_step d) l acc) = snd acc.
Proof.
  intros d l. induction l as [| a l IH]; intro acc; [now right |].
  cbn [fold_left]. destruct (IH (UCB1_step d acc a)) as [H | H].
  - left. now right.
  - rewrite H. unfold UCB1_step. cbv zeta.
    destruct (score_gt _ (fst acc)); cbn [snd]; [left; now left | now right].
Qed.

Lemma EpsilonGreedy_fold_in : forall d l acc,
  In (snd (fold_left (EpsilonGreedy_step d) l acc)) l
  \/ snd (fold_left (EpsilonGreedy_step d) l acc) = snd acc.
Proof.
  intros d l. induction l as [| a l IH]; intro acc; [now right |].
  cbn [fold_left]. destruct (IH (EpsilonGreedy_step d acc a)) as [H | H].
  - left. now right.
  - rewrite H. unfold EpsilonGreedy_step. cbv zeta.
    destruct (0 <? selectionsCount (stats_get (m_ucbStats d) a))%Z;
      [| now right].
    destruct (Rlt_dec _ _); cbn [snd]; [left; now left | now right].
Qed.

Lemma random_index_in_range : forall u (n : nat),
  0 <= u -> u < 1 -> (0 < n)%nat ->
  (Z.to_nat (Qtrunc (u * inject_Z (Z.of_nat n))) < n)%nat.
Proof.
  intros u n H0 H1 Hn.
  assert (Hpos : 0 < inject_Z (Z.of_nat n)).
  { change 0 with (inject_Z 0). rewrite <- Zlt_Qlt. lia. }
  assert (Hq : 0 <= u * inject_Z (Z.of_nat n)) by Lqa.nra.
  rewrite Qtrunc_nonneg by exact Hq.
  assert (Hlo : (0 <= Qfloor (u * inject_Z (Z.of_nat n)))%Z).
  { change 0%Z with (Qfloor 0). now apply Qfloor_resp_le. }
  assert (Hhi : (Qfloor (u * inject_Z (Z.of_nat n)) < Z.of_nat n)%Z).
  { rewrite Zlt_Qlt. eapply Qle_lt_trans; [apply Qfloor_le |]. Lqa.nra. }
  lia.
Qed.

(** X19: every policy of the LoRa UCB1 program that selects from the
    statistics returns one of the 25 (channel, power) combinations:
    UCB1-tuned and the fixed policy in every state, Epsilon-Greedy for
    every draw of its uniform variable in [0, 1), when it explores as when
    it exploits. *)
Theorem selected_parameters_are_arms :
  (forall d, In (SelectTransmissionParametersUCB1 d) all_arms)
  /\ (forall d dr,
        0 <= u_channel dr -> u_channel dr < 1 ->
        0 <= u_power dr -> u_power dr < 1 ->
        In (SelectTransmissionParametersEpsilonGreedy d dr) all_arms)
  /\ (forall d, In (SelectTransmissionParametersFixed d) all_arms).
Proof.
  assert (Hdefault : In (nth 0 g_channels 0, nth 0 g_transmissionPowers 0%Z)
                        all_arms) by (simpl; tauto).
  split; [| split].
  - intro d. unfold SelectTransmissionParametersUCB1. cbv zeta.
    destruct (UCB1_fold_in d all_arms
                (NegInf, (nth 0 g_channels 0, nth 0 g_transmissionPowers 0%Z)))
      as [H | H]; [exact H | rewrite H; exact Hdefault].
  - intros d dr Hc0 Hc1 Hp0 Hp1.
    unfold SelectTransmissionParametersEpsilonGreedy. cbv zeta.
    destruct (Qltb (u_explore dr) (m_epsilon d)).
    + apply in_all_arms; apply nth_In; apply random_index_in_range;
        assumption || (cbn; lia).
    + destruct (EpsilonGreedy_fold_in d all_arms
                  ((-1)%R, (nth 0 g_channels 0, nth 0 g_transmissionPowers 0%Z)))
        as [H | H]; [exact H | rewrite H; exact Hdefault].
  - intro d. unfold SelectTransmissionParametersFixed. cbv zeta.
    apply in_all_arms; [| simpl; tauto].
    change (Z.of_nat (List.length g_receivableChannels)) with 3%Z.
    pose proof (Z.mod_pos_bound (m_deviceId d mod 2 ^ 64) 3) as Hk.
    set (k := ((m_deviceId d mod 2 ^ 64) mod 3)%Z) in *.
    assert (Hk3 : (k = 0 \/ k = 1 \/ k = 2)%Z) by lia.
    destruct Hk3 as [-> | [-> | ->]]; simpl; tauto.
Qed.

End UCB1Arms.
Section ToWForgetting.

Import ToW.
Local Open Scope Q_scope.

Lemma decay_fold_pointwise : forall beta selected n s (N : list Z) i,
  (s + n <= List.length N)%nat ->
  nth i (fold_left
           (fun acc j =>
              if Nat.eqb j selected
              then list_set acc j
                     (wrap32 (Qtrunc (1 + beta * inject_Z (nth j acc 0%Z))))
              else list_set acc j
                     (wrap32 (Qtrunc (beta * inject_Z (nth j acc 0%Z)))))
           (seq s n) N) 0%Z
  = if (s <=? i)%nat && (i <? s + n)%nat then
      if Nat.eqb i selected
      then wrap32 (Qtrunc (1 + beta * inject_Z (nth i N 0%Z)))
      else wrap32 (Qtrunc (beta * inject_Z (nth i N 0%Z)))
    else nth i N 0%Z.
Proof.
  intros beta selected n. induction n as [| n IH]; intros s N i Hlen.
  - cbn [seq fold_left]. rewrite Nat.add_0_r.
    destruct (Nat.leb_spec s i), (Nat.ltb_spec i s); try reflexivity; lia.
  - cbn [seq fold_left].
    rewrite IH by (destruct (Nat.eqb s selected); rewrite list_set_length; lia).
    destruct (Nat.eq_dec i s) as [-> | NE].
    + destruct (Nat.leb_spec (S s) s); [lia |]. cbn [andb].
      destruct (Nat.leb_spec s s); [| lia].
      destruct (Nat.ltb_spec s (s + S n)); [| lia]. cbn [andb].
      destruct (Nat.eqb s selected); now rewrite nth_list_set_same by lia.
    + assert (Hother : forall v, nth i (list_set N s v) 0%Z = nth i N 0%Z).
      { intro v. apply nth_list_set_other. intro E. apply NE. now symmetry. }
      assert (Hsame : nth i (if Nat.eqb s selected
                             then list_set N s
                                    (wrap32 (Qtrunc (1 + beta * inject_Z (nth s N 0%Z))))
                             else list_set N s
                                    (wrap32 (Qtrunc (beta * inject_Z (nth s N 0%Z)))))
                          0%Z
                      = nth i N 0%Z).
      { destruct (Nat.eqb s selected); apply Hother. }
      rewrite Hsame.
      destruct (Nat.leb_spec (S s) i), (Nat.leb_spec s i),
        (Nat.ltb_spec i (S s + n)), (Nat.ltb_spec i (s + S n));
        try reflexivity; lia.
Qed.

Lemma decay_counts_pointwise : forall beta n selected N i,
  (n <= List.length N)%nat ->
  nth i (decay_counts beta n selected N) 0%Z
  = if (i <? n)%nat then
      if Nat.eqb i selected
      then wrap32 (Qtrunc (1 + beta * inject_Z (nth i N 0%Z)))
      else wrap32 (Qtrunc (beta * inject_Z (nth i N 0%Z)))
    else nth i N 0%Z.
Proof.
  intros beta n selected N i Hlen. unfold decay_counts.
  rewrite decay_fold_pointwise by (cbn; lia). reflexivity.
Qed.

Lemma decay_counts_length : forall beta n selected N,
  List.length (decay_counts beta n selected N) = List.length N.
Proof.
  intros beta n selected N. unfold decay_counts.
  generalize (seq 0 n). intro l. revert N.
  induction l as [| j l IH]; intro N; [reflexivity |].
  cbn [fold_left]. destruct (Nat.eqb j selected);
    rewrite IH; apply list_set_length.
Qed.

Lemma forgetting_truncates : forall beta x,
  0 <= beta -> beta < 1 -> (x = 0 \/ x = 1)%Z ->
  wrap32 (Qtrunc (1 + beta * inject_Z x)) = 1%Z
  /\ wrap32 (Qtrunc (beta * inject_Z x)) = 0%Z.
Proof.
  intros beta x H0 H1 Hx.
  assert (Hb : 0 <= beta * inject_Z x /\ beta * inject_Z x < 1).
  { destruct Hx as [-> | ->].
    - change (inject_Z 0) with 0. split; Lqa.lra.
    - change (inject_Z 1) with 1. split; Lqa.lra. }
  destruct Hb as [Hb0 Hb1].
  rewrite !Qtrunc_nonneg by Lqa.lra.
  assert (F0 : Qfloor (beta * inject_Z x) = 0%Z).
  { assert (0 <= Qfloor (beta * inject_Z x))%Z
      by (change 0%Z with (Qfloor 0); now apply Qfloor_resp_le).
    assert (Qfloor (beta * inject_Z x) < 1)%Z.
    { rewrite Zlt_Qlt. eapply Qle_lt_trans; [apply Qfloor_le | exact Hb1]. }
    lia. }
  assert (F1 : Qfloor (1 + beta * inject_Z x) = 1%Z).
  { assert (1 <= Qfloor (1 + beta * inject_Z x))%Z.
    { change 1%Z with (Qfloor 1) at 1. apply Qfloor_resp_le. Lqa.lra. }
    assert (Qfloor (1 + beta * inject_Z x) < 2)%Z.
    { rewrite Zlt_Qlt. eapply Qle_lt_trans; [apply Qfloor_le |].
      change (inject_Z 2) with 2. Lqa.lra. }
    lia. }
  rewrite F0, F1. split; reflexivity.
Qed.

(** X20: the forgetting factor and the integer counters of ToW.  The
    counters [N] are [uint32_t], so [N = 1 + beta * N] and [N = beta * N]
    truncate.  With a forgetting factor in [0, 1) (0.9 in the program) and
    counters that are 0 or 1, as in a fresh device state, [UpdateReward]
    leaves the counter of the selected channel at 1 and every other
    channel counter at 0, and likewise for the spreading factors: the
    counters only mark the last selection, and they stay 0 or 1. *)
Theorem forgetting_keeps_only_last_selection :
  forall (a : ToWAlgorithm) (state : DeviceState) (channel sf : nat)
         (success : bool),
    0 <= m_beta a -> m_beta a < 1 ->
    (m_numChannels a <= List.length (N_ch state))%nat ->
    (m_numSF a <= List.length (N_sf state))%nat ->
    Forall (fun c => c = 0 \/ c = 1)%Z (N_ch state) ->
    Forall (fun c => c = 0 \/ c = 1)%Z (N_sf state) ->
    let state' := UpdateReward_state a state channel sf success in
    (forall i, (i < m_numChannels a)%nat ->
       nth i (N_ch state') 0%Z = if Nat.eqb i channel then 1%Z else 0%Z)
    /\ (forall i, (i < m_numSF a)%nat ->
          nth i (N_sf state') 0%Z = if Nat.eqb i sf then 1%Z else 0%Z)
    /\ Forall (fun c => c = 0 \/ c = 1)%Z (N_ch state')
    /\ Forall (fun c => c = 0 \/ c = 1)%Z (N_sf state')
    /\ List.length (N_ch state') = List.length (N_ch state)
    /\ List.length (N_sf state') = List.length (N_sf state).
Proof.
  intros a state channel sf success H0 H1 Hlc Hls Hc Hs state'.
  assert (Hpoint : forall n selected N i,
            (n <= List.length N)%nat ->
            Forall (fun c => c = 0 \/ c = 1)%Z N ->
            (nth i (decay_counts (m_beta a) n selected N) 0 = 0
             \/ nth i (decay_counts (m_beta a) n selected N) 0 = 1)%Z
            /\ ((i < n)%nat ->
                nth i (decay_counts (m_beta a) n selected N) 0%Z
                = if Nat.eqb i selected then 1%Z else 0%Z)).
  { intros n selected N i Hlen HN.
    assert (Hx : (nth i N 0 = 0 \/ nth i N 0 = 1)%Z).
    { destruct (Nat.lt_ge_cases i (List.length N)) as [Hi | Hi].
      - rewrite Forall_forall in HN. apply HN, nth_In, Hi.
      - left. now apply nth_overflow. }
    destruct (forgetting_truncates (m_beta a) (nth i N 0%Z) H0 H1 Hx)
      as [F1 F0].
    rewrite decay_counts_pointwise by exact Hlen.
    destruct (i <? n)%nat eqn:E.
    - rewrite F1, F0. split; [destruct (Nat.eqb i selected); tauto |].
      reflexivity.
    - split; [exact Hx |]. intro Hi. apply Nat.ltb_ge in E. lia. }
  assert (Hall : forall n selected N,
            (n <= List.length N)%nat ->
            Forall (fun c => c = 0 \/ c = 1)%Z N ->
            Forall (fun c => c = 0 \/ c = 1)%Z
                   (decay_counts (m_beta a) n selected N)).
  { intros n selected N Hlen HN. apply Forall_forall. intros c Hin.
    destruct (In_nth _ _ 0%Z Hin) as (i & _ & <-).
    apply (Hpoint n selected N i Hlen HN). }
  subst state'. cbn [UpdateReward_state N_ch N_sf].
  split; [| split; [| split; [| split; [| split]]]].
  - intros i Hi. now apply (Hpoint _ _ _ i Hlc Hc).
  - intros i Hi. now apply (Hpoint _ _ _ i Hls Hs).
  - now apply Hall.
  - now apply Hall.
  - apply decay_counts_length.
  - apply decay_counts_length.
Qed.

Lemma forgetting_keeps_only_last_selection_witness :
  0 <= m_beta program_algorithm /\ m_beta program_algorithm < 1
  /\ nth 0 (N_ch after_one_success) 0%Z = 1%Z.
Proof.
  assert (H0 : 0 <= m_beta program_algorithm) by discriminate.
  assert (H1 : m_beta program_algorithm < 1) by reflexivity.
  split; [exact H0 |]. split; [exact H1 |].
  assert (Hz : forall n, Forall (fun c => c = 0 \/ c = 1)%Z (repeat 0%Z n)).
  { intro n. apply Forall_forall. intros c Hc. apply repeat_spec in Hc.
    now left. }
  refine (proj1 (forgetting_keeps_only_last_selection program_algorithm
                   (DeviceState_new 5 3) 0 0 true H0 H1 _ _ _ _) 0%nat _).
  - cbn. lia.
  - cbn. lia.
  - apply Hz.
  - apply Hz.
  - cbn. lia.
Defined.

End ToWForgetting.
Section ToWTransmissions.

Import ToW.
Local Open Scope Q_scope.

Lemma after_transmissions_counts : forall txs s (t0 k0 : nat),
  totalTransmissions s = Z.of_nat t0 ->
  successfulTransmissions s = Z.of_nat k0 ->
  (k0 <= t0)%nat ->
  (Z.of_nat (t0 + List.length txs) < 2 ^ 32)%Z ->
  let s' := after_transmissions s txs in
  totalTransmissions s' = Z.of_nat (t0 + List.length txs)
  /\ successfulTransmissions s'
     = Z.of_nat (k0 + List.length (filter is_success txs))
  /\ channelHistory s'
     = channelHistory s ++ map (fun tx => fst (fst (fst tx))) txs
  /\ sfHistory s' = sfHistory s ++ map (fun tx => snd (fst (fst tx))) txs.
Proof.
  induction txs as [| [[[c f] ok] pb] txs IH]; intros s t0 k0 Ht Hk Hle Hlen s'.
  - subst s'. cbn. rewrite !Nat.add_0_r, !app_nil_r. now repeat split.
  - subst s'. unfold after_transmissions. cbn [fold_left fst snd].
    fold (after_transmissions (RecordTransmission_state s c f ok pb) txs).
    cbn [List.length] in Hlen.
    pose proof (filter_length_le is_success txs) as Hf.
    destruct (IH (RecordTransmission_state s c f ok pb) (S t0)
                 (if ok then S k0 else k0)) as (H1 & H2 & H3 & H4).
    + cbn [RecordTransmission_state totalTransmissions].
      rewrite Ht, wrap32_small by lia. lia.
    + cbn [RecordTransmission_state successfulTransmissions].
      destruct ok; [| exact Hk]. rewrite Hk, wrap32_small by lia. lia.
    + destruct ok; lia.
    + lia.
    + rewrite H1, H2, H3, H4.
      cbn [RecordTransmission_state channelHistory sfHistory filter is_success
           fst snd map List.length].
      rewrite <- !app_assoc. cbn [app].
      split; [f_equal; lia |]. split; [| now split].
      destruct ok; cbn [List.length]; f_equal; lia.
Qed.

(** X21: the delivery ratio of a ToW device.  After any sequence of fewer
    than 2^32 recorded transmissions of a fresh device, the state counts
    the transmissions and the successful ones and its histories list the
    channels and spreading factors used, in order; the PDR of the device
    is defined, lies between 0 and 1, and is the share of successful
    transmissions when there was one. *)
Theorem recorded_transmissions_give_pdr :
  forall (a : ToWAlgorithm) (deviceId : Z) (numChannels numSF : nat)
         (txs : list (nat * nat * bool * Z)),
    (Z.of_nat (List.length txs) < 2 ^ 32)%Z ->
    let s := after_transmissions (DeviceState_new numChannels numSF) txs in
    let ok := List.length (filter is_success txs) in
    find_device (m_deviceStates a) deviceId = Some s ->
    totalTransmissions s = Z.of_nat (List.length txs)
    /\ successfulTransmissions s = Z.of_nat ok
    /\ channelHistory s = map (fun tx => fst (fst (fst tx))) txs
    /\ sfHistory s = map (fun tx => snd (fst (fst tx))) txs
    /\ exists p,
         GetPDR a deviceId = Some p
         /\ 0 <= p <= 1
         /\ (txs <> [] ->
             p == inject_Z (Z.of_nat ok)
                  / inject_Z (Z.of_nat (List.length txs))).
Proof.
  intros a deviceId numChannels numSF txs Hlen s ok Hfind.
  destruct (after_transmissions_counts txs (DeviceState_new numChannels numSF)
              0 0) as (H1 & H2 & H3 & H4); try reflexivity; try lia.
  fold s in H1, H2, H3, H4. cbn [Nat.add] in H1, H2. fold ok in H2.
  cbn [DeviceState_new channelHistory sfHistory app] in H3, H4.
  split; [exact H1 |]. split; [exact H2 |]. split; [exact H3 |].
  split; [exact H4 |].
  pose proof (filter_length_le is_success txs) as Hok. fold ok in Hok.
  unfold GetPDR. rewrite Hfind, H1, H2.
  destruct txs as [| tx txs].
  - exists 0. cbn. split; [reflexivity |]. split; [split; discriminate |].
    intro H. contradiction.
  - set (n := List.length (tx :: txs)) in *.
    assert (Hn : (0 < n)%nat) by (subst n; cbn; lia).
    assert (Hnz : (Z.of_nat n =? 0)%Z = false) by (apply Z.eqb_neq; lia).
    rewrite Hnz.
    assert (Hpos : 0 < inject_Z (Z.of_nat n)).
    { change 0 with (inject_Z 0). rewrite <- Zlt_Qlt. lia. }
    rewrite fdiv_defined by (intro E; rewrite E in Hpos; discriminate).
    eexists. split; [reflexivity |]. split; [| intros _; reflexivity].
    split.
    + apply Qle_shift_div_l; [exact Hpos |]. rewrite Qmult_0_l.
      change 0 with (inject_Z 0). rewrite <- Zle_Qle. lia.
    + apply Qle_shift_div_r; [exact Hpos |]. rewrite Qmult_1_l.
      rewrite <- Zle_Qle. lia.
Qed.

Lemma recorded_transmissions_give_pdr_witness :
  (Z.of_nat (List.length [(0%nat, 0%nat, true, 50%Z); (1%nat, 0%nat, false, 50%Z)])
   < 2 ^ 32)%Z
  /\ totalTransmissions
       (after_transmissions (DeviceState_new 5 3)
          [(0%nat, 0%nat, true, 50%Z); (1%nat, 0%nat, false, 50%Z)])
     = 2%Z.
Proof.
  assert (H : (Z.of_nat (List.length
                 [(0%nat, 0%nat, true, 50%Z); (1%nat, 0%nat, false, 50%Z)])
               < 2 ^ 32)%Z) by (cbn; lia).
  split; [exact H |].
  exact (proj1 (recorded_transmissions_give_pdr
                  (Build_ToWAlgorithm
                     [(7%Z, after_transmissions (DeviceState_new 5 3)
                              [(0%nat, 0%nat, true, 50%Z);
                               (1%nat, 0%nat, false, 50%Z)])]
                     5 3 0.9 0.9 0.5)
                  7 5 3
                  [(0%nat, 0%nat, true, 50%Z); (1%nat, 0%nat, false, 50%Z)]
                  H eq_refl)).
Defined.

End ToWTransmissions.

Section ToWEnergy.

Import ToW.
Local Open Scope Q_scope.

Lemma timeOnAir_find_pos : forall bandwidth sf v,
  timeOnAir_find timeOnAir bandwidth sf = Some v -> 0 < v.
Proof.
  intros bandwidth sf v. unfold timeOnAir. cbn [timeOnAir_find].
  repeat match goal with
         | |- context [if ?c then _ else _] => destruct c
         end;
    intro H; try discriminate; injection H as <-; reflexivity.
Qed.

(** X22: the energy of a ToW transmission.  It does not depend on the
    payload size; it is positive for every spreading factor and
    bandwidth; it is 51.2 mW times the time on air; and at 125 kHz it
    grows strictly with the spreading-factor index over 0..5, the indices
    of SF7..SF12. *)
Theorem transmission_energy_by_spreading_factor :
  (forall sf p1 p2 bandwidth,
      CalculateTransmissionEnergy sf p1 bandwidth
      = CalculateTransmissionEnergy sf p2 bandwidth)
  /\ (forall sf p bandwidth, 0 < CalculateTransmissionEnergy sf p bandwidth)
  /\ (forall sf p,
        (0 <= sf <= 5)%Z ->
        exists toa,
          timeOnAir_find timeOnAir 125 (sf + 7) = Some toa
          /\ CalculateTransmissionEnergy sf p 125 == 51.2 * toa / 1000)
  /\ (forall sf1 sf2 p1 p2,
        (0 <= sf1)%Z -> (sf1 < sf2)%Z -> (sf2 <= 5)%Z ->
        CalculateTransmissionEnergy sf1 p1 125
        < CalculateTransmissionEnergy sf2 p2 125).
Proof.
  split; [| split; [| split]].
  - reflexivity.
  - intros sf p bandwidth. unfold CalculateTransmissionEnergy. cbv zeta.
    assert (Ht : 0 < match timeOnAir_find timeOnAir bandwidth (wrap32 (sf + 7))
                     with
                     | Some v => v
                     | None => 50.0 * Qpower 2 sf
                     end).
    { destruct (timeOnAir_find timeOnAir bandwidth (wrap32 (sf + 7))) eqn:E.
      - exact (timeOnAir_find_pos _ _ _ E).
      - pose proof (Qpower_0_lt 2 sf eq_refl) as Hp. Lqa.lra. }
    set (t := match _ with Some v => v | None => _ end) in *.
    unfold TX_CURRENT_MA, VOLTAGE_V, PROCESSING_POWER_MW.
    assert (Hd : 0 < t / 1000.0).
    { apply Qlt_shift_div_l; [reflexivity | Lqa.lra]. }
    Lqa.nra.
  - intros sf p Hsf.
    assert (Hcase : (sf = 0 \/ sf = 1 \/ sf = 2 \/ sf = 3 \/ sf = 4 \/ sf = 5)%Z)
      by lia.
    destruct Hcase as [-> | [-> | [-> | [-> | [-> | ->]]]]];
      eexists; (split; [reflexivity | vm_compute; reflexivity]).
  - intros sf1 sf2 p1 p2 H1 H12 H2.
    assert (Hc1 : (sf1 = 0 \/ sf1 = 1 \/ sf1 = 2 \/ sf1 = 3 \/ sf1 = 4)%Z)
      by lia.
    assert (Hc2 : (sf2 = 1 \/ sf2 = 2 \/ sf2 = 3 \/ sf2 = 4 \/ sf2 = 5)%Z)
      by lia.
    destruct Hc1 as [-> | [-> | [-> | [-> | ->]]]];
      destruct Hc2 as [-> | [-> | [-> | [-> | ->]]]];
      try lia; reflexivity.
Qed.

End ToWEnergy.
Section TotalSelections.

Import DLoRa.
Local Open Scope Z_scope.

Variable T : Type.
Variable T_eq_dec : forall x y : T, {x = y} + {x <> y}.

(** X25: the decision index of the D-LoRa bandit.  After fewer than 2^32
    updates of a fresh agent, the total [SelectArm] computes from the
    counters of a dimension is the number of updates made, whatever arms
    were updated. *)
Theorem totalSelections_counts_updates :
  forall (armSet : list T) (events : list (T * R)),
    Z.of_nat (List.length events) < 2 ^ 32 ->
    totalSelections (after_updates T_eq_dec armSet events)
    = Z.of_nat (List.length events).
Proof.
  intros armSet events Hlen. unfold totalSelections.
  rewrite wrapped_sum_is_sum by lia. unfold after_updates.
  rewrite (sum_after_updates T T_eq_dec events (init_arms T_eq_dec armSet) 0).
  - cbn [Nat.add]. rewrite Z.add_0_l. apply wrap32_small. lia.
  - apply sum_init_arms.
  - intro a. destruct (init_arms_zero T T_eq_dec armSet a) as [_ ->].
    cbn. lia.
  - exact Hlen.
Qed.

(** X26: [SelectArm] returns an arm of the set it is given, for every
    state of the statistics; on an empty set there is no arm to return
    (the source reads [armSet[0]]). *)
Theorem SelectArm_returns_an_arm_of_the_set :
  forall (st : ArmStats T),
    SelectArm T_eq_dec st [] = None
    /\ (forall a0 rest,
          exists a, SelectArm T_eq_dec st (a0 :: rest) = Some a
                    /\ In a (a0 :: rest)).
Proof.
  intro st. split; [reflexivity |].
  intros a0 rest. unfold SelectArm. eexists. split; [reflexivity |].
  destruct (SelectArm_scan T T_eq_dec st (totalSelections st) (a0 :: rest)
              (-1)%R a0) as [[E _] | (l1 & l2 & E & _)].
  - rewrite E. now left.
  - rewrite E at 2. apply in_elt.
Qed.

End TotalSelections.

Lemma totalSelections_counts_updates_witness :
  (Z.of_nat (List.length [(7%Z, 1%R); (8%Z, 0%R); (7%Z, 0%R)]) < 2 ^ 32)%Z
  /\ DLoRa.totalSelections
       (DLoRa.after_updates Z.eq_dec [7%Z; 8%Z]
          [(7%Z, 1%R); (8%Z, 0%R); (7%Z, 0%R)])
     = 3%Z.
Proof.
  assert (H : (Z.of_nat (List.length [(7%Z, 1%R); (8%Z, 0%R); (7%Z, 0%R)])
               < 2 ^ 32)%Z) by (simpl; lia).
  split; [exact H |].
  exact (totalSelections_counts_updates Z Z.eq_dec [7%Z; 8%Z]
           [(7%Z, 1%R); (8%Z, 0%R); (7%Z, 0%R)] H).
Defined.
Section ToWTunedStatistics.

Import ToW.
Local Open Scope Q_scope.

Lemma Qsquare_nonneg : forall a : Q, 0 <= a * a.
Proof. intro a. destruct (Qlt_le_dec a 0); Lqa.nra. Qed.

Lemma inject_Z_nonzero : forall z, (z <> 0)%Z -> ~ inject_Z z == 0.
Proof.
  intros z Hz E. unfold Qeq, inject_Z in E. cbn in E. lia.
Qed.

(** The statistics of an arm that received [n] outcomes of which [k]
    were successes. *)
Lemma tuned_statistics_step : forall (s : ArmStats) (n k : nat) (success : bool),
  pulls s = Z.of_nat n ->
  sumRewards s == inject_Z (Z.of_nat k) ->
  sumSquaredRewards s == inject_Z (Z.of_nat k) ->
  (Z.of_nat n + 1 < 2 ^ 32)%Z ->
  exists s',
    UpdateArmStats s success = Some s'
    /\ pulls s' = Z.of_nat (S n)
    /\ sumRewards s' == inject_Z (Z.of_nat (if success then S k else k))
    /\ sumSquaredRewards s'
       == inject_Z (Z.of_nat (if success then S k else k))
    /\ mean s' == inject_Z (Z.of_nat (if success then S k else k))
                  / inject_Z (Z.of_nat (S n))
    /\ ((1 <= n)%nat ->
        variance s'
        == inject_Z (Z.of_nat (if success then S k else k))
           * (inject_Z (Z.of_nat (S n))
              - inject_Z (Z.of_nat (if success then S k else k)))
           / (inject_Z (Z.of_nat (S n)) * inject_Z (Z.of_nat n)))
    /\ (n = 0%nat -> variance s' = variance s).
Proof.
  intros s n k success Hp Hs Hq Hlen.
  set (k' := if success then S k else k).
  assert (Hk' : inject_Z (Z.of_nat k')
                == inject_Z (Z.of_nat k) + (if success then 1 else 0)).
  { subst k'. destruct success.
    - rewrite Nat2Z.inj_succ. unfold Z.succ. rewrite inject_Z_plus. reflexivity.
    - ring. }
  unfold UpdateArmStats. cbv zeta.
  rewrite Hp, wrap32_small by lia.
  replace (Z.of_nat n + 1)%Z with (Z.of_nat (S n)) by lia.
  assert (Hnz : ~ inject_Z (Z.of_nat (S n)) == 0)
    by (apply inject_Z_nonzero; lia).
  rewrite fdiv_defined by exact Hnz.
  eexists. split; [reflexivity |].
  cbn [pulls sumRewards sumSquaredRewards mean variance].
  assert (Hsum : sumRewards s + (if success then 1 else 0)
                 == inject_Z (Z.of_nat k')) by (rewrite Hk', Hs; reflexivity).
  assert (Hsq : sumSquaredRewards s
                + (if success then 1 else 0) * (if success then 1 else 0)
                == inject_Z (Z.of_nat k')).
  { rewrite Hk', Hq. destruct success; ring. }
  split; [reflexivity |]. split; [exact Hsum |]. split; [exact Hsq |].
  split; [now rewrite Hsum |]. split.
  - intro Hn.
    assert (H1 : (1 <? Z.of_nat (S n))%Z = true) by (apply Z.ltb_lt; lia).
    rewrite H1, wrap32_small by lia.
    replace (Z.of_nat (S n) - 1)%Z with (Z.of_nat n) by lia.
    assert (Hn0 : ~ inject_Z (Z.of_nat n) == 0)
      by (apply inject_Z_nonzero; lia).
    rewrite Hsq, Hsum. field. split; assumption.
  - intros ->. reflexivity.
Qed.

Lemma after_rewards_statistics : forall outcomes (s : ArmStats) (n k : nat),
  pulls s = Z.of_nat n ->
  sumRewards s == inject_Z (Z.of_nat k) ->
  sumSquaredRewards s == inject_Z (Z.of_nat k) ->
  (Z.of_nat (n + List.length outcomes) < 2 ^ 32)%Z ->
  ((1 <= n)%nat ->
   mean s == inject_Z (Z.of_nat k) / inject_Z (Z.of_nat n)) ->
  ((2 <= n)%nat ->
   variance s
   == inject_Z (Z.of_nat k) * (inject_Z (Z.of_nat n) - inject_Z (Z.of_nat k))
      / (inject_Z (Z.of_nat n) * inject_Z (Z.of_nat (n - 1)))) ->
  ((n <= 1)%nat -> variance s == 0) ->
  let n' := (n + List.length outcomes)%nat in
  let k' := (k + List.length (filter (fun b : bool => b) outcomes))%nat in
  exists s',
    after_rewards s outcomes = Some s'
    /\ pulls s' = Z.of_nat n'
    /\ sumRewards s' == inject_Z (Z.of_nat k')
    /\ ((1 <= n')%nat ->
        mean s' == inject_Z (Z.of_nat k') / inject_Z (Z.of_nat n'))
    /\ ((2 <= n')%nat ->
        variance s'
        == inject_Z (Z.of_nat k')
           * (inject_Z (Z.of_nat n') - inject_Z (Z.of_nat k'))
           / (inject_Z (Z.of_nat n') * inject_Z (Z.of_nat (n' - 1))))
    /\ ((n' <= 1)%nat -> variance s' == 0).
Proof.
  induction outcomes as [| o outcomes IH];
    intros s n k Hp Hs Hq Hlen Hm Hv Hv0 n' k'.
  - subst n' k'. cbn [List.length filter after_rewards].
    rewrite !Nat.add_0_r. exists s. now repeat split.
  - subst n' k'. cbn [List.length] in Hlen.
    destruct (tuned_statistics_step s n k o Hp Hs Hq)
      as (s1 & E & P1 & S1 & Q1 & M1 & V1 & V0); [lia |].
    cbn [after_rewards]. rewrite E.
    destruct (IH s1 (S n) (if o then S k else k)) as (s' & E' & R).
    + exact P1.
    + exact S1.
    + exact Q1.
    + lia.
    + intros _. exact M1.
    + intro Hn. replace (S n - 1)%nat with n by lia. apply V1. lia.
    + intro Hn. assert (n = 0)%nat by lia. rewrite (V0 H). apply Hv0. lia.
    + exists s'. split; [exact E' |].
      cbn [List.length filter].
      replace (n + S (List.length outcomes))%nat
        with (S n + List.length outcomes)%nat by lia.
      replace (k + List.length (if o then o :: filter (fun b : bool => b) outcomes
                                else filter (fun b : bool => b) outcomes))%nat
        with ((if o then S k else k)
              + List.length (filter (fun b : bool => b) outcomes))%nat
        by (destruct o; cbn [List.length]; lia).
      exact R.
Qed.

(** X23: the arm statistics of the UCB1-tuned comparison algorithm.
    After [n] outcomes ([n < 2^32]) of which [k] were successes, an arm
    has [pulls = n], mean [k / n] and, from the second outcome on, the
    sample variance [k (n - k) / (n (n - 1))] of its 0/1 rewards; before,
    the variance is 0.  The mean lies in [0, 1] and the variance in
    [0, 1/2], and no update divides by zero. *)
Theorem tuned_statistics_are_sample_statistics :
  forall outcomes : list bool,
    (Z.of_nat (List.length outcomes) < 2 ^ 32)%Z ->
    let n := inject_Z (Z.of_nat (List.length outcomes)) in
    let k := inject_Z (Z.of_nat
                         (List.length (filter (fun b : bool => b) outcomes))) in
    exists s,
      after_rewards ArmStats_new outcomes = Some s
      /\ pulls s = Z.of_nat (List.length outcomes)
      /\ sumRewards s == k
      /\ (1 <= n -> mean s == k / n)
      /\ (2 <= n -> variance s == k * (n - k) / (n * (n - 1)))
      /\ (n <= 1 -> variance s == 0)
      /\ 0 <= mean s <= 1
      /\ 0 <= variance s <= 1 # 2.
Proof.
  intros outcomes Hlen n k.
  destruct (after_rewards_statistics outcomes ArmStats_new 0 0)
    as (s & E & P & S & M & V & V0);
    try reflexivity; try (intro H; lia); try exact Hlen.
  cbn [Nat.add] in *.
  set (nn := List.length outcomes) in *.
  set (kk := List.length (filter (fun b : bool => b) outcomes)) in *.
  assert (Hkn : (kk <= nn)%nat) by apply filter_length_le.
  assert (Hk0 : 0 <= k).
  { subst k. change 0 with (inject_Z 0). rewrite <- Zle_Qle. lia. }
  assert (Hkle : k <= n) by (subst k n; rewrite <- Zle_Qle; lia).
  assert (Hn1 : 1 <= n <-> (1 <= nn)%nat).
  { subst n. change 1 with (inject_Z 1). rewrite <- Zle_Qle. lia. }
  assert (Hn2 : 2 <= n <-> (2 <= nn)%nat).
  { subst n. change 2 with (inject_Z 2). rewrite <- Zle_Qle. lia. }
  assert (Hpred : (1 <= nn)%nat -> inject_Z (Z.of_nat (nn - 1)) == n - 1).
  { intro H. subst n. rewrite Nat2Z.inj_sub by lia.
    unfold Z.sub. rewrite inject_Z_plus, inject_Z_opp. reflexivity. }
  assert (HM : 1 <= n -> mean s == k / n)
    by (intro H; apply M, Hn1, H).
  assert (HV : 2 <= n -> variance s == k * (n - k) / (n * (n - 1))).
  { intro H. apply Hn2 in H. rewrite (V H), Hpred by lia. reflexivity. }
  assert (HV0 : n <= 1 -> variance s == 0).
  { intro H. apply V0.
    assert (Hz : (Z.of_nat nn <= 1)%Z)
      by (rewrite Zle_Qle; exact H). lia. }
  exists s. split; [exact E |]. split; [exact P |]. split; [exact S |].
  split; [exact HM |]. split; [exact HV |]. split; [exact HV0 |].
  split.
  - destruct (Nat.eq_dec nn 0) as [Hz | Hnz].
    + assert (Es : s = ArmStats_new).
      { assert (Ho : outcomes = []) by (subst nn; now apply length_zero_iff_nil).
        rewrite Ho in E. cbn in E. now injection E. }
      rewrite Es. cbn. split; discriminate.
    + assert (H1 : 1 <= n) by (apply Hn1; lia).
      rewrite (HM H1).
      assert (Hpos : 0 < n) by Lqa.lra.
      split.
      * apply Qle_shift_div_l; [exact Hpos | Lqa.lra].
      * apply Qle_shift_div_r; [exact Hpos | Lqa.lra].
  - destruct (Nat.le_gt_cases nn 1) as [Hle | Hgt].
    + assert (Hn : n <= 1).
      { subst n. change 1 with (inject_Z 1). rewrite <- Zle_Qle. lia. }
      rewrite (HV0 Hn). split; discriminate.
    + assert (H2 : 2 <= n) by (apply Hn2; lia).
      rewrite (HV H2).
      assert (Hden : 0 < n * (n - 1)) by Lqa.nra.
      split.
      * apply Qle_shift_div_l; [exact Hden | Lqa.nra].
      * apply Qle_shift_div_r; [exact Hden |].
        pose proof (Qsquare_nonneg (n - 2 * k)) as Hsq. Lqa.nra.
Qed.

Lemma tuned_statistics_are_sample_statistics_witness :
  (Z.of_nat (List.length [true; false; true]) < 2 ^ 32)%Z
  /\ exists s,
       after_rewards ArmStats_new [true; false; true] = Some s
       /\ pulls s = 3%Z.
Proof.
  assert (H : (Z.of_nat (List.length [true; false; true]) < 2 ^ 32)%Z)
    by (cbn; lia).
  split; [exact H |].
  destruct (tuned_statistics_are_sample_statistics [true; false; true] H)
    as (s & E & P & _).
  exists s. split; [exact E | exact P].
Defined.

End ToWTunedStatistics.
Section QoCChannelModel.

Import QoCChannel.
Local Open Scope R_scope.

Lemma logistic_range : forall x, 0 < 1 / (1 + exp x) < 1.
Proof.
  intro x. pose proof (exp_pos x) as He.
  assert (Hd : 0 < 1 + exp x) by lra.
  split.
  - apply Rdiv_lt_0_compat; lra.
  - apply (Rmult_lt_reg_r (1 + exp x)); [exact Hd |].
    unfold Rdiv. rewrite Rmult_assoc, Rinv_l by lra. lra.
Qed.

Lemma logistic_decreasing : forall x y,
  x <= y -> 1 / (1 + exp y) <= 1 / (1 + exp x).
Proof.
  intros x y Hxy. pose proof (exp_pos x) as Hx. pose proof (exp_pos y) as Hy.
  assert (He : exp x <= exp y).
  { destruct Hxy as [Hlt | ->]; [left; now apply exp_increasing | lra]. }
  unfold Rdiv. rewrite !Rmult_1_l.
  apply Rinv_le_contravar; lra.
Qed.

Lemma clamp_id : forall p, 0 <= p <= 1 -> Rmax 0.0 (Rmin 1.0 p) = p.
Proof.
  intros p [H0 H1]. replace 1.0 with 1 by lra. replace 0.0 with 0 by lra.
  rewrite Rmin_right by lra. now rewrite Rmax_right by lra.
Qed.

Lemma clamp_range : forall p, 0 <= Rmax 0.0 (Rmin 1.0 p) <= 1.
Proof.
  intro p. pose proof (Rmax_l 0.0 (Rmin 1.0 p)) as Hl.
  pose proof (Rmin_l 1.0 p) as Hm.
  split; [lra |]. apply Rmax_lub; lra.
Qed.

Lemma clamp_monotone : forall p q,
  p <= q -> Rmax 0.0 (Rmin 1.0 p) <= Rmax 0.0 (Rmin 1.0 q).
Proof.
  intros p q H. apply Rle_max_compat_l. apply Rle_min_compat_l. exact H.
Qed.

(** X24: the success model of the QoC channel.  A channel outside the
    model is never a success and has quality 0; the quality of a channel
    of the model is positive.  The success probability is always in
    [0, 1]; without mobility it is strictly between 0.4 and 1 in the
    stationary scenario and strictly between 0.2 and 1 otherwise, so a
    transmission on a channel of the model is never certain and never
    hopeless; and for a mobility of 0 to 100 percent a channel with a
    larger ESP does not have a smaller success probability. *)
Theorem channel_success_probability :
  (forall m channel shadowing u,
      (m_K m <= channel)%nat ->
      IsTransmissionSuccessful m channel shadowing u = false
      /\ GetChannelQuality m channel shadowing = 0)
  /\ (forall m channel shadowing,
        (channel < m_K m)%nat -> 0 < GetChannelQuality m channel shadowing)
  /\ (forall m channel shadowing,
        0 <= successProbability m channel shadowing <= 1)
  /\ (forall m channel shadowing,
        m_mobilityPercentage m = 0 ->
        (if m_isStationary m then 0.4 else 0.2)
        < successProbability m channel shadowing < 1)
  /\ (forall esp1 esp2 K sf stationary mobility c1 c2 shadowing,
        0 <= mobility <= 100 ->
        nth c1 esp1 0 <= nth c2 esp2 0 ->
        successProbability
          (Build_ChannelConditionModel esp1 K sf stationary mobility)
          c1 shadowing
        <= successProbability
             (Build_ChannelConditionModel esp2 K sf stationary mobility)
             c2 shadowing).
Proof.
  split; [| split; [| split; [| split]]].
  - intros m channel shadowing u H.
    unfold IsTransmissionSuccessful, GetChannelQuality.
    apply Nat.leb_le in H. rewrite H. split; [reflexivity | lra].
  - intros m channel shadowing H. unfold GetChannelQuality.
    destruct (Nat.leb_spec (m_K m) channel); [lia |].
    cbv zeta. unfold Rpower. apply exp_pos.
  - intros m channel shadowing. unfold successProbability. cbv zeta.
    apply clamp_range.
  - intros m channel shadowing Hm. unfold successProbability. cbv zeta.
    rewrite Hm.
    match goal with
    | |- context [1.0 / (1.0 + exp ?x)] =>
        assert (Hl : 0 < 1.0 / (1.0 + exp x) < 1)
          by (replace 1.0 with 1 by lra; apply logistic_range);
        set (s := 1.0 / (1.0 + exp x)) in *
    end.
    destruct (m_isStationary m); rewrite clamp_id; lra.
  - intros esp1 esp2 K sf stationary mobility c1 c2 shadowing Hmob Hesp.
    unfold successProbability. cbv zeta.
    cbn [m_channelESP m_spreadingFactor m_isStationary m_mobilityPercentage].
    apply clamp_monotone.
    set (th := Ropp 120.0 - (IZR sf - 7) * 2.5).
    set (x1 := - (nth c1 esp1 0 + shadowing - mobility * 0.1 - th) / 2.5).
    set (x2 := - (nth c2 esp2 0 + shadowing - mobility * 0.1 - th) / 2.5).
    assert (Hx : x2 <= x1) by (subst x1 x2; lra).
    pose proof (logistic_decreasing x2 x1 Hx) as Hl.
    pose proof (logistic_range x1) as H1. pose proof (logistic_range x2) as H2.
    replace 1.0 with 1 by lra.
    set (s1 := 1 / (1 + exp x1)) in *. set (s2 := 1 / (1 + exp x2)) in *.
    destruct stationary; nra.
Qed.

End QoCChannelModel.
